(** * tswHist: sliding-window histograms by differential updates

    A shallow embedding of the C sources of tswHist

      - [tswHist.h]       pure C core: [pushHist], [popHist],
                          [tswHistSlidingWindow], [tswHist]
      - [tswHist_mx.h]    the same helpers on MATLAB's [mwSize]
      - [tswHist_mx_c.c]  MEX gateway that calls the pure C core
      - [tswHist_mx.c]    MEX gateway with range normalisation

    followed by the properties its specification states about them.

    ** Conventions of the embedding

    - [size_t] and [mwSize] are 64-bit unsigned: a value is a [Z] in
      [0, 2^64) and every arithmetic result is reduced by [size_t].
    - [int] is 32-bit signed.  Narrowing a [size_t] to [int] keeps the
      value modulo 2^32 ([int_of_size_t]), as GCC, Clang and MSVC define it.
    - A [double] that holds a count, a bin index, a window locus or an offset
      is an integer of magnitude far below 2^53 and is represented by that
      integer: additions of 1 and conversions from integers are exact there.
    - A [double] that holds a real quantity (input sample, edge, normalised
      value) is a rational, and each floating-point operation rounds its
      exact result with a function [fl : Q -> Q] the development is
      parametric in.  Division can leave the finite values, hence [double].
      In [tswHist_mx.c], whose differences and sums range over the whole
      input, a rounded result beyond [DBL_MAX] is an infinity ([rnd]).
    - The scalar arguments of a gateway are the doubles [mxGetScalar]
      returns, taken to be integer-valued; the gateway converts them to
      [mwSize] itself ([size_t_of_double]).
    - Conversions from [double] to an integer type follow the x86-64 code
      the compilers emit: a negative value converted to [size_t] wraps
      modulo 2^64 (the sliding loop relies on it for its offsets), and a
      value that does not fit [int] yields [INT_MIN].
    - An array is a list; a pointer into an array is the suffix it points to.
      Reads and writes past the end of a list do nothing. *)

From Stdlib Require Import ZArith QArith Qround Lia.
From stdpp Require Import base tactics option list list_numbers.

Local Open Scope Z_scope.

(** ** C scalar types *)

Definition SIZE_MODULUS : Z := Eval cbv in 2 ^ 64.
Definition INT_MIN : Z := Eval cbv in - 2 ^ 31.
Definition INT_MAX : Z := Eval cbv in 2 ^ 31 - 1.
Definition INT_MODULUS : Z := Eval cbv in 2 ^ 32.

(** Reduction of an arithmetic result to [size_t]. *)
Definition size_t (z : Z) : Z := z mod SIZE_MODULUS.

(** [(int)n] for [n] of type [size_t]. *)
Definition int_of_size_t (n : Z) : Z :=
  (n - INT_MIN) mod INT_MODULUS + INT_MIN.

(** [(int)d] for an integer-valued double [d]. *)
Definition int_of_double (d : Z) : Z :=
  if (INT_MIN <=? d) && (d <=? INT_MAX) then d else INT_MIN.

(** [(size_t)d] for an integer-valued double [d]: the wrap modulo 2^64,
    which is what the x86-64 conversion delivers for [d] from -2^63 to
    below 2^64. *)
Definition size_t_of_double (d : Z) : Z := d mod SIZE_MODULUS.

(** Real-valued doubles. *)
Inductive double : Type :=
  | Finite (q : Q)
  | Infinite (negative : bool)
  | NaN.

Global Instance double_inhabited : Inhabited double := populate (Finite 0%Q).
Global Instance Q_inhabited : Inhabited Q := populate 0%Q.

(** The largest finite double, [(2^53 - 1) * 2^971]. *)
Definition DBL_MAX : Q := inject_Z ((2 ^ 53 - 1) * 2 ^ 971).

Section FloatingPoint.
Variable fl : Q -> Q.

(** The double an operation delivers when its exact result is [q]: the
    rounded value, or an infinity when the rounded value is beyond
    [DBL_MAX]. *)
Definition rnd (q : Q) : double :=
  let r := fl q in
  if Qle_bool r DBL_MAX
  then if Qle_bool (- DBL_MAX) r then Finite r else Infinite true
  else Infinite false.

(** [a - b] on finite doubles. *)
Definition fsub (a b : Q) : double := rnd (a - b).

(** [x / y], [x * y] and [a + y] on doubles.  The sign of a zero is not
    tracked: the zeros met here are the [+0] of an exact zero difference
    and of a non-negative value divided by [+inf]. *)
Definition fdiv (x y : double) : double :=
  match x, y with
  | NaN, _ | _, NaN => NaN
  | Infinite _, Infinite _ => NaN
  | Infinite s, Finite b => Infinite (xorb s (negb (Qle_bool 0%Q b)))
  | Finite _, Infinite _ => Finite 0%Q
  | Finite a, Finite b =>
      if Qeq_bool b 0%Q then
        if Qeq_bool a 0%Q then NaN else Infinite (negb (Qle_bool 0%Q a))
      else rnd (a / b)
  end.

Definition fmul (x y : double) : double :=
  match x, y with
  | NaN, _ | _, NaN => NaN
  | Infinite s, Infinite s' => Infinite (xorb s s')
  | Infinite s, Finite b | Finite b, Infinite s =>
      if Qeq_bool b 0%Q then NaN
      else Infinite (xorb s (negb (Qle_bool 0%Q b)))
  | Finite a, Finite b => rnd (a * b)
  end.

Definition fadd (a : Q) (y : double) : double :=
  match y with
  | Finite b => rnd (a + b)
  | Infinite s => Infinite s
  | NaN => NaN
  end.

(** [a / b] on finite doubles. *)
Definition ddiv (a b : Q) : double :=
  if Qeq_bool b 0%Q then
    if Qeq_bool a 0%Q then NaN else Infinite (negb (Qle_bool 0%Q a))
  else Finite (fl (a / b)%Q).

(** [x * n] for a non-negative finite [n]. *)
Definition dmul (x : double) (n : Q) : double :=
  match x with
  | Finite q => Finite (fl (q * n)%Q)
  | Infinite s => if Qeq_bool n 0%Q then NaN else Infinite s
  | NaN => NaN
  end.

(** [(int)floor(x)]. *)
Definition int_of_floor (x : double) : Z :=
  match x with
  | Finite q => int_of_double (Qfloor q)
  | Infinite _ | NaN => INT_MIN
  end.

(** The two binning lines shared by [tswHist] and the range-normalising
    gateway:
<<
      int bin = (int)floor(norm * n_bins);
      if (bin == (int)n_bins) bin = n_bins - 1; // Patch for max value
>>
    [n_bins] enters the product as a double, which is exact below 2^53;
    [n_bins - 1] is computed in [size_t] and narrowed to [int] by the
    assignment.  A product beyond [DBL_MAX] is an infinity in C and its
    conversion to [int] is [INT_MIN]; so is the conversion of the rounded
    product, which does not fit [int]: the overflow need not be tracked
    here. *)
Definition binner (norm : double) (n_bins : Z) : Z :=
  let bin := int_of_floor (dmul norm (inject_Z n_bins)) in
  if bin =? int_of_size_t n_bins then int_of_size_t (size_t (n_bins - 1))
  else bin.
End FloatingPoint.

(** ** Loops and arrays *)

(** [for (i = lo; i < hi; ++i) body] *)
Definition for_range {S : Type} (lo hi : Z) (body : Z -> S -> S) (s : S) : S :=
  foldl (fun s i => body i s) s (seqZ lo (hi - lo)).

(** [&p[i]] *)
Definition ptr_add {A : Type} (p : list A) (i : Z) : list A :=
  drop (Z.to_nat i) p.

(** [p[i]] read, and [p[i] = v] *)
Definition rd {A : Type} `{Inhabited A} (p : list A) (i : Z) : A :=
  p !!! Z.to_nat i.
Definition wr {A : Type} (p : list A) (i : Z) (v : A) : list A :=
  <[Z.to_nat i := v]> p.

(** [calloc(n, sizeof(double))] *)
Definition calloc (n : Z) : list Z := replicate (Z.to_nat n) 0.

(** The memory the sliding loop works on. *)
Record buffers : Type := Buffers {
  histMat : list Z;
  bufferHist : list Z;
  input_int : list Z;
  strided_windows_loci : list Z;
  offsets : list Z
}.

(** The body shared by both copies of [tswHistSlidingWindow], which differ
    only in the [pushHist] and [popHist] they call. *)
Section SlidingWindow.
Variables pushHist popHist : list Z -> list Z -> Z -> Z -> list Z.

Definition pop_index (strided_windows_loci offsets : list Z) (w j : Z) : Z :=
  let base_pop := size_t (size_t_of_double (rd strided_windows_loci w) - 2) in
  size_t (base_pop + size_t_of_double (rd offsets j)).

Definition push_index (strided_windows_loci offsets : list Z)
    (win_len w j : Z) : Z :=
  let base_push :=
    size_t (size_t (size_t_of_double (rd strided_windows_loci w) + win_len) - 2) in
  size_t (base_push + size_t_of_double (rd offsets j)).

(** Column [w] receives the accumulator. *)
Definition store_column (histMat bufferHist : list Z) (w n_bins : Z) : list Z :=
  for_range 0 n_bins (fun b histMat =>
    wr histMat (size_t (b + size_t (w * n_bins))) (rd bufferHist b)) histMat.

Definition sliding_step (input_int strided_windows_loci offsets : list Z)
    (win_len n_bins stride input_len : Z) (w : Z)
    (st : list Z * list Z) : list Z * list Z :=
  let '(histMat, bufferHist) := st in
  (* pop indices *)
  let bufferHist :=
    for_range 0 stride (fun j bufferHist =>
      let idx := pop_index strided_windows_loci offsets w j in
      if idx <? input_len
      then popHist bufferHist (ptr_add input_int idx) 1 n_bins
      else bufferHist) bufferHist in
  (* push indices *)
  let bufferHist :=
    for_range 0 stride (fun j bufferHist =>
      let idx := push_index strided_windows_loci offsets win_len w j in
      if idx <? input_len
      then pushHist bufferHist (ptr_add input_int idx) 1 n_bins
      else bufferHist) bufferHist in
  (* Store *)
  (store_column histMat bufferHist w n_bins, bufferHist).

Definition sliding_window
    (histMat bufferHist input_int strided_windows_loci : list Z)
    (num_windows win_len n_bins stride : Z)
    (offsets : list Z) (input_len : Z) : buffers :=
  let '(histMat', bufferHist') :=
    for_range 1 num_windows
      (sliding_step input_int strided_windows_loci offsets
         win_len n_bins stride input_len)
      (histMat, bufferHist) in
  Buffers histMat' bufferHist' input_int strided_windows_loci offsets.
End SlidingWindow.

(** [size_t num_windows = (input_len - win_len) / stride + 1;]
    The division is unsigned; a zero [stride] is a division fault in C. *)
Definition num_windows (input_len win_len stride : Z) : Z :=
  size_t (size_t (input_len - win_len) / stride + 1).

(** ** tswHist.h *)
Module tswHist_h.

Definition pushHist (hist_vec input_int : list Z) (len n_bins : Z) : list Z :=
  foldl (fun hist_vec d =>
           let bin := int_of_double d in
           if (0 <=? bin) && (bin <? n_bins)
           then alter (fun c => c + 1) (Z.to_nat bin) hist_vec
           else hist_vec)
        hist_vec (take (Z.to_nat len) input_int).

Definition popHist (hist_vec input_int : list Z) (len n_bins : Z) : list Z :=
  foldl (fun hist_vec d =>
           let bin := int_of_double d in
           if (0 <=? bin) && (bin <? int_of_size_t n_bins)
           then alter (fun c => c - 1) (Z.to_nat bin) hist_vec
           else hist_vec)
        hist_vec (take (Z.to_nat len) input_int).

Definition tswHistSlidingWindow := sliding_window pushHist popHist.

(** The loops of [tswHist] that fill its work arrays. *)
Definition fill_loci (strided_windows_loci : list Z) (num_windows stride : Z)
    : list Z :=
  for_range 0 num_windows (fun i loci =>
    wr loci i (size_t (size_t (i * stride) + 1))) strided_windows_loci.

Definition fill_edges (fl : Q -> Q) (edges : list double) (n_bins : Z)
    : list double :=
  for_range 0 (n_bins + 1) (fun i edges =>
    wr edges i (dmul fl (ddiv fl (inject_Z i) (inject_Z n_bins)) 1%Q)) edges.

Definition fill_input_int (fl : Q -> Q) (input_norm : list Q)
    (input_len n_bins : Z) : list Z :=
  for_range 0 input_len (fun i input_int =>
    let bin := binner fl (Finite (rd input_norm i)) n_bins in
    wr input_int i bin) (calloc input_len).

Definition fill_offsets (stride : Z) : list Z :=
  for_range 0 stride (fun i offsets =>
    wr offsets i (- size_t (size_t (stride - 1) - i))) (calloc stride).

Definition tswHist (fl : Q -> Q) (input_norm : list Q) (input_len : Z)
    (n_bins win_len stride : Z)
    (histMat strided_windows_loci : list Z) (edges : list double)
    : list Z * list Z * list double :=
  (* Compute number of windows *)
  let num_windows := num_windows input_len win_len stride in
  (* Compute strided windows loci (1-based) *)
  let strided_windows_loci := fill_loci strided_windows_loci num_windows stride in
  (* Compute the edges for the histogram bins *)
  let edges := fill_edges fl edges n_bins in
  (* Normalize input to integer bins *)
  let input_int := fill_input_int fl input_norm input_len n_bins in
  (* Compute histogram for the first window *)
  let bufferHist := calloc n_bins in
  let bufferHist := pushHist bufferHist input_int win_len n_bins in
  let histMat :=
    for_range 0 n_bins (fun b histMat => wr histMat b (rd bufferHist b)) histMat in
  (* Prepare offsets for pop/push *)
  let offsets := fill_offsets stride in
  (* Sliding window *)
  let 'Buffers histMat _ _ strided_windows_loci _ :=
    tswHistSlidingWindow histMat bufferHist input_int strided_windows_loci
      num_windows win_len n_bins stride offsets input_len in
  (histMat, strided_windows_loci, edges).

End tswHist_h.

(** ** tswHist_mx.h *)
Module tswHist_mx_h.

Definition pushHist (hist_vec input_int : list Z) (len n_bins : Z) : list Z :=
  foldl (fun hist_vec d =>
           let bin := int_of_double d in
           if (0 <=? bin) && (bin <? int_of_size_t n_bins)
           then alter (fun c => c + 1) (Z.to_nat bin) hist_vec
           else hist_vec)
        hist_vec (take (Z.to_nat len) input_int).

Definition popHist (hist_vec input_int : list Z) (len n_bins : Z) : list Z :=
  foldl (fun hist_vec d =>
           let bin := int_of_double d in
           if (0 <=? bin) && (bin <? int_of_size_t n_bins)
           then alter (fun c => c - 1) (Z.to_nat bin) hist_vec
           else hist_vec)
        hist_vec (take (Z.to_nat len) input_int).

Definition tswHistSlidingWindow := sliding_window pushHist popHist.

End tswHist_mx_h.

(** ** The MEX boundary

    [mex.h] belongs to the host.  A gateway either returns its outputs or
    leaves through [mexErrMsgIdAndTxt], which does not return; the matrices
    it has asked the host for so far are recorded in a trace. *)

Inductive mex_error : Type :=
  | invalidNumInputs
  | inputNotReal
  | badBins
  | strideWin.

Inductive mex_event : Type :=
  | CreateDoubleMatrix (m n : Z).

Definition mex (A : Type) : Type :=
  list mex_event -> list mex_event * (mex_error + A).

Global Instance mex_ret : MRet mex := fun A a t => (t, inr a).
Global Instance mex_bind : MBind mex := fun A B f m t =>
  match m t with
  | (t', inl e) => (t', inl e)
  | (t', inr a) => f a t'
  end.

Definition mexErrMsgIdAndTxt {A : Type} (e : mex_error) : mex A :=
  fun t => (t, inl e).

(** [mxCreateDoubleMatrix(m, n, mxREAL)]: an [m] by [n] matrix of zeros. *)
Definition mxCreateDoubleMatrix {A : Type} (zero : A) (m n : Z) : mex (list A) :=
  fun t => (t ++ [CreateDoubleMatrix m n], inr (replicate (Z.to_nat (m * n)) zero)).

(** [if (cond) mexErrMsgIdAndTxt(e, ...);] *)
Definition reject_if (cond : bool) (e : mex_error) : mex unit :=
  if cond then mexErrMsgIdAndTxt e else mret tt.

(** A call of a gateway.  The scalars are the values [mxGetScalar] returns
    for [prhs[1]], [prhs[2]] and [prhs[3]], integer-valued doubles of either
    sign; [stride_arg] is read only when [nrhs >= 4]. *)
Record mex_call : Type := MexCall {
  nrhs : Z;
  input_is_real_double : bool;
  input : list Q;
  n_bins_arg : Z;
  win_len_arg : Z;
  stride_arg : Z
}.

(** [plhs[0]], [plhs[1]] and [plhs[2]]. *)
Record mex_outputs : Type := MexOutputs {
  out_histMat : list Z;
  out_strided_windows_loci : list Z;
  out_edges : list double
}.

Definition run {A : Type} (m : mex A) : list mex_event * (mex_error + A) := m [].

(** ** tswHist_mx_c.c *)
Module tswHist_mx_c.

Definition mexFunction (fl : Q -> Q) (c : mex_call) : mex mex_outputs :=
  (* Argument parsing and validation *)
  _ ← reject_if ((nrhs c <? 3) || (nrhs c >? 4)) invalidNumInputs;
  let n_bins := size_t_of_double (n_bins_arg c) in
  let win_len := size_t_of_double (win_len_arg c) in
  let stride := if nrhs c >=? 4 then size_t_of_double (stride_arg c) else 1 in
  _ ← reject_if (negb (input_is_real_double c)) inputNotReal;
  let input_len := Z.of_nat (length (input c)) in
  _ ← reject_if (n_bins <=? 2) badBins;
  _ ← reject_if (stride >=? win_len) strideWin;
  (* Compute number of windows *)
  let num_windows := num_windows input_len win_len stride in
  (* Allocate outputs *)
  histMat ← mxCreateDoubleMatrix 0 n_bins num_windows;
  strided_windows_loci ← mxCreateDoubleMatrix 0 1 num_windows;
  edges ← mxCreateDoubleMatrix (Finite 0%Q) 1 (size_t (n_bins + 1));
  (* Call pure C implementation *)
  let '(histMat, strided_windows_loci, edges) :=
    tswHist_h.tswHist fl (input c) input_len n_bins win_len stride
      histMat strided_windows_loci edges in
  mret (MexOutputs histMat strided_windows_loci edges).

End tswHist_mx_c.

(** ** tswHist_mx.c *)
Module tswHist_mx.
Import tswHist_mx_h.

(** The scan for the smallest and the largest sample. *)
Definition min_max (input : list Q) (input_len : Z) : Q * Q :=
  for_range 1 input_len (fun i '(min_val, max_val) =>
    let min_val :=
      if negb (Qle_bool min_val (rd input i)) then rd input i else min_val in
    let max_val :=
      if negb (Qle_bool (rd input i) max_val) then rd input i else max_val in
    (min_val, max_val)) (rd input 0, rd input 0).

(** [(input[i] - min_val) / (max_val - min_val)] *)
Definition normalize (fl : Q -> Q) (min_val max_val value : Q) : double :=
  fdiv fl (fsub fl value min_val) (fsub fl max_val min_val).

Definition mexFunction (fl : Q -> Q) (c : mex_call) : mex mex_outputs :=
  (* Argument parsing and validation *)
  _ ← reject_if ((nrhs c <? 3) || (nrhs c >? 4)) invalidNumInputs;
  let n_bins := size_t_of_double (n_bins_arg c) in
  let win_len := size_t_of_double (win_len_arg c) in
  (* Optional stride, set to 1 if not provided *)
  let stride := if nrhs c >=? 4 then size_t_of_double (stride_arg c) else 1 in
  _ ← reject_if (negb (input_is_real_double c)) inputNotReal;
  let input_len := Z.of_nat (length (input c)) in
  let input := input c in
  _ ← reject_if (n_bins <=? 2) badBins;
  _ ← reject_if (stride >=? win_len) strideWin;
  (* Compute strided windows loci *)
  let num_windows := num_windows input_len win_len stride in
  strided_windows_loci ← mxCreateDoubleMatrix 0 1 num_windows;
  let strided_windows_loci :=
    for_range 0 num_windows (fun i loci =>
      wr loci i (size_t (1 + size_t (i * stride)))) strided_windows_loci in
  (* Compute histogram bin edges *)
  let '(min_val, max_val) := min_max input input_len in
  edges ← mxCreateDoubleMatrix (Finite 0%Q) 1 (size_t (n_bins + 1));
  let edges :=
    for_range 0 (n_bins + 1) (fun i edges =>
      wr edges i
        (fadd fl min_val
           (fmul fl (fsub fl max_val min_val)
              (fdiv fl (Finite (inject_Z i)) (Finite (inject_Z n_bins))))))
      edges in
  (* Normalize input to integer bins *)
  let input_int :=
    for_range 0 input_len (fun i input_int =>
      let norm := normalize fl min_val max_val (rd input i) in
      let bin := binner fl norm n_bins in
      wr input_int i bin) (calloc input_len) in
  (* Output: histMat *)
  histMat ← mxCreateDoubleMatrix 0 n_bins num_windows;
  (* Compute histogram for the first window *)
  let bufferHist := calloc n_bins in
  let bufferHist := pushHist bufferHist input_int win_len n_bins in
  let histMat :=
    for_range 0 n_bins (fun b histMat => wr histMat b (rd bufferHist b)) histMat in
  (* Prepare offsets for pop/push *)
  let offsets :=
    for_range 0 stride (fun i offsets =>
      wr offsets i (- size_t (size_t (stride - 1) - i))) (calloc stride) in
  (* Sliding window *)
  let 'Buffers histMat _ _ strided_windows_loci _ :=
    tswHistSlidingWindow histMat bufferHist input_int strided_windows_loci
      num_windows win_len n_bins stride offsets input_len in
  mret (MexOutputs histMat strided_windows_loci edges).

End tswHist_mx.

(** ** hist_int_mx.c *)
Module hist_int_mx.
Import tswHist_mx_h.

Inductive error : Type :=
  | inputNotReal
  | binsNotScalar
  | invalidNumInputs.

(** A call of the gateway: the number of arguments, whether [prhs[0]] is a
    real double array and its integer-valued elements, whether [prhs[1]] is
    a real double array, how many elements it has, and the [mwSize] value
    read from it. *)
Record call : Type := Call {
  nrhs : Z;
  input_is_real_double : bool;
  input_int : list Z;
  n_bins_is_real_double : bool;
  n_bins_elements : Z;
  n_bins_arg : Z
}.

Definition mexFunction (c : call) : list mex_event * (error + list Z) :=
  if nrhs c =? 2 then
    if negb (input_is_real_double c) then ([], inl inputNotReal)
    else if negb (n_bins_is_real_double c) || negb (n_bins_elements c =? 1)
    then ([], inl binsNotScalar)
    else
      let n_bins := n_bins_arg c in
      let len := Z.of_nat (length (input_int c)) in
      (* array is initialized to zero by mxCreateDoubleMatrix *)
      let hist_vec := replicate (Z.to_nat (1 * n_bins)) 0 in
      ([CreateDoubleMatrix 1 n_bins],
       inr (pushHist hist_vec (input_int c) len n_bins))
  else ([], inl invalidNumInputs).

End hist_int_mx.

(** * Specification-side definitions *)

(** The binning formula as the specification words it:
    [index = floor(value * n_bins)]; if [index == n_bins], clamp to
    [n_bins - 1]. *)
Definition spec_bin (fl : Q -> Q) (value : Q) (n_bins : Z) : Z :=
  let index := Qfloor (fl (value * inject_Z n_bins)%Q) in
  if index =? n_bins then n_bins - 1 else index.

(** The histogram of the [win_len] positions from [start] on, counted from
    scratch: entry [b] is the number of positions whose bin is [b]. *)
Definition spec_histogram (fl : Q -> Q) (input : list Q)
    (n_bins start win_len : Z) : list Z :=
  (fun b =>
     Z.of_nat (length (filter (fun v => spec_bin fl v n_bins = b)
                         (take (Z.to_nat win_len) (drop (Z.to_nat start) input)))))
  <$> seqZ 0 n_bins.

(** Column [w] of a column-major matrix with [n_bins] rows. *)
Definition column (histMat : list Z) (n_bins w : Z) : list Z :=
  take (Z.to_nat n_bins) (drop (Z.to_nat (w * n_bins)) histMat).

Definition sumZ (l : list Z) : Z := foldr Z.add 0 l.

(** [histMat] is an [n_bins] by [num_windows] matrix held in memory. *)
Definition matrix_buffer (histMat : list Z) (n_bins num_windows : Z) : Prop :=
  0 <= n_bins /\ 0 <= num_windows /\
  Z.of_nat (length histMat) = n_bins * num_windows /\
  n_bins * num_windows < SIZE_MODULUS.

(** The configurations the specification calls valid, for an input of
    [input_len] samples. *)
Definition valid_config (input_len n_bins win_len stride : Z) : Prop :=
  2 < n_bins < SIZE_MODULUS /\
  0 < stride /\ stride < win_len /\ win_len <= input_len /\
  input_len < SIZE_MODULUS.

(** A gateway call is rejected when it leaves through [mexErrMsgIdAndTxt]
    before it has asked for any matrix. *)
Definition rejected {A : Type} (r : list mex_event * (mex_error + A)) : Prop :=
  exists e, r = ([], inl e).

(** * The effect of the update loop, in closed form *)

(** The guards of [pushHist] and [popHist] in [tswHist.h]. *)
Definition push_guard (n_bins bin : Z) : bool :=
  (0 <=? bin) && (bin <? n_bins).
Definition pop_guard (n_bins bin : Z) : bool :=
  (0 <=? bin) && (bin <? int_of_size_t n_bins).

(** A guarded batch of additions of [delta]. *)
Definition bump (delta : Z) (guard : Z -> bool) (hist_vec data : list Z) : list Z :=
  foldl (fun hist_vec d =>
           let bin := int_of_double d in
           if guard bin
           then alter (fun c => c + delta) (Z.to_nat bin) hist_vec
           else hist_vec)
        hist_vec data.

(** [tally guard data k]: how many elements of [data] pass [guard] and
    address entry [k]. *)
Definition hit (guard : Z -> bool) (k : nat) (d : Z) : Z :=
  let bin := int_of_double d in
  if guard bin && bool_decide (Z.to_nat bin = k) then 1 else 0.
Definition tally (guard : Z -> bool) (data : list Z) (k : nat) : Z :=
  sumZ (hit guard k <$> data).

(** How many elements of [data] pass [guard]. *)
Definition passing (guard : Z -> bool) (data : list Z) : Z :=
  sumZ ((fun d => if guard (int_of_double d) then 1 else 0) <$> data).

(** Entry [k] of the accumulator once window [w] has been reached: the seed
    of window 0, then for each transition what the pushes added and the pops
    removed. *)
Fixpoint engine_tally (n_bins : Z) (input_int : list Z) (win_len stride : Z)
    (w k : nat) : Z :=
  match w with
  | O => tally (push_guard n_bins) (take (Z.to_nat win_len) input_int) k
  | Datatypes.S w' =>
      engine_tally n_bins input_int win_len stride w' k
      - tally (pop_guard n_bins)
          (take (Z.to_nat stride)
             (drop (Z.to_nat (Z.of_nat w' * stride)) input_int)) k
      + tally (push_guard n_bins)
          (take (Z.to_nat stride)
             (drop (Z.to_nat (Z.of_nat w' * stride + win_len)) input_int)) k
  end.

(** The sum of the accumulator once window [w] has been reached. *)
Fixpoint engine_total (n_bins : Z) (input_int : list Z) (win_len stride : Z)
    (w : nat) : Z :=
  match w with
  | O => passing (push_guard n_bins) (take (Z.to_nat win_len) input_int)
  | Datatypes.S w' =>
      engine_total n_bins input_int win_len stride w'
      - passing (pop_guard n_bins)
          (take (Z.to_nat stride)
             (drop (Z.to_nat (Z.of_nat w' * stride)) input_int))
      + passing (push_guard n_bins)
          (take (Z.to_nat stride)
             (drop (Z.to_nat (Z.of_nat w' * stride + win_len)) input_int))
  end.

(** The binned sequence [tswHist] derives from its input. *)
Definition binned (fl : Q -> Q) (input : list Q) (n_bins : Z) : list Z :=
  (fun v => binner fl (Finite v) n_bins) <$> input.

(** The sum of [f 0 .. f (n-1)]. *)
Definition sum_upto (f : nat -> Z) (n : nat) : Z := sumZ (f <$> seq 0 n).

(** What the development asks of the rounding of a floating-point result:
    it is monotone, and integers of magnitude up to 2^53 are exact. *)
Definition faithful_rounding (fl : Q -> Q) : Prop :=
  (forall x y : Q, (x <= y)%Q -> (fl x <= fl y)%Q) /\
  (forall z : Z, Z.abs z <= 2 ^ 53 -> (fl (inject_Z z) == inject_Z z)%Q).

(** The [mwSize] values a gateway holds once it has read its scalars:
    [n_bins], [win_len] and [stride], which is 1 when only three arguments
    are given. *)
Definition n_bins_of (c : mex_call) : Z := size_t_of_double (n_bins_arg c).
Definition win_len_of (c : mex_call) : Z := size_t_of_double (win_len_arg c).
Definition stride_of (c : mex_call) : Z :=
  if nrhs c >=? 4 then size_t_of_double (stride_arg c) else 1.

(** The scalars of a call lie where the conversion of a double to [mwSize]
    is the wrap modulo 2^64 that [size_t_of_double] computes: from -2^63 up
    to, but not including, 2^64 (the conversion of a value outside [mwSize]
    is not defined by C; this is what the x86-64 compilers emit). *)
Definition convertible (d : Z) : Prop := - 2 ^ 63 <= d < SIZE_MODULUS.
Definition scalars_convertible (c : mex_call) : Prop :=
  convertible (n_bins_arg c) /\ convertible (win_len_arg c) /\
  (4 <= nrhs c -> convertible (stride_arg c)).

(** The first test of a gateway that a call fails, if any; both gateways
    make the same four tests in the same order, on the converted scalars. *)
Definition first_failed_check (c : mex_call) : option mex_error :=
  if (nrhs c <? 3) || (nrhs c >? 4) then Some invalidNumInputs
  else if negb (input_is_real_double c) then Some inputNotReal
  else if n_bins_of c <=? 2 then Some badBins
  else if stride_of c >=? win_len_of c then Some strideWin
  else None.

(** The histogram of the [win_len] bin indices from [start] on, counted
    from scratch: entry [b] is the number of positions holding [b]. *)
Definition count_histogram (bins : list Z) (n_bins start win_len : Z) : list Z :=
  (fun b =>
     Z.of_nat (length (filter (fun d => d = b)
                         (take (Z.to_nat win_len) (drop (Z.to_nat start) bins)))))
  <$> seqZ 0 n_bins.

(** The window loci as the caller receives them: 1-based, [stride] apart. *)
Definition loci_progression (num_windows stride : Z) : list Z :=
  (fun w => w * stride + 1) <$> seqZ 0 num_windows.

(** The binned sequence of the range-normalising gateway. *)
Definition binned_mx (fl : Q -> Q) (input : list Q) (n_bins : Z) : list Z :=
  let '(min_val, max_val) :=
    tswHist_mx.min_max input (Z.of_nat (length input)) in
  (fun v => binner fl (tswHist_mx.normalize fl min_val max_val v) n_bins)
  <$> input.

(** Edge [i] as [tswHist] computes it: [1.0 * ((double)i / n_bins)]. *)
Definition unit_edge (fl : Q -> Q) (n_bins i : Z) : Q :=
  fl (fl (inject_Z i / inject_Z n_bins) * 1)%Q.


(** Edge [i] of the range-normalising gateway:
    [min_val + (max_val - min_val) * ((double)i / n_bins)]. *)
Definition range_edge (fl : Q -> Q) (min_val max_val : Q) (n_bins i : Z)
    : double :=
  fadd fl min_val
    (fmul fl (fsub fl max_val min_val)
       (fdiv fl (Finite (inject_Z i)) (Finite (inject_Z n_bins)))).

(** * Properties *)

(** The scenario of the specification: eight samples, four bins, windows of
    four samples every two samples. *)
Example scenario :
  let input :=
    [0; 1 # 10; 1 # 4; 4 # 10; 55 # 100; 7 # 10; 85 # 100; 95 # 100]%Q in
  binned (fun q => q) input 4 = [0; 0; 1; 1; 2; 2; 3; 3] /\
  num_windows 8 4 2 = 3 /\
  (tswHist_h.tswHist (fun q => q) input 8 4 4 2 (replicate 12 0)
     (replicate 3 0) (replicate 5 (Finite 0%Q))).1
  = ([2; 2; 0; 0;  0; 2; 2; 0;  0; 0; 2; 2], [1; 3; 5]).
Proof. repeat split. Qed.

(** A value of exactly 1 goes to the last bin. *)
Example scenario_top_boundary : binner (fun q => q) (Finite 1) 4 = 3.
Proof. reflexivity. Qed.

(** A stride equal to the window length is rejected by both gateways. *)
Example scenario_stride_equals_window :
  let c := MexCall 4 true [0; 1 # 10; 1 # 4; 4 # 10]%Q 4 4 4 in
  run (tswHist_mx_c.mexFunction (fun q => q) c) = ([], inl strideWin) /\
  run (tswHist_mx.mexFunction (fun q => q) c) = ([], inl strideWin).
Proof. split; reflexivity. Qed.

(** ** Integer conversions *)

Lemma size_t_small z : 0 <= z < SIZE_MODULUS -> size_t z = z.
Proof. intros. unfold size_t. by rewrite Z.mod_small. Qed.


Lemma size_t_of_double_small z : 0 <= z < SIZE_MODULUS -> size_t_of_double z = z.
Proof. apply size_t_small. Qed.

Lemma size_t_spec z : exists k, size_t z = z + k * SIZE_MODULUS.
Proof.
  exists (- (z / SIZE_MODULUS)). unfold size_t.
  pose proof (Z.div_mod z SIZE_MODULUS ltac:(done)). lia.
Qed.

Lemma size_t_unique z r k :
  0 <= r < SIZE_MODULUS -> z = r + k * SIZE_MODULUS -> size_t z = r.
Proof.
  intros Hr ->. unfold size_t. rewrite Z_mod_plus_full. by apply Z.mod_small.
Qed.

Lemma int_of_size_t_small n : 0 <= n <= INT_MAX -> int_of_size_t n = n.
Proof.
  intros. unfold int_of_size_t, INT_MIN, INT_MAX, INT_MODULUS in *.
  rewrite Z.mod_small; lia.
Qed.

Lemma int_of_size_t_range n : INT_MIN <= int_of_size_t n <= INT_MAX.
Proof.
  unfold int_of_size_t, INT_MIN, INT_MAX, INT_MODULUS.
  pose proof (Z.mod_pos_bound (n - -2147483648) 4294967296). lia.
Qed.

Lemma int_of_size_t_le n : 0 <= n -> int_of_size_t n <= n.
Proof.
  intros. unfold int_of_size_t, INT_MIN, INT_MODULUS.
  pose proof (Z.mod_le (n - -2147483648) 4294967296). lia.
Qed.

Lemma int_of_double_range d : INT_MIN <= int_of_double d <= INT_MAX.
Proof.
  unfold int_of_double, INT_MIN, INT_MAX.
  destruct (_ && _) eqn:E; [|lia].
  apply andb_prop in E as [?%Z.leb_le ?%Z.leb_le]. lia.
Qed.

Lemma int_of_double_small d : INT_MIN <= d <= INT_MAX -> int_of_double d = d.
Proof.
  intros [H1 H2]. unfold int_of_double.
  apply Z.leb_le in H1, H2. by rewrite H1, H2.
Qed.

(** ** Loops *)

Lemma for_range_nil {S : Type} lo hi (body : Z -> S -> S) s :
  hi <= lo -> for_range lo hi body s = s.
Proof. intros. unfold for_range. by rewrite seqZ_nil by lia. Qed.

Lemma for_range_snoc {S : Type} lo hi (body : Z -> S -> S) s :
  lo <= hi ->
  for_range lo (hi + 1) body s = body hi (for_range lo hi body s).
Proof.
  intros. unfold for_range.
  replace (hi + 1 - lo) with (Z.of_nat (Datatypes.S (Z.to_nat (hi - lo)))) by lia.
  rewrite seqZ_S, foldl_app. simpl.
  replace (Z.of_nat (Z.to_nat (hi - lo))) with (hi - lo) by lia.
  by replace (lo + (hi - lo)) with hi by lia.
Qed.

(** Loop invariants: [P i s] holds when the loop variable is [i]. *)
Lemma for_range_ind {S : Type} (P : Z -> S -> Prop) lo hi
    (body : Z -> S -> S) s :
  lo <= hi ->
  P lo s ->
  (forall i s, lo <= i < hi -> P i s -> P (i + 1) (body i s)) ->
  P hi (for_range lo hi body s).
Proof.
  intros Hle H0 Hstep.
  replace hi with (lo + Z.of_nat (Z.to_nat (hi - lo))) by lia.
  assert (Hn : Z.of_nat (Z.to_nat (hi - lo)) <= hi - lo) by lia.
  revert Hn. generalize (Z.to_nat (hi - lo)) as n.
  induction n as [|n IH]; intros Hn.
  - rewrite for_range_nil by lia. by rewrite Z.add_0_r.
  - replace (lo + Z.of_nat (Datatypes.S n)) with (lo + Z.of_nat n + 1) by lia.
    rewrite for_range_snoc by lia. apply Hstep; [lia|]. apply IH. lia.
Qed.

Lemma for_range_ext {S : Type} lo hi (body body' : Z -> S -> S) s :
  (forall i s, lo <= i < hi -> body i s = body' i s) ->
  for_range lo hi body s = for_range lo hi body' s.
Proof.
  intros Hext. destruct (decide (lo <= hi)) as [Hle|Hgt].
  - apply (for_range_ind
             (fun i s' => for_range lo i body s = s') lo hi body' s Hle).
    + by rewrite for_range_nil.
    + intros i s' Hi <-. rewrite for_range_snoc by lia. by apply Hext.
  - by rewrite !for_range_nil by lia.
Qed.

(** A loop that stores [f i] at [off + i]. *)
Lemma for_range_fill {A : Type} (f : Z -> A) off lo hi (a : list A) :
  0 <= off -> 0 <= lo <= hi ->
  let a' := for_range lo hi (fun i a => wr a (off + i) (f i)) a in
  length a' = length a /\
  (forall i, lo <= i < hi -> off + i < Z.of_nat (length a) ->
     a' !! Z.to_nat (off + i) = Some (f i)) /\
  (forall k : nat, ~ (off + lo <= Z.of_nat k < off + hi) -> a' !! k = a !! k).
Proof.
  intros Hoff [Hlo Hle].
  apply (for_range_ind (fun h a' =>
    length a' = length a /\
    (forall i, lo <= i < h -> off + i < Z.of_nat (length a) ->
       a' !! Z.to_nat (off + i) = Some (f i)) /\
    (forall k : nat, ~ (off + lo <= Z.of_nat k < off + h) -> a' !! k = a !! k))
    lo hi _ a Hle).
  - split; [done|]. split; [intros; lia|done].
  - intros i a' Hi (Hlen & Hin & Hout). unfold wr.
    split; [by rewrite length_insert|]. split.
    + intros i' Hi' Hlt. destruct (decide (i' = i)) as [->|Hne].
      * apply list_lookup_insert_eq. lia.
      * rewrite list_lookup_insert_ne by lia. apply Hin; lia.
    + intros k Hk. rewrite list_lookup_insert_ne by lia. apply Hout. lia.
Qed.

(** ** The accumulator *)

Lemma pushHist_bump hist_vec p len n_bins :
  tswHist_h.pushHist hist_vec p len n_bins
  = bump 1 (push_guard n_bins) hist_vec (take (Z.to_nat len) p).
Proof. reflexivity. Qed.

Lemma popHist_bump hist_vec p len n_bins :
  tswHist_h.popHist hist_vec p len n_bins
  = bump (-1) (pop_guard n_bins) hist_vec (take (Z.to_nat len) p).
Proof. reflexivity. Qed.

Lemma pushHist_mx_bump hist_vec p len n_bins :
  tswHist_mx_h.pushHist hist_vec p len n_bins
  = bump 1 (pop_guard n_bins) hist_vec (take (Z.to_nat len) p).
Proof. reflexivity. Qed.

Lemma popHist_mx_bump hist_vec p len n_bins :
  tswHist_mx_h.popHist hist_vec p len n_bins
  = bump (-1) (pop_guard n_bins) hist_vec (take (Z.to_nat len) p).
Proof. reflexivity. Qed.

Lemma sumZ_app l1 l2 : sumZ (l1 ++ l2) = sumZ l1 + sumZ l2.
Proof. induction l1 as [|x l1 IH]; simpl; lia. Qed.

Lemma tally_nil guard k : tally guard [] k = 0.
Proof. reflexivity. Qed.

Lemma tally_cons guard d data k :
  tally guard (d :: data) k = hit guard k d + tally guard data k.
Proof. reflexivity. Qed.

Lemma tally_app guard data1 data2 k :
  tally guard (data1 ++ data2) k = tally guard data1 k + tally guard data2 k.
Proof. unfold tally. by rewrite fmap_app, sumZ_app. Qed.

Lemma passing_app guard data1 data2 :
  passing guard (data1 ++ data2) = passing guard data1 + passing guard data2.
Proof. unfold passing. by rewrite fmap_app, sumZ_app. Qed.

Lemma bump_app delta guard hist_vec data1 data2 :
  bump delta guard hist_vec (data1 ++ data2)
  = bump delta guard (bump delta guard hist_vec data1) data2.
Proof. unfold bump. by rewrite foldl_app. Qed.

Lemma length_bump delta guard hist_vec data :
  length (bump delta guard hist_vec data) = length hist_vec.
Proof.
  revert hist_vec. induction data as [|d data IH]; intros hist_vec; [done|].
  simpl. rewrite IH. destruct (guard _); [|done]. by rewrite length_alter.
Qed.

(** Entry [k] after a batch: its old value plus [delta] for each hit. *)
Lemma bump_lookup delta guard hist_vec data k :
  bump delta guard hist_vec data !! k
  = (fun c => c + delta * tally guard data k) <$> hist_vec !! k.
Proof.
  revert hist_vec. induction data as [|d data IH]; intros hist_vec.
  - simpl. rewrite tally_nil.
    destruct (hist_vec !! k); simpl; [f_equal; ring|done].
  - simpl. rewrite IH, tally_cons. unfold hit.
    destruct (guard (int_of_double d)) eqn:Hg; simpl.
    + case_bool_decide as Hk.
      * subst k. rewrite list_lookup_alter_eq.
        destruct (hist_vec !! _); simpl; [f_equal; ring|done].
      * rewrite list_lookup_alter_ne by done.
        destruct (hist_vec !! k); simpl; [f_equal; ring|done].
    + destruct (hist_vec !! k); simpl; [f_equal; ring|done].
Qed.

(** ** The window scheduler *)

Lemma num_windows_floor input_len win_len stride :
  0 < stride -> stride < win_len -> win_len <= input_len ->
  input_len < SIZE_MODULUS ->
  num_windows input_len win_len stride = (input_len - win_len) / stride + 1.
Proof.
  intros Hs Hsl Hl Hn.
  assert (Hdiv : 0 <= (input_len - win_len) / stride <= input_len - win_len).
  { split; [apply Z.div_pos; lia|]. apply Z.div_le_upper_bound; nia. }
  unfold num_windows. rewrite (size_t_small (input_len - win_len)) by lia.
  apply size_t_small. lia.
Qed.

(** The last window still fits the input and one more would not. *)
Lemma num_windows_bounds input_len win_len stride :
  0 < stride -> stride < win_len -> win_len <= input_len ->
  input_len < SIZE_MODULUS ->
  (num_windows input_len win_len stride - 1) * stride <= input_len - win_len /\
  input_len - win_len < num_windows input_len win_len stride * stride.
Proof.
  intros Hs Hsl Hl Hn. rewrite num_windows_floor by done.
  pose proof (Z.div_mod (input_len - win_len) stride ltac:(lia)) as Hdm.
  pose proof (Z.mod_pos_bound (input_len - win_len) stride Hs) as Hmod.
  split; nia.
Qed.

(** C4.  For [0 < stride < win_len <= input_len] the engine's unsigned
    computation of the number of windows is exactly
    [floor((input_len - win_len) / stride) + 1]: the last window still fits,
    one more would not, and when [input_len - win_len] is a multiple of
    [stride] the last window ends at the last sample. *)
Theorem num_windows_exact input_len win_len stride :
  0 < stride -> stride < win_len -> win_len <= input_len ->
  input_len < SIZE_MODULUS ->
  num_windows input_len win_len stride = (input_len - win_len) / stride + 1 /\
  (num_windows input_len win_len stride - 1) * stride <= input_len - win_len /\
  input_len - win_len < num_windows input_len win_len stride * stride /\
  ((input_len - win_len) mod stride = 0 ->
   (num_windows input_len win_len stride - 1) * stride = input_len - win_len).
Proof.
  intros Hs Hsl Hl Hn.
  destruct (num_windows_bounds _ _ _ Hs Hsl Hl Hn) as [Hlast Hnext].
  split; [by apply num_windows_floor|]. split; [done|]. split; [done|].
  intros Hmul. rewrite num_windows_floor by done.
  pose proof (Z.div_mod (input_len - win_len) stride ltac:(lia)) as Hdm.
  nia.
Qed.

Lemma num_windows_exact_witness :
  num_windows 8 4 2 = (8 - 4) / 2 + 1 /\
  (num_windows 8 4 2 - 1) * 2 <= 8 - 4 /\
  8 - 4 < num_windows 8 4 2 * 2 /\
  ((8 - 4) mod 2 = 0 -> (num_windows 8 4 2 - 1) * 2 = 8 - 4).
Proof. apply (num_windows_exact 8 4 2); unfold SIZE_MODULUS; lia. Defined.

Lemma num_windows_pos input_len n_bins win_len stride :
  valid_config input_len n_bins win_len stride ->
  1 <= num_windows input_len win_len stride <= input_len.
Proof.
  intros (_ & Hs & Hsl & Hl & Hn).
  rewrite num_windows_floor by done.
  assert (0 <= (input_len - win_len) / stride <= input_len - win_len).
  { split; [apply Z.div_pos; lia|]. apply Z.div_le_upper_bound; nia. }
  lia.
Qed.

(** Every window lies inside the input. *)
Lemma window_in_range input_len n_bins win_len stride w :
  valid_config input_len n_bins win_len stride ->
  0 <= w < num_windows input_len win_len stride ->
  w * stride + win_len <= input_len.
Proof.
  intros (_ & Hs & Hsl & Hl & Hn) Hw.
  destruct (num_windows_bounds _ _ _ Hs Hsl Hl Hn) as (Hlast & _). nia.
Qed.

Lemma rd_lookup {A : Type} `{Inhabited A} (p : list A) i v :
  p !! Z.to_nat i = Some v -> rd p i = v.
Proof. unfold rd. apply list_lookup_total_correct. Qed.

Lemma for_range_fill0 {A : Type} (f : Z -> A) hi (a : list A) :
  0 <= hi ->
  let a' := for_range 0 hi (fun i a => wr a i (f i)) a in
  length a' = length a /\
  (forall i, 0 <= i < hi -> i < Z.of_nat (length a) ->
     a' !! Z.to_nat i = Some (f i)) /\
  (forall k : nat, hi <= Z.of_nat k -> a' !! k = a !! k).
Proof.
  intros Hhi. destruct (for_range_fill f 0 0 hi a) as (Hlen & Hin & Hout);
    [lia|lia|]. simpl in *.
  split; [done|]. split.
  - intros i Hi Hlt. apply (Hin i Hi). lia.
  - intros k Hk. apply Hout. lia.
Qed.

Lemma fill_loci_lookup buf input_len n_bins win_len stride w :
  valid_config input_len n_bins win_len stride ->
  Z.of_nat (length buf) = num_windows input_len win_len stride ->
  0 <= w < num_windows input_len win_len stride ->
  rd (tswHist_h.fill_loci buf (num_windows input_len win_len stride) stride) w
  = w * stride + 1.
Proof.
  intros Hv Hlen Hw. pose proof (window_in_range _ _ _ _ w Hv Hw) as Hin.
  destruct Hv as (_ & Hs & Hsl & Hl & Hn).
  unfold tswHist_h.fill_loci.
  destruct (for_range_fill0 (fun i => size_t (size_t (i * stride) + 1))
              (num_windows input_len win_len stride) buf) as (_ & Hfill & _);
    [lia|].
  apply rd_lookup. rewrite Hfill by lia.
  rewrite (size_t_small (w * stride)) by nia.
  rewrite size_t_small by nia. done.
Qed.

Lemma length_fill_offsets stride :
  0 <= stride -> Z.of_nat (length (tswHist_h.fill_offsets stride)) = stride.
Proof.
  intros Hs. unfold tswHist_h.fill_offsets.
  destruct (for_range_fill0 (fun i => - size_t (size_t (stride - 1) - i))
              stride (calloc stride)) as (-> & _); [done|].
  unfold calloc. rewrite length_replicate. lia.
Qed.

Lemma fill_offsets_lookup stride j :
  0 < stride < SIZE_MODULUS -> 0 <= j < stride ->
  rd (tswHist_h.fill_offsets stride) j = - (stride - 1 - j).
Proof.
  intros Hs Hj. unfold tswHist_h.fill_offsets.
  destruct (for_range_fill0 (fun i => - size_t (size_t (stride - 1) - i))
              stride (calloc stride)) as (_ & Hfill & _); [lia|].
  apply rd_lookup. rewrite Hfill.
  - rewrite (size_t_small (stride - 1)) by lia. by rewrite size_t_small by lia.
  - done.
  - unfold calloc. rewrite length_replicate. lia.
Qed.

(** ** Departing and arriving positions *)

Section Positions.
Variables (input_len n_bins win_len stride : Z) (loci_buf : list Z).
Hypothesis Hvalid : valid_config input_len n_bins win_len stride.
Hypothesis Hloci :
  Z.of_nat (length loci_buf) = num_windows input_len win_len stride.

Let loci :=
  tswHist_h.fill_loci loci_buf (num_windows input_len win_len stride) stride.
Let offs := tswHist_h.fill_offsets stride.

Lemma pop_index_eq w j :
  1 <= w < num_windows input_len win_len stride -> 0 <= j < stride ->
  pop_index loci offs w j = (w - 1) * stride + j.
Proof.
  intros Hw Hj.
  pose proof (window_in_range _ _ _ _ w Hvalid ltac:(lia)) as Hin.
  pose proof Hvalid as (_ & Hs & Hsl & Hl & Hn).
  unfold pop_index, loci, offs.
  rewrite (fill_loci_lookup _ _ n_bins) by (done || lia).
  rewrite fill_offsets_lookup by lia.
  unfold size_t_of_double. fold (size_t (w * stride + 1)).
  fold (size_t (- (stride - 1 - j))).
  destruct (size_t_spec (w * stride + 1)) as [k1 ->].
  destruct (size_t_spec (- (stride - 1 - j))) as [k2 ->].
  destruct (size_t_spec (w * stride + 1 + k1 * SIZE_MODULUS - 2)) as [k3 ->].
  apply (size_t_unique _ _ (k1 + k2 + k3)); [nia|ring].
Qed.

Lemma push_index_eq w j :
  1 <= w < num_windows input_len win_len stride -> 0 <= j < stride ->
  push_index loci offs win_len w j = w * stride + win_len - stride + j.
Proof.
  intros Hw Hj.
  pose proof (window_in_range _ _ _ _ w Hvalid ltac:(lia)) as Hin.
  pose proof Hvalid as (_ & Hs & Hsl & Hl & Hn).
  unfold push_index, loci, offs.
  rewrite (fill_loci_lookup _ _ n_bins) by (done || lia).
  rewrite fill_offsets_lookup by lia.
  unfold size_t_of_double. fold (size_t (w * stride + 1)).
  fold (size_t (- (stride - 1 - j))).
  destruct (size_t_spec (w * stride + 1)) as [k1 ->].
  destruct (size_t_spec (- (stride - 1 - j))) as [k2 ->].
  destruct (size_t_spec (w * stride + 1 + k1 * SIZE_MODULUS + win_len))
    as [k3 ->].
  destruct (size_t_spec
              (w * stride + 1 + k1 * SIZE_MODULUS + win_len
               + k3 * SIZE_MODULUS - 2)) as [k4 ->].
  apply (size_t_unique _ _ (k1 + k2 + k3 + k4)); [nia|ring].
Qed.

Lemma pop_index_in_bounds w j :
  1 <= w < num_windows input_len win_len stride -> 0 <= j < stride ->
  0 <= pop_index loci offs w j < input_len.
Proof.
  intros Hw Hj. rewrite pop_index_eq by done.
  pose proof (window_in_range _ _ _ _ w Hvalid ltac:(lia)) as Hin.
  pose proof Hvalid as (_ & Hs & Hsl & Hl & Hn). nia.
Qed.

Lemma push_index_in_bounds w j :
  1 <= w < num_windows input_len win_len stride -> 0 <= j < stride ->
  0 <= push_index loci offs win_len w j < input_len.
Proof.
  intros Hw Hj. rewrite push_index_eq by done.
  pose proof (window_in_range _ _ _ _ w Hvalid ltac:(lia)) as Hin.
  pose proof Hvalid as (_ & Hs & Hsl & Hl & Hn). nia.
Qed.
End Positions.

(** C3.  In every valid configuration, for every transition [w] and every
    [j < stride], the departing position is [(w-1)*stride + j] and the
    arriving position is [w*stride + win_len - stride + j]; both lie in
    [0, input_len), so the test [idx < input_len] of the sliding loop
    succeeds and nothing is skipped. *)
Theorem sliding_positions_in_bounds input_len n_bins win_len stride buf w j :
  valid_config input_len n_bins win_len stride ->
  Z.of_nat (length buf) = num_windows input_len win_len stride ->
  1 <= w < num_windows input_len win_len stride ->
  0 <= j < stride ->
  let loci :=
    tswHist_h.fill_loci buf (num_windows input_len win_len stride) stride in
  let offs := tswHist_h.fill_offsets stride in
  pop_index loci offs w j = (w - 1) * stride + j /\
  push_index loci offs win_len w j = w * stride + win_len - stride + j /\
  0 <= pop_index loci offs w j < input_len /\
  0 <= push_index loci offs win_len w j < input_len /\
  (pop_index loci offs w j <? input_len) = true /\
  (push_index loci offs win_len w j <? input_len) = true.
Proof.
  intros Hv Hlen Hw Hj loci offs.
  pose proof (pop_index_in_bounds _ _ _ _ _ Hv Hlen w j Hw Hj) as Hpop.
  pose proof (push_index_in_bounds _ _ _ _ _ Hv Hlen w j Hw Hj) as Hpush.
  split; [by apply (pop_index_eq _ n_bins)|].
  split; [by apply (push_index_eq _ n_bins)|].
  split; [done|]. split; [done|].
  split; apply Z.ltb_lt; [apply Hpop|apply Hpush].
Qed.

(** ** One transition of the sliding loop *)

(** Applying a batch one element at a time over consecutive positions is
    the batch over the whole run. *)
Lemma for_range_bump delta guard (data : list Z) base count hist_vec :
  0 <= base -> 0 <= count ->
  for_range 0 count (fun j hist_vec =>
    bump delta guard hist_vec (take (Z.to_nat 1) (ptr_add data (base + j))))
    hist_vec
  = bump delta guard hist_vec
      (take (Z.to_nat count) (drop (Z.to_nat base) data)).
Proof.
  intros Hb Hc.
  apply (for_range_ind (fun j h =>
    h = bump delta guard hist_vec (take (Z.to_nat j) (drop (Z.to_nat base) data)))
    0 count _ hist_vec Hc); [done|].
  intros j h Hj ->. rewrite <-bump_app. f_equal. unfold ptr_add.
  replace (Z.to_nat (j + 1)) with (Z.to_nat j + Z.to_nat 1)%nat by lia.
  rewrite <-take_take_drop, drop_drop. do 3 f_equal. lia.
Qed.

Lemma store_column_spec histMat bufferHist w n_bins :
  0 <= n_bins -> 0 <= w -> (w + 1) * n_bins <= SIZE_MODULUS ->
  let histMat' := store_column histMat bufferHist w n_bins in
  length histMat' = length histMat /\
  (forall b, 0 <= b < n_bins -> w * n_bins + b < Z.of_nat (length histMat) ->
     histMat' !! Z.to_nat (w * n_bins + b) = Some (rd bufferHist b)) /\
  (forall k : nat,
     ~ (w * n_bins <= Z.of_nat k < w * n_bins + n_bins) ->
     histMat' !! k = histMat !! k).
Proof.
  intros Hn Hw Hfit. unfold store_column.
  rewrite (for_range_ext _ _ _
             (fun b histMat => wr histMat (w * n_bins + b) (rd bufferHist b))).
  - destruct (for_range_fill (fun b => rd bufferHist b) (w * n_bins) 0 n_bins
                histMat) as (Hlen & Hin & Hout); [nia|lia|].
    split; [done|]. split; [done|]. intros k Hk. apply Hout. lia.
  - intros b s Hb. f_equal.
    rewrite (size_t_small (w * n_bins)) by nia.
    rewrite size_t_small by nia. lia.
Qed.

Section Transition.
Variables (input_len n_bins win_len stride : Z).
Variables (loci_buf data : list Z).
Hypothesis Hvalid : valid_config input_len n_bins win_len stride.
Hypothesis Hloci :
  Z.of_nat (length loci_buf) = num_windows input_len win_len stride.

Let nw := num_windows input_len win_len stride.
Let loci := tswHist_h.fill_loci loci_buf nw stride.
Let offs := tswHist_h.fill_offsets stride.

Lemma pop_loop_bump w bufferHist :
  1 <= w < nw ->
  for_range 0 stride (fun j bufferHist =>
    let idx := pop_index loci offs w j in
    if idx <? input_len
    then tswHist_h.popHist bufferHist (ptr_add data idx) 1 n_bins
    else bufferHist) bufferHist
  = bump (-1) (pop_guard n_bins) bufferHist
      (take (Z.to_nat stride) (drop (Z.to_nat ((w - 1) * stride)) data)).
Proof.
  intros Hw. pose proof Hvalid as (_ & Hs & Hsl & Hl & Hn).
  rewrite <-for_range_bump by nia. apply for_range_ext. intros j h Hj.
  pose proof (pop_index_eq _ _ _ _ _ Hvalid Hloci w j Hw Hj) as Hpop.
  pose proof (pop_index_in_bounds _ _ _ _ _ Hvalid Hloci w j Hw Hj) as Hlt.
  fold nw loci offs in Hpop, Hlt. cbv beta zeta.
  replace (pop_index loci offs w j <? input_len) with true
    by (symmetry; apply Z.ltb_lt; lia).
  rewrite Hpop. apply popHist_bump.
Qed.

Lemma push_loop_bump w bufferHist :
  1 <= w < nw ->
  for_range 0 stride (fun j bufferHist =>
    let idx := push_index loci offs win_len w j in
    if idx <? input_len
    then tswHist_h.pushHist bufferHist (ptr_add data idx) 1 n_bins
    else bufferHist) bufferHist
  = bump 1 (push_guard n_bins) bufferHist
      (take (Z.to_nat stride)
         (drop (Z.to_nat ((w - 1) * stride + win_len)) data)).
Proof.
  intros Hw. pose proof Hvalid as (_ & Hs & Hsl & Hl & Hn).
  rewrite <-for_range_bump by nia. apply for_range_ext. intros j h Hj.
  pose proof (push_index_eq _ _ _ _ _ Hvalid Hloci w j Hw Hj) as Hpush.
  pose proof (push_index_in_bounds _ _ _ _ _ Hvalid Hloci w j Hw Hj) as Hlt.
  fold nw loci offs in Hpush, Hlt. cbv beta zeta.
  replace (push_index loci offs win_len w j <? input_len) with true
    by (symmetry; apply Z.ltb_lt; lia).
  rewrite Hpush, pushHist_bump. do 3 f_equal. ring.
Qed.

(** With every position in bounds, a transition pops the first [stride]
    elements of the previous window and pushes the [stride] elements that
    follow it. *)
Lemma sliding_step_bump w histMat bufferHist :
  1 <= w < nw ->
  sliding_step tswHist_h.pushHist tswHist_h.popHist data loci offs
    win_len n_bins stride input_len w (histMat, bufferHist)
  = let bufferHist' :=
      bump 1 (push_guard n_bins)
        (bump (-1) (pop_guard n_bins) bufferHist
           (take (Z.to_nat stride) (drop (Z.to_nat ((w - 1) * stride)) data)))
        (take (Z.to_nat stride)
           (drop (Z.to_nat ((w - 1) * stride + win_len)) data)) in
    (store_column histMat bufferHist' w n_bins, bufferHist').
Proof.
  intros Hw. unfold sliding_step. cbv zeta.
  by rewrite pop_loop_bump, push_loop_bump.
Qed.

(** The sliding loop as a whole: the accumulator follows [engine_tally]
    and column [w] of the matrix receives its state at window [w]. *)
Lemma sliding_loop_tally histMat0 bufferHist0 :
  matrix_buffer histMat0 n_bins nw ->
  (forall k : nat, Z.of_nat k < n_bins ->
     bufferHist0 !! k = Some (engine_tally n_bins data win_len stride 0 k)) ->
  (forall k : nat, Z.of_nat k < n_bins ->
     histMat0 !! k = Some (engine_tally n_bins data win_len stride 0 k)) ->
  let st := for_range 1 nw
              (sliding_step tswHist_h.pushHist tswHist_h.popHist data loci
                 offs win_len n_bins stride input_len)
              (histMat0, bufferHist0) in
  length st.1 = length histMat0 /\
  forall w (k : nat), 0 <= w < nw -> Z.of_nat k < n_bins ->
    st.1 !! Z.to_nat (w * n_bins + Z.of_nat k)
    = Some (engine_tally n_bins data win_len stride (Z.to_nat w) k).
Proof.
  intros (Hn0 & Hnw0 & Hlen & Hfit) HB0 HM0.
  pose proof (num_windows_pos _ _ _ _ Hvalid) as Hnw. fold nw in Hnw.
  pose (P := fun w (st : list Z * list Z) =>
    length st.1 = length histMat0 /\
    (forall k : nat, Z.of_nat k < n_bins ->
       st.2 !! k
       = Some (engine_tally n_bins data win_len stride (Z.to_nat (w - 1)) k)) /\
    (forall w' (k : nat), 0 <= w' < w -> Z.of_nat k < n_bins ->
       st.1 !! Z.to_nat (w' * n_bins + Z.of_nat k)
       = Some (engine_tally n_bins data win_len stride (Z.to_nat w') k))).
  assert (HP : P nw (for_range 1 nw
                (sliding_step tswHist_h.pushHist tswHist_h.popHist data loci
                   offs win_len n_bins stride input_len)
                (histMat0, bufferHist0))).
  { apply for_range_ind; [lia| |].
    - split; [done|]. split; [done|]. intros w' k Hw' Hk.
      replace w' with 0 by lia.
      replace (Z.to_nat (0 * n_bins + Z.of_nat k)) with k by lia.
      change (Z.to_nat 0) with 0%nat. by apply HM0.
    - intros w [M B] Hw (HlenM & HB & HM). simpl in HlenM, HB, HM.
      rewrite sliding_step_bump by done. cbv zeta.
      set (B' := bump 1 _ _ _).
      assert (HB' : forall k : nat, Z.of_nat k < n_bins ->
                B' !! k = Some (engine_tally n_bins data win_len stride
                                  (Z.to_nat w) k)).
      { intros k Hk. unfold B'. rewrite !bump_lookup, HB by done. simpl.
        replace (Z.to_nat w) with (Datatypes.S (Z.to_nat (w - 1))) by lia.
        simpl. rewrite Z2Nat.id by lia. f_equal. ring. }
      destruct (store_column_spec M B' w n_bins Hn0 ltac:(lia) ltac:(nia))
        as (HlenS & Hin & Hout).
      split; [simpl; congruence|]. split.
      + simpl. intros k Hk. replace (w + 1 - 1) with w by lia. by apply HB'.
      + simpl. intros w' k Hw' Hk. destruct (decide (w' = w)) as [->|Hne].
        * rewrite Hin by nia. f_equal. apply rd_lookup.
          rewrite Nat2Z.id. by apply HB'.
        * rewrite Hout by nia. apply HM; [lia|done]. }
  destruct HP as (HlenM & _ & HM). split; [done|]. exact HM.
Qed.
End Transition.

(** ** The engine as a whole *)

Lemma fill_input_int_binned fl input input_len n_bins :
  Z.of_nat (length input) = input_len ->
  tswHist_h.fill_input_int fl input input_len n_bins = binned fl input n_bins.
Proof.
  intros Hlen. unfold tswHist_h.fill_input_int.
  destruct (for_range_fill0
              (fun i => binner fl (Finite (rd input i)) n_bins)
              input_len (calloc input_len)) as (Hl & Hin & _); [lia|].
  assert (Hc : length (calloc input_len) = length input).
  { unfold calloc. rewrite length_replicate. lia. }
  apply list_eq. intros k. unfold binned. rewrite list_lookup_fmap.
  destruct (input !! k) as [v|] eqn:Hk.
  - pose proof (lookup_lt_Some _ _ _ Hk) as Hlt.
    specialize (Hin (Z.of_nat k) ltac:(lia) ltac:(lia)).
    rewrite Nat2Z.id in Hin. rewrite Hin. simpl. do 3 f_equal.
    apply rd_lookup. by rewrite Nat2Z.id.
  - apply lookup_ge_None. apply lookup_ge_None in Hk. lia.
Qed.

Lemma calloc_lookup n (k : nat) : Z.of_nat k < n -> calloc n !! k = Some 0.
Proof. intros. unfold calloc. apply lookup_replicate_2. lia. Qed.

(** Entry [k] of column [w] of the matrix [tswHist] fills. *)
Lemma tswHist_tally fl input input_len n_bins win_len stride
    histMat loci edges :
  valid_config input_len n_bins win_len stride ->
  Z.of_nat (length input) = input_len ->
  matrix_buffer histMat n_bins (num_windows input_len win_len stride) ->
  Z.of_nat (length loci) = num_windows input_len win_len stride ->
  let out := tswHist_h.tswHist fl input input_len n_bins win_len stride
               histMat loci edges in
  length out.1.1 = length histMat /\
  forall w (k : nat),
    0 <= w < num_windows input_len win_len stride -> Z.of_nat k < n_bins ->
    out.1.1 !! Z.to_nat (w * n_bins + Z.of_nat k)
    = Some (engine_tally n_bins (binned fl input n_bins) win_len stride
              (Z.to_nat w) k).
Proof.
  intros Hv Hlen Hmat Hloci out.
  pose proof Hmat as (Hn0 & Hnw0 & HlenM & Hfit).
  pose proof (num_windows_pos _ _ _ _ Hv) as Hnw.
  set (data := binned fl input n_bins).
  set (B0 := tswHist_h.pushHist (calloc n_bins) data win_len n_bins).
  set (M0 := for_range 0 n_bins (fun b histMat => wr histMat b (rd B0 b)) histMat).
  assert (HB0 : forall k : nat, Z.of_nat k < n_bins ->
            B0 !! k = Some (engine_tally n_bins data win_len stride 0 k)).
  { intros k Hk. unfold B0. rewrite pushHist_bump, bump_lookup.
    rewrite calloc_lookup by done. simpl. f_equal. ring. }
  destruct (for_range_fill0 (fun b => rd B0 b) n_bins histMat Hn0)
    as (HlenM0 & HinM0 & _). fold M0 in HlenM0, HinM0.
  assert (HM0 : forall k : nat, Z.of_nat k < n_bins ->
            M0 !! k = Some (engine_tally n_bins data win_len stride 0 k)).
  { intros k Hk. specialize (HinM0 (Z.of_nat k) ltac:(lia) ltac:(nia)).
    rewrite Nat2Z.id in HinM0. rewrite HinM0. f_equal.
    apply rd_lookup. rewrite Nat2Z.id. by apply HB0. }
  assert (Hmat0 : matrix_buffer M0 n_bins (num_windows input_len win_len stride)).
  { repeat split; try done. by rewrite HlenM0. }
  destruct (sliding_loop_tally input_len n_bins win_len stride loci data
              Hv Hloci M0 B0 Hmat0 HB0 HM0) as (HlenS & HS).
  assert (Hout : out.1.1
            = (for_range 1 (num_windows input_len win_len stride)
                 (sliding_step tswHist_h.pushHist tswHist_h.popHist data
                    (tswHist_h.fill_loci loci
                       (num_windows input_len win_len stride) stride)
                    (tswHist_h.fill_offsets stride)
                    win_len n_bins stride input_len) (M0, B0)).1).
  { unfold out, tswHist_h.tswHist, tswHist_h.tswHistSlidingWindow,
      sliding_window.
    rewrite fill_input_int_binned by done. fold data B0 M0.
    by destruct (for_range 1 _ _ _). }
  rewrite Hout. split; [congruence|]. exact HS.
Qed.

(** ** Windows of the binned sequence *)

Lemma pop_guard_push_guard n_bins bin :
  0 <= n_bins <= INT_MAX -> pop_guard n_bins bin = push_guard n_bins bin.
Proof. intros. unfold pop_guard. by rewrite int_of_size_t_small. Qed.

Lemma tally_ext guard guard' data k :
  (forall bin, guard bin = guard' bin) ->
  tally guard data k = tally guard' data k.
Proof.
  intros Hg. unfold tally. f_equal. apply list_fmap_ext. intros _ d _.
  unfold hit. by rewrite Hg.
Qed.

Lemma passing_ext guard guard' data :
  (forall bin, guard bin = guard' bin) ->
  passing guard data = passing guard' data.
Proof.
  intros Hg. unfold passing. f_equal. apply list_fmap_ext. intros _ d _.
  by rewrite Hg.
Qed.

(** A window is its first [stride] elements followed by the rest, and the
    next window is that rest followed by [stride] new elements. *)
Lemma window_split {A : Type} (data : list A) win_len stride a :
  0 <= a -> 0 <= stride <= win_len ->
  take (Z.to_nat win_len) (drop (Z.to_nat a) data)
  = take (Z.to_nat stride) (drop (Z.to_nat a) data)
    ++ take (Z.to_nat (win_len - stride)) (drop (Z.to_nat (a + stride)) data).
Proof.
  intros Ha Hs.
  replace (Z.to_nat win_len)
    with (Z.to_nat stride + Z.to_nat (win_len - stride))%nat by lia.
  rewrite <-take_take_drop, drop_drop. do 3 f_equal. lia.
Qed.

Lemma window_next {A : Type} (data : list A) win_len stride a :
  0 <= a -> 0 <= stride <= win_len ->
  take (Z.to_nat win_len) (drop (Z.to_nat (a + stride)) data)
  = take (Z.to_nat (win_len - stride)) (drop (Z.to_nat (a + stride)) data)
    ++ take (Z.to_nat stride) (drop (Z.to_nat (a + win_len)) data).
Proof.
  intros Ha Hs.
  replace (Z.to_nat win_len)
    with (Z.to_nat (win_len - stride) + Z.to_nat stride)%nat by lia.
  rewrite <-take_take_drop, drop_drop. do 3 f_equal. lia.
Qed.

(** When [n_bins] fits [int], both guards agree and the recurrence
    telescopes: the accumulator at window [w] is the tally of window [w]. *)
Lemma engine_tally_window n_bins data win_len stride w k :
  0 <= n_bins <= INT_MAX -> 0 <= stride <= win_len ->
  engine_tally n_bins data win_len stride w k
  = tally (push_guard n_bins)
      (take (Z.to_nat win_len)
         (drop (Z.to_nat (Z.of_nat w * stride)) data)) k.
Proof.
  intros Hn Hs. induction w as [|w IH].
  - done.
  - simpl engine_tally. rewrite IH.
    rewrite (tally_ext (pop_guard n_bins) (push_guard n_bins))
      by (intros; by apply pop_guard_push_guard).
    replace (Z.of_nat (Datatypes.S w) * stride)
      with (Z.of_nat w * stride + stride) by lia.
    rewrite (window_next data win_len stride) by nia.
    rewrite (window_split data win_len stride (Z.of_nat w * stride)) by nia.
    rewrite !tally_app. ring.
Qed.

Lemma engine_total_window n_bins data win_len stride w :
  0 <= n_bins <= INT_MAX -> 0 <= stride <= win_len ->
  engine_total n_bins data win_len stride w
  = passing (push_guard n_bins)
      (take (Z.to_nat win_len)
         (drop (Z.to_nat (Z.of_nat w * stride)) data)).
Proof.
  intros Hn Hs. induction w as [|w IH].
  - done.
  - simpl engine_total. rewrite IH.
    rewrite (passing_ext (pop_guard n_bins) (push_guard n_bins))
      by (intros; by apply pop_guard_push_guard).
    replace (Z.of_nat (Datatypes.S w) * stride)
      with (Z.of_nat w * stride + stride) by lia.
    rewrite (window_next data win_len stride) by nia.
    rewrite (window_split data win_len stride (Z.of_nat w * stride)) by nia.
    rewrite !passing_app. ring.
Qed.

(** ** The binner *)

Lemma binner_int_range fl norm n_bins :
  INT_MIN <= binner fl norm n_bins <= INT_MAX.
Proof.
  unfold binner. destruct (_ =? _).
  - apply int_of_size_t_range.
  - unfold int_of_floor. destruct (dmul _ _ _);
      [apply int_of_double_range|unfold INT_MIN, INT_MAX; lia..].
Qed.

(** On a finite value and a bin count that fits [int], the code's binner
    is the specification's formula whenever the floor fits [int], and
    yields [INT_MIN] otherwise. *)
Lemma binner_spec_bin fl value n_bins :
  0 < n_bins <= INT_MAX ->
  let index := Qfloor (fl (value * inject_Z n_bins)%Q) in
  binner fl (Finite value) n_bins
  = if (INT_MIN <=? index) && (index <=? INT_MAX)
    then spec_bin fl value n_bins else INT_MIN.
Proof.
  intros Hn index. unfold binner, spec_bin. simpl. fold index.
  rewrite int_of_size_t_small by lia.
  rewrite (size_t_small (n_bins - 1)) by (unfold INT_MAX, SIZE_MODULUS in *; lia).
  rewrite int_of_size_t_small by lia.
  unfold int_of_double. destruct (_ && _) eqn:E; [done|].
  destruct (INT_MIN =? n_bins) eqn:E'; [|done].
  apply Z.eqb_eq in E'. unfold INT_MIN in *. lia.
Qed.

(** Whether a sample hits entry [k] is decided by the specification's bin. *)
Lemma hit_binner fl value n_bins (k : nat) :
  0 < n_bins <= INT_MAX -> Z.of_nat k < n_bins ->
  hit (push_guard n_bins) k (binner fl (Finite value) n_bins)
  = if decide (spec_bin fl value n_bins = Z.of_nat k) then 1 else 0.
Proof.
  intros Hn Hk. unfold hit. cbv zeta.
  rewrite int_of_double_small by apply binner_int_range.
  rewrite binner_spec_bin by done. cbv zeta.
  set (index := Qfloor _).
  assert (Hidx : spec_bin fl value n_bins
                 = if index =? n_bins then n_bins - 1 else index) by done.
  unfold push_guard.
  destruct ((INT_MIN <=? index) && (index <=? INT_MAX)) eqn:E.
  - case_decide as Hd.
    + rewrite Hd. rewrite bool_decide_eq_true_2 by lia.
      replace (0 <=? Z.of_nat k) with true by (symmetry; apply Z.leb_le; lia).
      replace (Z.of_nat k <? n_bins) with true by (symmetry; apply Z.ltb_lt; lia).
      done.
    + destruct ((0 <=? _) && (_ <? _)) eqn:G; [|done]. simpl.
      apply andb_prop in G as [G1%Z.leb_le G2%Z.ltb_lt].
      rewrite bool_decide_eq_false_2; [done|]. lia.
  - assert (Hout : index < INT_MIN \/ INT_MAX < index).
    { apply andb_false_iff in E as [E%Z.leb_gt|E%Z.leb_gt]; lia. }
    replace (0 <=? INT_MIN) with false by done. simpl.
    case_decide as Hd; [|done]. rewrite Hidx in Hd.
    destruct (index =? n_bins) eqn:E'.
    + apply Z.eqb_eq in E'. unfold INT_MIN, INT_MAX in *. lia.
    + unfold INT_MIN, INT_MAX in *. lia.
Qed.

Lemma tally_binned fl input n_bins (k : nat) :
  0 < n_bins <= INT_MAX -> Z.of_nat k < n_bins ->
  tally (push_guard n_bins) (binned fl input n_bins) k
  = Z.of_nat (length (filter (fun v => spec_bin fl v n_bins = Z.of_nat k) input)).
Proof.
  intros Hn Hk. induction input as [|v input IH]; [done|].
  unfold binned in *. rewrite fmap_cons, tally_cons, IH, hit_binner by done.
  rewrite filter_cons. case_decide; simpl; lia.
Qed.

Lemma binned_window fl input n_bins a len :
  take len (drop a (binned fl input n_bins))
  = binned fl (take len (drop a input)) n_bins.
Proof. unfold binned. by rewrite fmap_take, fmap_drop. Qed.

Lemma column_lookup histMat n_bins w (k : nat) :
  0 <= n_bins -> 0 <= w -> Z.of_nat k < n_bins ->
  column histMat n_bins w !! k = histMat !! Z.to_nat (w * n_bins + Z.of_nat k).
Proof.
  intros Hn Hw Hk. unfold column.
  rewrite lookup_take_lt by lia. rewrite lookup_drop. f_equal. nia.
Qed.

Lemma spec_histogram_lookup fl input n_bins start win_len (k : nat) :
  Z.of_nat k < n_bins ->
  spec_histogram fl input n_bins start win_len !! k
  = Some (Z.of_nat (length (filter (fun v => spec_bin fl v n_bins = Z.of_nat k)
        (take (Z.to_nat win_len) (drop (Z.to_nat start) input))))).
Proof.
  intros Hk. unfold spec_histogram.
  rewrite list_lookup_fmap, lookup_seqZ_lt by done. done.
Qed.

Lemma length_spec_histogram fl input n_bins start win_len :
  length (spec_histogram fl input n_bins start win_len) = Z.to_nat n_bins.
Proof. unfold spec_histogram. by rewrite length_fmap, length_seqZ. Qed.

(** ** Equivalence with recounting *)

(** Column [w] is the tally of window [w] when [n_bins] fits [int]. *)
Lemma tswHist_column_window fl input input_len n_bins win_len stride
    histMat loci edges w (k : nat) :
  valid_config input_len n_bins win_len stride ->
  n_bins <= INT_MAX ->
  Z.of_nat (length input) = input_len ->
  matrix_buffer histMat n_bins (num_windows input_len win_len stride) ->
  Z.of_nat (length loci) = num_windows input_len win_len stride ->
  0 <= w < num_windows input_len win_len stride ->
  column (tswHist_h.tswHist fl input input_len n_bins win_len stride
            histMat loci edges).1.1 n_bins w !! k
  = if decide (Z.of_nat k < n_bins)
    then Some (tally (push_guard n_bins)
                 (take (Z.to_nat win_len)
                    (drop (Z.to_nat (w * stride)) (binned fl input n_bins))) k)
    else None.
Proof.
  intros Hv Hint Hlen Hmat Hloci Hw.
  destruct (tswHist_tally fl input input_len n_bins win_len stride
              histMat loci edges Hv Hlen Hmat Hloci) as (HlenM & Hcol).
  pose proof Hv as ((Hn & _) & Hs & Hsl & _).
  case_decide as Hk.
  - rewrite column_lookup by lia. rewrite Hcol by done.
    rewrite engine_tally_window by lia. by rewrite Z2Nat.id by lia.
  - apply lookup_ge_None. unfold column. rewrite length_take. lia.
Qed.

(** C1, as the code has it.  In every valid configuration whose bin count
    fits [int] ([n_bins <= INT_MAX]), with an [n_bins] by [num_windows]
    output matrix, column [w] of the matrix the incremental engine produces
    is, for every window [w], exactly the histogram obtained by binning and
    counting the [win_len] samples from [w * stride] on from scratch: both
    the specification's count and a fresh [pushHist] over the window. *)
Theorem tswHist_matches_recount fl input input_len n_bins win_len stride
    histMat loci edges w :
  valid_config input_len n_bins win_len stride ->
  n_bins <= INT_MAX ->
  Z.of_nat (length input) = input_len ->
  matrix_buffer histMat n_bins (num_windows input_len win_len stride) ->
  Z.of_nat (length loci) = num_windows input_len win_len stride ->
  0 <= w < num_windows input_len win_len stride ->
  let col :=
    column (tswHist_h.tswHist fl input input_len n_bins win_len stride
              histMat loci edges).1.1 n_bins w in
  col = spec_histogram fl input n_bins (w * stride) win_len /\
  col = tswHist_h.pushHist (calloc n_bins)
          (ptr_add (binned fl input n_bins) (w * stride)) win_len n_bins.
Proof.
  intros Hv Hint Hlen Hmat Hloci Hw col.
  pose proof Hv as ((Hn & _) & Hs & Hsl & _).
  split; apply list_eq; intros k; unfold col;
    rewrite (tswHist_column_window _ _ input_len) by done; case_decide as Hk.
  - rewrite spec_histogram_lookup by done. f_equal.
    rewrite binned_window. by apply tally_binned; [lia|].
  - symmetry. apply lookup_ge_None. rewrite length_spec_histogram. lia.
  - rewrite pushHist_bump, bump_lookup, calloc_lookup by done. simpl.
    f_equal. unfold ptr_add. ring.
  - symmetry. apply lookup_ge_None. rewrite pushHist_bump, length_bump.
    unfold calloc. rewrite length_replicate. lia.
Qed.

Lemma tswHist_matches_recount_witness :
  let input :=
    [0; 1 # 10; 1 # 4; 4 # 10; 55 # 100; 7 # 10; 85 # 100; 95 # 100]%Q in
  let col :=
    column (tswHist_h.tswHist (fun q => q) input 8 4 4 2 (replicate 12 0)
              (replicate 3 0) (replicate 5 (Finite 0%Q))).1.1 4 1 in
  col = spec_histogram (fun q => q) input 4 (1 * 2) 4 /\
  col = tswHist_h.pushHist (calloc 4)
          (ptr_add (binned (fun q => q) input 4) (1 * 2)) 4 4.
Proof.
  apply (tswHist_matches_recount (fun q => q)
           [0; 1 # 10; 1 # 4; 4 # 10; 55 # 100; 7 # 10; 85 # 100; 95 # 100]%Q
           8 4 4 2 (replicate 12 0) (replicate 3 0)
           (replicate 5 (Finite 0%Q)) 1).
  - unfold valid_config, SIZE_MODULUS. lia.
  - unfold INT_MAX. lia.
  - reflexivity.
  - change (num_windows 8 4 2) with 3.
    unfold matrix_buffer, SIZE_MODULUS. simpl. lia.
  - reflexivity.
  - change (num_windows 8 4 2) with 3. lia.
Defined.

(** The accumulator at 2^31 bins: [popHist] compares against
    [(int)n_bins = INT_MIN] and removes nothing, [pushHist] adds. *)
Lemma engine_tally_int_overflow :
  engine_tally 2147483648 (binned (fun q => q) [0; 0; 0]%Q 2147483648) 2 1 1 0
  = 3.
Proof. vm_compute. reflexivity. Qed.

(** C1 fails as stated: with 2^31 bins, three samples of value 0,
    [win_len = 2] and [stride = 1], entry 0 of column 1 is 3 while window 1
    holds two samples, whichever way they are recounted. *)
Lemma tswHist_recount_counterexample :
  let n_bins := 2147483648 in
  let input := [0; 0; 0]%Q in
  let col :=
    column (tswHist_h.tswHist (fun q => q) input 3 n_bins 2 1
              (replicate (Z.to_nat 4294967296) 0) [0; 0]
              (replicate (Z.to_nat 2147483649) (Finite 0%Q))).1.1 n_bins 1 in
  valid_config 3 n_bins 2 1 /\
  matrix_buffer (replicate (Z.to_nat 4294967296) 0) n_bins (num_windows 3 2 1) /\
  0 <= 1 < num_windows 3 2 1 /\
  col <> spec_histogram (fun q => q) input n_bins (1 * 1) 2 /\
  col <> tswHist_h.pushHist (calloc n_bins)
           (ptr_add (binned (fun q => q) input n_bins) (1 * 1)) 2 n_bins.
Proof.
  intros n_bins input col.
  assert (Hv : valid_config 3 n_bins 2 1).
  { unfold valid_config, n_bins, SIZE_MODULUS. lia. }
  assert (Hnw : num_windows 3 2 1 = 2) by reflexivity.
  assert (Hmat : matrix_buffer (replicate (Z.to_nat 4294967296) 0) n_bins
                   (num_windows 3 2 1)).
  { rewrite Hnw. unfold matrix_buffer, n_bins, SIZE_MODULUS.
    rewrite length_replicate. lia. }
  split; [done|]. split; [done|]. split; [rewrite Hnw; lia|].
  destruct (tswHist_tally (fun q => q) input 3 n_bins 2 1
              (replicate (Z.to_nat 4294967296) 0) [0; 0]
              (replicate (Z.to_nat 2147483649) (Finite 0%Q))
              Hv eq_refl Hmat eq_refl) as (_ & Hcol).
  specialize (Hcol 1 0%nat ltac:(rewrite Hnw; lia) ltac:(unfold n_bins; lia)).
  change (Z.to_nat 1) with 1%nat in Hcol.
  unfold n_bins, input in Hcol. rewrite engine_tally_int_overflow in Hcol.
  assert (Hcol0 : col !! 0%nat = Some 3).
  { unfold col. rewrite column_lookup by (unfold n_bins; lia). exact Hcol. }
  split; intros Heq; rewrite Heq in Hcol0.
  - rewrite spec_histogram_lookup in Hcol0 by (unfold n_bins; lia).
    revert Hcol0. vm_compute. discriminate.
  - rewrite pushHist_bump, bump_lookup in Hcol0.
    rewrite calloc_lookup in Hcol0 by (unfold n_bins; lia).
    revert Hcol0. vm_compute. discriminate.
Qed.

(** ** Column sums *)

Lemma sum_upto_S f n : sum_upto f (S n) = sum_upto f n + f n.
Proof.
  unfold sum_upto. rewrite seq_S, fmap_app, sumZ_app. simpl. lia.
Qed.

Lemma sum_upto_ext f g n :
  (forall k, (k < n)%nat -> f k = g k) -> sum_upto f n = sum_upto g n.
Proof.
  intros Hfg. induction n as [|n IH]; [done|].
  rewrite !sum_upto_S, IH, Hfg by (intros; auto with lia). done.
Qed.

Lemma sum_upto_zero n : sum_upto (fun _ => 0) n = 0.
Proof. induction n as [|n IH]; [done|]. rewrite sum_upto_S, IH. done. Qed.

Lemma sum_upto_add f g n :
  sum_upto (fun k => f k + g k) n = sum_upto f n + sum_upto g n.
Proof.
  induction n as [|n IH]; [done|]. rewrite !sum_upto_S, IH. ring.
Qed.

Lemma sum_upto_sub f g n :
  sum_upto (fun k => f k - g k) n = sum_upto f n - sum_upto g n.
Proof.
  induction n as [|n IH]; [done|]. rewrite !sum_upto_S, IH. ring.
Qed.

Lemma sum_upto_indicator (c n : nat) :
  sum_upto (fun k => if bool_decide (c = k) then 1 else 0) n
  = if decide (c < n)%nat then 1 else 0.
Proof.
  induction n as [|n IH]; [done|]. rewrite sum_upto_S, IH.
  repeat case_decide; case_bool_decide; lia.
Qed.

Lemma sumZ_lookup (l : list Z) f n :
  length l = n -> (forall k, (k < n)%nat -> l !! k = Some (f k)) ->
  sumZ l = sum_upto f n.
Proof.
  intros Hlen Hl. unfold sum_upto. f_equal. apply list_eq. intros k.
  rewrite list_lookup_fmap. destruct (decide (k < n)%nat) as [Hk|Hk].
  - rewrite Hl by done. by rewrite lookup_seq_lt.
  - rewrite lookup_seq_ge by lia. apply lookup_ge_None. lia.
Qed.

(** Summed over the entries, the hits of a batch are its passing elements. *)
Lemma sum_upto_tally guard data n :
  (forall bin, guard bin = true -> 0 <= bin < Z.of_nat n) ->
  sum_upto (tally guard data) n = passing guard data.
Proof.
  intros Hg. induction data as [|d data IH].
  - apply sum_upto_zero.
  - rewrite (sum_upto_ext _ (fun k => hit guard k d + tally guard data k))
      by (intros; apply tally_cons).
    rewrite sum_upto_add, IH. unfold passing at 2. simpl. f_equal.
    unfold hit. cbv zeta. destruct (guard (int_of_double d)) eqn:E.
    + simpl. rewrite sum_upto_indicator. specialize (Hg _ E).
      case_decide; lia.
    + apply sum_upto_zero.
Qed.

Lemma push_guard_range n_bins bin :
  push_guard n_bins bin = true -> 0 <= bin < n_bins.
Proof.
  unfold push_guard. intros [?%Z.leb_le ?%Z.ltb_lt]%andb_prop. lia.
Qed.

Lemma pop_guard_range n_bins bin :
  0 <= n_bins -> pop_guard n_bins bin = true -> 0 <= bin < n_bins.
Proof.
  unfold pop_guard. intros Hn [?%Z.leb_le ?%Z.ltb_lt]%andb_prop.
  pose proof (int_of_size_t_le n_bins Hn). lia.
Qed.

Lemma sum_upto_engine_tally n_bins data win_len stride w :
  0 <= n_bins ->
  sum_upto (engine_tally n_bins data win_len stride w) (Z.to_nat n_bins)
  = engine_total n_bins data win_len stride w.
Proof.
  intros Hn. induction w as [|w IH].
  - simpl. apply sum_upto_tally. intros bin Hb%push_guard_range. lia.
  - simpl.
    rewrite (sum_upto_add (fun k => _ - _)), sum_upto_sub, IH.
    rewrite !sum_upto_tally; [done| |].
    + intros bin Hb%push_guard_range. lia.
    + intros bin Hb%pop_guard_range; lia.
Qed.

(** The sum of column [w] of the matrix [tswHist] fills. *)
Lemma tswHist_column_total fl input input_len n_bins win_len stride
    histMat loci edges w :
  valid_config input_len n_bins win_len stride ->
  Z.of_nat (length input) = input_len ->
  matrix_buffer histMat n_bins (num_windows input_len win_len stride) ->
  Z.of_nat (length loci) = num_windows input_len win_len stride ->
  0 <= w < num_windows input_len win_len stride ->
  sumZ (column (tswHist_h.tswHist fl input input_len n_bins win_len stride
                  histMat loci edges).1.1 n_bins w)
  = engine_total n_bins (binned fl input n_bins) win_len stride (Z.to_nat w).
Proof.
  intros Hv Hlen Hmat Hloci Hw.
  destruct (tswHist_tally fl input input_len n_bins win_len stride
              histMat loci edges Hv Hlen Hmat Hloci) as (HlenM & Hcol).
  pose proof Hmat as (Hn0 & Hnw0 & HlenH & Hfit).
  rewrite <-sum_upto_engine_tally by done.
  apply sumZ_lookup.
  - unfold column. rewrite length_take, length_drop. nia.
  - intros k Hk. rewrite column_lookup by lia. apply Hcol; [done|lia].
Qed.

Lemma passing_all n_bins data :
  n_bins <= INT_MAX -> Forall (fun d => 0 <= d < n_bins) data ->
  passing (push_guard n_bins) data = Z.of_nat (length data).
Proof.
  intros Hn Hall. induction Hall as [|d data Hd _ IH]; [done|].
  unfold passing in *. rewrite fmap_cons. simpl. rewrite IH.
  rewrite int_of_double_small by (unfold INT_MIN, INT_MAX in *; lia).
  unfold push_guard.
  replace (0 <=? d) with true by (symmetry; apply Z.leb_le; lia).
  replace (d <? n_bins) with true by (symmetry; apply Z.ltb_lt; lia).
  simpl. lia.
Qed.

(** ** The binner on [0, 1] *)

Lemma Qeq_Qle (x y : Q) : (x == y)%Q -> (x <= y)%Q.
Proof. intros H. apply Qle_lteq. by right. Qed.

Lemma floor_unit_interval fl value n_bins :
  faithful_rounding fl -> 0 <= n_bins <= INT_MAX ->
  (0 <= value)%Q -> (value <= 1)%Q ->
  0 <= Qfloor (fl (value * inject_Z n_bins)%Q) <= n_bins.
Proof.
  intros [Hmono Hint] Hn H0 H1.
  assert (Hn0 : (0 <= inject_Z n_bins)%Q).
  { change 0%Q with (inject_Z 0). rewrite <-Zle_Qle. lia. }
  split.
  - rewrite <-(Qfloor_Z 0). apply Qfloor_resp_le.
    apply Qle_trans with (fl (inject_Z 0)).
    + apply Qeq_Qle. symmetry. by apply Hint.
    + apply Hmono. change (inject_Z 0) with 0%Q. by apply Qmult_le_0_compat.
  - rewrite <-(Qfloor_Z n_bins) at 2. apply Qfloor_resp_le.
    apply Qle_trans with (fl (inject_Z n_bins)).
    + apply Hmono. apply Qle_trans with (1 * inject_Z n_bins)%Q.
      * by apply Qmult_le_compat_r.
      * apply Qeq_Qle, Qmult_1_l.
    + apply Qeq_Qle, Hint. unfold INT_MAX in *. lia.
Qed.

Lemma floor_one fl value n_bins :
  faithful_rounding fl -> 0 <= n_bins <= INT_MAX -> (value == 1)%Q ->
  Qfloor (fl (value * inject_Z n_bins)%Q) = n_bins.
Proof.
  intros [Hmono Hint] Hn H1.
  assert (Hvn : (value * inject_Z n_bins == inject_Z n_bins)%Q).
  { rewrite H1. apply Qmult_1_l. }
  assert (Hfl : (fl (value * inject_Z n_bins) == inject_Z n_bins)%Q).
  { apply Qeq_trans with (fl (inject_Z n_bins)).
    - apply Qle_antisym; apply Hmono; apply Qeq_Qle; [done|by symmetry].
    - apply Hint. unfold INT_MAX in *. lia. }
  rewrite (Qfloor_comp _ _ Hfl). apply Qfloor_Z.
Qed.

Lemma binner_fits fl value n_bins :
  0 < n_bins <= INT_MAX ->
  INT_MIN <= Qfloor (fl (value * inject_Z n_bins)%Q) <= INT_MAX ->
  binner fl (Finite value) n_bins = spec_bin fl value n_bins.
Proof.
  intros Hn [H1 H2]. rewrite binner_spec_bin by lia. cbv zeta.
  apply Z.leb_le in H1, H2. by rewrite H1, H2.
Qed.

Lemma binner_unit_interval fl value n_bins :
  faithful_rounding fl -> 0 < n_bins <= INT_MAX ->
  (0 <= value)%Q /\ (value <= 1)%Q ->
  binner fl (Finite value) n_bins = spec_bin fl value n_bins /\
  0 <= binner fl (Finite value) n_bins < n_bins /\
  ((value == 1)%Q -> binner fl (Finite value) n_bins = n_bins - 1).
Proof.
  intros Hfl Hn [H0 H1].
  pose proof (floor_unit_interval fl value n_bins Hfl ltac:(lia) H0 H1) as Hidx.
  assert (Heq : binner fl (Finite value) n_bins = spec_bin fl value n_bins).
  { apply binner_fits; [done|]. unfold INT_MIN, INT_MAX in *. lia. }
  rewrite Heq. split; [done|]. unfold spec_bin. cbv zeta. split.
  - destruct (_ =? _) eqn:E; [lia|]. apply Z.eqb_neq in E. lia.
  - intros Hone. rewrite (floor_one fl value n_bins Hfl) by (done || lia).
    by rewrite Z.eqb_refl.
Qed.

(** C8, as the code has it.  For a bin count that fits [int]
    ([2 < n_bins <= INT_MAX]) the binner is the floor-and-clamp formula on
    every value whose floor fits [int]; and under a faithful rounding, for
    every value in [0, 1], it is that formula, its index lies in
    [0, n_bins), and the value 1 goes to bin [n_bins - 1]. *)
Theorem binner_floor_clamp fl value n_bins :
  2 < n_bins <= INT_MAX ->
  (INT_MIN <= Qfloor (fl (value * inject_Z n_bins)%Q) <= INT_MAX ->
   binner fl (Finite value) n_bins = spec_bin fl value n_bins) /\
  (faithful_rounding fl -> (0 <= value)%Q /\ (value <= 1)%Q ->
   binner fl (Finite value) n_bins = spec_bin fl value n_bins /\
   0 <= binner fl (Finite value) n_bins < n_bins /\
   ((value == 1)%Q -> binner fl (Finite value) n_bins = n_bins - 1)).
Proof.
  intros Hn. split.
  - apply binner_fits. lia.
  - intros Hfl Hv. apply binner_unit_interval; [done|lia|done].
Qed.

Lemma exact_rounding_faithful : faithful_rounding (fun q => q).
Proof. split; [intros x y H; exact H|intros z _; reflexivity]. Qed.

Lemma binner_floor_clamp_witness :
  binner (fun q => q) (Finite 1) 4 = spec_bin (fun q => q) 1 4 /\
  0 <= binner (fun q => q) (Finite 1) 4 < 4 /\
  ((1 == 1)%Q -> binner (fun q => q) (Finite 1) 4 = 4 - 1).
Proof.
  apply (proj2 (binner_floor_clamp (fun q => q) 1%Q 4
                  ltac:(unfold INT_MAX; lia))).
  - apply exact_rounding_faithful.
  - split; discriminate.
Defined.

(** C8 fails as stated: with [2^32 + 6] bins, [(int)n_bins] is 6, so the
    value [3 / 2^31], whose floor is 6, is taken for the top boundary and
    sent to [(int)(n_bins - 1) = 5]. *)
Lemma binner_counterexample :
  2 < 4294967302 /\
  (0 <= 3 # 2147483648)%Q /\ (3 # 2147483648 <= 1)%Q /\
  Qfloor ((3 # 2147483648) * inject_Z 4294967302)%Q = 6 /\
  6 <> 4294967302 /\
  binner (fun q => q) (Finite (3 # 2147483648)) 4294967302 = 5.
Proof.
  split; [lia|]. split; [discriminate|]. split; [discriminate|].
  split; [reflexivity|]. split; [lia|]. reflexivity.
Qed.

(** ** Column sums equal the window length *)

Lemma binned_in_range fl input n_bins :
  faithful_rounding fl -> 2 < n_bins <= INT_MAX ->
  Forall (fun v => (0 <= v)%Q /\ (v <= 1)%Q) input ->
  Forall (fun d => 0 <= d < n_bins) (binned fl input n_bins).
Proof.
  intros Hfl Hn Hall. unfold binned. apply Forall_fmap.
  eapply Forall_impl; [exact Hall|]. intros v Hv. simpl.
  by destruct (binner_unit_interval fl v n_bins Hfl ltac:(lia) Hv)
    as (_ & ? & _).
Qed.

(** C2, as the code has it.  In every valid configuration whose bin count
    fits [int], if no bin index is out of range, as is the case under a
    faithful rounding when every input value lies in [0, 1], every column
    of the output matrix sums to [win_len]. *)
Theorem tswHist_column_sum fl input input_len n_bins win_len stride
    histMat loci edges w :
  valid_config input_len n_bins win_len stride ->
  n_bins <= INT_MAX ->
  Z.of_nat (length input) = input_len ->
  matrix_buffer histMat n_bins (num_windows input_len win_len stride) ->
  Z.of_nat (length loci) = num_windows input_len win_len stride ->
  0 <= w < num_windows input_len win_len stride ->
  Forall (fun d => 0 <= d < n_bins) (binned fl input n_bins) \/
  (faithful_rounding fl /\ Forall (fun v => (0 <= v)%Q /\ (v <= 1)%Q) input) ->
  sumZ (column (tswHist_h.tswHist fl input input_len n_bins win_len stride
                  histMat loci edges).1.1 n_bins w)
  = win_len.
Proof.
  intros Hv Hint Hlen Hmat Hloci Hw Hkept.
  pose proof Hv as ((Hn & _) & Hs & Hsl & _).
  assert (Hall : Forall (fun d => 0 <= d < n_bins) (binned fl input n_bins)).
  { destruct Hkept as [?|[Hfl Hunit]]; [done|].
    apply binned_in_range; [done|lia|done]. }
  rewrite tswHist_column_total by done.
  rewrite engine_total_window by lia.
  rewrite passing_all; [|done|by apply Forall_take, Forall_drop].
  pose proof (window_in_range _ _ _ _ w Hv Hw) as Hin.
  rewrite length_take, length_drop. unfold binned. rewrite length_fmap. nia.
Qed.

Lemma tswHist_column_sum_witness :
  sumZ (column (tswHist_h.tswHist (fun q => q)
            [0; 1 # 10; 1 # 4; 4 # 10; 55 # 100; 7 # 10; 85 # 100; 95 # 100]%Q
            8 4 4 2 (replicate 12 0) (replicate 3 0)
            (replicate 5 (Finite 0%Q))).1.1 4 2)
  = 4.
Proof.
  apply tswHist_column_sum.
  - unfold valid_config, SIZE_MODULUS. lia.
  - unfold INT_MAX. lia.
  - reflexivity.
  - change (num_windows 8 4 2) with 3.
    unfold matrix_buffer, SIZE_MODULUS. simpl. lia.
  - reflexivity.
  - change (num_windows 8 4 2) with 3. lia.
  - left. change (binned _ _ 4) with [0; 0; 1; 1; 2; 2; 3; 3].
    repeat (constructor; [lia|]). constructor.
Defined.

Lemma engine_total_int_overflow :
  engine_total 2147483648 (binned (fun q => q) [0; 0; 0]%Q 2147483648) 2 1 1
  = 3.
Proof. vm_compute. reflexivity. Qed.

(** C2 fails as stated: with 2^31 bins, three samples of value 0 (none is
    dropped), [win_len = 2] and [stride = 1], column 1 sums to 3. *)
Lemma tswHist_column_sum_counterexample :
  valid_config 3 2147483648 2 1 /\
  matrix_buffer (replicate (Z.to_nat 4294967296) 0) 2147483648
    (num_windows 3 2 1) /\
  0 <= 1 < num_windows 3 2 1 /\
  Forall (fun v => (0 <= v)%Q /\ (v <= 1)%Q) [0; 0; 0]%Q /\
  Forall (fun d => 0 <= d < 2147483648)
    (binned (fun q => q) [0; 0; 0]%Q 2147483648) /\
  sumZ (column (tswHist_h.tswHist (fun q => q) [0; 0; 0]%Q 3 2147483648 2 1
                  (replicate (Z.to_nat 4294967296) 0) [0; 0]
                  (replicate (Z.to_nat 2147483649) (Finite 0%Q))).1.1
          2147483648 1)
  <> 2.
Proof.
  assert (Hv : valid_config 3 2147483648 2 1).
  { unfold valid_config, SIZE_MODULUS. lia. }
  assert (Hnw : num_windows 3 2 1 = 2) by reflexivity.
  assert (Hmat : matrix_buffer (replicate (Z.to_nat 4294967296) 0) 2147483648
                   (num_windows 3 2 1)).
  { rewrite Hnw. unfold matrix_buffer, SIZE_MODULUS.
    rewrite length_replicate. lia. }
  split; [done|]. split; [done|]. split; [rewrite Hnw; lia|].
  split; [repeat (constructor; [split; discriminate|]); constructor|].
  split.
  { change (binned _ _ _) with [0; 0; 0].
    repeat (constructor; [lia|]). constructor. }
  assert (Hw : 0 <= 1 < num_windows 3 2 1) by (rewrite Hnw; lia).
  pose proof (tswHist_column_total (fun q => q) [0; 0; 0]%Q 3 2147483648 2 1
                (replicate (Z.to_nat 4294967296) 0) [0; 0]
                (replicate (Z.to_nat 2147483649) (Finite 0%Q)) 1
                Hv eq_refl Hmat eq_refl Hw) as Hsum.
  change (Z.to_nat 1) with 1%nat in Hsum.
  intros Heq. pose proof (eq_trans (eq_sym Hsum) Heq) as Habs.
  rewrite engine_total_int_overflow in Habs. discriminate Habs.
Qed.

Lemma sliding_positions_in_bounds_witness :
  let loci := tswHist_h.fill_loci (replicate 3 0) (num_windows 8 4 2) 2 in
  let offs := tswHist_h.fill_offsets 2 in
  pop_index loci offs 2 1 = (2 - 1) * 2 + 1 /\
  push_index loci offs 4 2 1 = 2 * 2 + 4 - 2 + 1 /\
  0 <= pop_index loci offs 2 1 < 8 /\
  0 <= push_index loci offs 4 2 1 < 8 /\
  (pop_index loci offs 2 1 <? 8) = true /\
  (push_index loci offs 4 2 1 <? 8) = true.
Proof.
  apply (sliding_positions_in_bounds 8 4 4 2 (replicate 3 0) 2 1).
  - unfold valid_config, SIZE_MODULUS. lia.
  - reflexivity.
  - change (num_windows 8 4 2) with 3. lia.
  - lia.
Defined.

(** ** Increment followed by decrement *)

(** When [n_bins] fits [int], [popHist] undoes [pushHist] on any
    accumulator and any batch. *)
Lemma popHist_pushHist_cancel hist_vec data len n_bins :
  0 <= n_bins <= INT_MAX ->
  tswHist_h.popHist (tswHist_h.pushHist hist_vec data len n_bins) data len n_bins
  = hist_vec.
Proof.
  intros Hn. rewrite popHist_bump, pushHist_bump. apply list_eq. intros k.
  rewrite !bump_lookup.
  rewrite (tally_ext (pop_guard n_bins) (push_guard n_bins))
    by (intros; by apply pop_guard_push_guard).
  destruct (hist_vec !! k); simpl; [f_equal; ring|done].
Qed.

(** In [tswHist_mx.h] both helpers cast [n_bins], and [popHist] undoes
    [pushHist] for every [n_bins]. *)
Lemma popHist_pushHist_mx_cancel hist_vec data len n_bins :
  tswHist_mx_h.popHist (tswHist_mx_h.pushHist hist_vec data len n_bins)
    data len n_bins
  = hist_vec.
Proof.
  rewrite popHist_mx_bump, pushHist_mx_bump. apply list_eq. intros k.
  rewrite !bump_lookup.
  destruct (hist_vec !! k); simpl; [f_equal; ring|done].
Qed.

(** C9 at 2^31 bins, in [tswHist.h]: on a zeroed accumulator of 2^31
    entries, pushing the single index 0 and popping it again leaves entry 0
    at 1.  [pushHist] compares [bin < n_bins] as [size_t];
    [popHist] compares [bin < (int)n_bins], and [(int)n_bins] is [INT_MIN]. *)
Theorem popHist_pushHist_int_overflow :
  let n_bins := 2147483648 in
  let hist_vec := calloc n_bins in
  hist_vec !! 0%nat = Some 0 /\
  tswHist_h.popHist (tswHist_h.pushHist hist_vec [0] 1 n_bins) [0] 1 n_bins
    !! 0%nat = Some 1.
Proof.
  intros n_bins hist_vec. split; [apply calloc_lookup; lia|].
  rewrite popHist_bump, pushHist_bump.
  change (take (Z.to_nat 1) [0]) with [0].
  rewrite !bump_lookup. unfold hist_vec. rewrite calloc_lookup by lia.
  reflexivity.
Qed.

(** ** What the sliding loop leaves alone *)

Lemma sliding_step_histMat pushHist popHist data loci offs
    win_len n_bins stride input_len w st :
  (sliding_step pushHist popHist data loci offs win_len n_bins stride
     input_len w st).1
  = store_column st.1
      (sliding_step pushHist popHist data loci offs win_len n_bins stride
         input_len w st).2 w n_bins.
Proof. by destruct st. Qed.

(** C10.  Called on an [n_bins] by [num_windows] matrix,
    [tswHistSlidingWindow] keeps the size of the matrix and changes no entry
    outside columns 1 to [num_windows - 1]; in particular column 0 is as
    the caller seeded it.  The binned input, the window loci and the
    offsets are the ones passed in. *)
Theorem tswHistSlidingWindow_frame histMat0 bufferHist0 data loci
    num_windows win_len n_bins stride offs input_len :
  matrix_buffer histMat0 n_bins num_windows ->
  let mem :=
    tswHist_h.tswHistSlidingWindow histMat0 bufferHist0 data loci
      num_windows win_len n_bins stride offs input_len in
  length (histMat mem) = length histMat0 /\
  (forall k : nat,
     Z.of_nat k < n_bins \/ n_bins * num_windows <= Z.of_nat k ->
     histMat mem !! k = histMat0 !! k) /\
  column (histMat mem) n_bins 0 = column histMat0 n_bins 0 /\
  input_int mem = data /\
  strided_windows_loci mem = loci /\
  offsets mem = offs.
Proof.
  intros (Hn0 & Hnw0 & Hlen & Hfit) mem.
  set (step := sliding_step tswHist_h.pushHist tswHist_h.popHist data loci
                 offs win_len n_bins stride input_len).
  assert (HP : let st := for_range 1 num_windows step (histMat0, bufferHist0) in
               length st.1 = length histMat0 /\
               forall k : nat,
                 Z.of_nat k < n_bins \/ n_bins * num_windows <= Z.of_nat k ->
                 st.1 !! k = histMat0 !! k).
  { destruct (decide (1 <= num_windows)) as [Hnw|Hnw];
      [|by rewrite for_range_nil by lia].
    apply (for_range_ind (fun w st =>
      length st.1 = length histMat0 /\
      forall k : nat,
        Z.of_nat k < n_bins \/ n_bins * num_windows <= Z.of_nat k ->
        st.1 !! k = histMat0 !! k) 1 num_windows step _ Hnw); [done|].
    intros w st Hw (HlenM & Hout). unfold step.
    rewrite sliding_step_histMat.
    destruct (store_column_spec st.1
                (sliding_step tswHist_h.pushHist tswHist_h.popHist data loci
                   offs win_len n_bins stride input_len w st).2 w n_bins
                Hn0 ltac:(lia) ltac:(nia)) as (HlenS & _ & HoutS).
    split; [congruence|]. intros k Hk.
    rewrite HoutS by nia. by apply Hout. }
  assert (Hmem : mem = Buffers
            (for_range 1 num_windows step (histMat0, bufferHist0)).1
            (for_range 1 num_windows step (histMat0, bufferHist0)).2
            data loci offs).
  { unfold mem, tswHist_h.tswHistSlidingWindow, sliding_window. fold step.
    by destruct (for_range 1 num_windows step (histMat0, bufferHist0)). }
  rewrite Hmem. simpl. destruct HP as (HlenM & Hout).
  split; [done|]. split; [done|]. split; [|done].
  apply list_eq. intros k. unfold column. simpl.
  destruct (decide (Z.of_nat k < n_bins)) as [Hk|Hk].
  - rewrite !lookup_take_lt by lia. apply Hout. by left.
  - by rewrite !lookup_take_ge by lia.
Qed.

Lemma tswHistSlidingWindow_frame_witness :
  let histMat0 := [2; 2; 0; 0; 7; 7; 7; 7; 7; 7; 7; 7] in
  let mem :=
    tswHist_h.tswHistSlidingWindow histMat0 [2; 2; 0; 0]
      [0; 0; 1; 1; 2; 2; 3; 3] [1; 3; 5] 3 4 4 2 [-1; 0] 8 in
  length (histMat mem) = length histMat0 /\
  (forall k : nat,
     Z.of_nat k < 4 \/ 4 * 3 <= Z.of_nat k ->
     histMat mem !! k = histMat0 !! k) /\
  column (histMat mem) 4 0 = column histMat0 4 0 /\
  input_int mem = [0; 0; 1; 1; 2; 2; 3; 3] /\
  strided_windows_loci mem = [1; 3; 5] /\
  offsets mem = [-1; 0].
Proof.
  apply (tswHistSlidingWindow_frame [2; 2; 0; 0; 7; 7; 7; 7; 7; 7; 7; 7]).
  unfold matrix_buffer, SIZE_MODULUS. simpl. lia.
Defined.

(** ** The gateways *)

Lemma reject_if_true {A : Type} e (k : unit -> mex A) t :
  (reject_if true e ≫= k) t = (t, inl e).
Proof. reflexivity. Qed.

Lemma reject_if_false {A : Type} e (k : unit -> mex A) t :
  (reject_if false e ≫= k) t = k tt t.
Proof. reflexivity. Qed.

(** A call that fails a test leaves with its error before any matrix is
    requested; a call that passes all four goes on to request its three
    outputs and returns. *)
Lemma mexFunction_c_checks fl c :
  match first_failed_check c with
  | Some e => run (tswHist_mx_c.mexFunction fl c) = ([], inl e)
  | None =>
      let nw := num_windows (Z.of_nat (length (input c))) (win_len_of c)
                  (stride_of c) in
      exists out,
        run (tswHist_mx_c.mexFunction fl c)
        = ([CreateDoubleMatrix (n_bins_of c) nw; CreateDoubleMatrix 1 nw;
            CreateDoubleMatrix 1 (size_t (n_bins_of c + 1))], inr out)
  end.
Proof.
  unfold first_failed_check, run, tswHist_mx_c.mexFunction.
  fold (n_bins_of c) (win_len_of c) (stride_of c).
  destruct ((nrhs c <? 3) || (nrhs c >? 4)); [done|].
  rewrite reject_if_false.
  destruct (negb (input_is_real_double c)); [done|].
  rewrite reject_if_false.
  destruct (n_bins_of c <=? 2); [done|].
  rewrite reject_if_false.
  destruct (_ >=? win_len_of c); [done|].
  rewrite reject_if_false.
  unfold mbind, mex_bind, mxCreateDoubleMatrix, mret, mex_ret. cbv zeta.
  destruct (tswHist_h.tswHist _ _ _ _ _ _ _ _ _) as [[? ?] ?].
  eexists. reflexivity.
Qed.

Lemma mexFunction_mx_checks fl c :
  match first_failed_check c with
  | Some e => run (tswHist_mx.mexFunction fl c) = ([], inl e)
  | None =>
      let nw := num_windows (Z.of_nat (length (input c))) (win_len_of c)
                  (stride_of c) in
      exists out,
        run (tswHist_mx.mexFunction fl c)
        = ([CreateDoubleMatrix 1 nw;
            CreateDoubleMatrix 1 (size_t (n_bins_of c + 1));
            CreateDoubleMatrix (n_bins_of c) nw], inr out)
  end.
Proof.
  unfold first_failed_check, run, tswHist_mx.mexFunction.
  fold (n_bins_of c) (win_len_of c) (stride_of c).
  destruct ((nrhs c <? 3) || (nrhs c >? 4)); [done|].
  rewrite reject_if_false.
  destruct (negb (input_is_real_double c)); [done|].
  rewrite reject_if_false.
  destruct (n_bins_of c <=? 2); [done|].
  rewrite reject_if_false.
  destruct (_ >=? win_len_of c); [done|].
  rewrite reject_if_false.
  unfold mbind, mex_bind, mxCreateDoubleMatrix, mret, mex_ret. cbv zeta.
  destruct (tswHist_mx.min_max _ _) as [min_val max_val].
  destruct (tswHist_mx_h.tswHistSlidingWindow _ _ _ _ _ _ _ _ _ _).
  eexists. reflexivity.
Qed.

(** Both gateways reject every call whose converted [n_bins] is at most 2
    and every call whose converted [stride] is at least its converted
    [win_len] (equality included): the call leaves through
    [mexErrMsgIdAndTxt] with an empty trace, that is before any output matrix
    is requested and before any binning.  When the argument count and the
    input type are acceptable the error is [badBins] in the first case and
    [strideWin] in the second. *)
Lemma gateways_reject_converted fl c :
  n_bins_of c <= 2 \/ win_len_of c <= stride_of c ->
  exists e,
    run (tswHist_mx_c.mexFunction fl c) = ([], inl e) /\
    run (tswHist_mx.mexFunction fl c) = ([], inl e) /\
    (3 <= nrhs c <= 4 -> input_is_real_double c = true ->
     e = if n_bins_of c <=? 2 then badBins else strideWin).
Proof.
  intros Hbad.
  pose proof (mexFunction_c_checks fl c) as Hc.
  pose proof (mexFunction_mx_checks fl c) as Hmx.
  unfold first_failed_check in *.
  destruct ((nrhs c <? 3) || (nrhs c >? 4)) eqn:E1.
  { eexists. split; [done|]. split; [done|]. intros Hn _.
    apply orb_prop in E1 as [E%Z.ltb_lt|E%Z.gtb_lt]; lia. }
  destruct (negb (input_is_real_double c)) eqn:E2.
  { eexists. split; [done|]. split; [done|]. intros _ Hr.
    rewrite Hr in E2. discriminate. }
  destruct (n_bins_of c <=? 2) eqn:E3.
  { eexists. split; [done|]. split; [done|]. done. }
  destruct (_ >=? win_len_of c) eqn:E4.
  { eexists. split; [done|]. split; [done|]. done. }
  apply Z.leb_gt in E3. rewrite Z.geb_leb in E4. apply Z.leb_gt in E4. lia.
Qed.

(** On scalars that [mwSize] can hold the conversion changes nothing. *)
Lemma scalars_in_range c :
  0 <= n_bins_arg c < SIZE_MODULUS ->
  0 <= win_len_arg c < SIZE_MODULUS ->
  0 <= (if nrhs c >=? 4 then stride_arg c else 1) < SIZE_MODULUS ->
  n_bins_of c = n_bins_arg c /\ win_len_of c = win_len_arg c /\
  stride_of c = if nrhs c >=? 4 then stride_arg c else 1.
Proof.
  intros Hb Hw Hs. unfold n_bins_of, win_len_of, stride_of.
  rewrite !size_t_of_double_small by done.
  split; [done|]. split; [done|].
  destruct (nrhs c >=? 4); [|done]. by rewrite size_t_of_double_small.
Qed.

(** The same for the scalars as the caller gives them, when [mwSize] can
    hold them: calls with [0 <= n_bins <= 2] and calls with
    [0 <= win_len <= stride < 2^64] are rejected. *)
Lemma gateways_reject_in_range fl c :
  0 <= n_bins_arg c <= 2 \/
  (0 <= win_len_arg c <= (if nrhs c >=? 4 then stride_arg c else 1) /\
   (if nrhs c >=? 4 then stride_arg c else 1) < SIZE_MODULUS) ->
  exists e,
    run (tswHist_mx_c.mexFunction fl c) = ([], inl e) /\
    run (tswHist_mx.mexFunction fl c) = ([], inl e).
Proof.
  intros Hbad.
  destruct (gateways_reject_converted fl c) as (e & Hc & Hmx & _);
    [|by exists e].
  destruct Hbad as [Hb|Hs].
  - left. unfold n_bins_of.
    rewrite size_t_of_double_small by (unfold SIZE_MODULUS; lia). lia.
  - right. destruct Hs as [Hs Hlt]. unfold win_len_of, stride_of.
    rewrite (size_t_of_double_small (win_len_arg c)) by lia.
    destruct (nrhs c >=? 4); [|lia].
    rewrite size_t_of_double_small by lia. lia.
Qed.

(** A call that passes the four tests is not rejected, whatever its window
    length and its input length. *)
Lemma gateways_accept fl c :
  first_failed_check c = None ->
  ~ rejected (run (tswHist_mx_c.mexFunction fl c)) /\
  ~ rejected (run (tswHist_mx.mexFunction fl c)).
Proof.
  intros Hchk.
  pose proof (mexFunction_c_checks fl c) as Hc.
  pose proof (mexFunction_mx_checks fl c) as Hmx.
  rewrite Hchk in Hc, Hmx. destruct Hc as [out Hc], Hmx as [out' Hmx].
  split; intros [e He]; [rewrite Hc in He|rewrite Hmx in He]; inversion He.
Qed.

(** Such a call requests its three output matrices. *)
Lemma gateways_request fl c :
  first_failed_check c = None ->
  let nw := num_windows (Z.of_nat (length (input c))) (win_len_of c)
              (stride_of c) in
  (exists out,
     run (tswHist_mx_c.mexFunction fl c)
     = ([CreateDoubleMatrix (n_bins_of c) nw; CreateDoubleMatrix 1 nw;
         CreateDoubleMatrix 1 (size_t (n_bins_of c + 1))], inr out)) /\
  (exists out,
     run (tswHist_mx.mexFunction fl c)
     = ([CreateDoubleMatrix 1 nw;
         CreateDoubleMatrix 1 (size_t (n_bins_of c + 1));
         CreateDoubleMatrix (n_bins_of c) nw], inr out)).
Proof.
  intros Hchk.
  pose proof (mexFunction_c_checks fl c) as Hc.
  pose proof (mexFunction_mx_checks fl c) as Hmx.
  rewrite Hchk in Hc, Hmx. by split.
Qed.

Lemma first_failed_check_None c :
  3 <= nrhs c <= 4 -> input_is_real_double c = true ->
  2 < n_bins_of c -> stride_of c < win_len_of c ->
  first_failed_check c = None.
Proof.
  intros Hn Hr Hb Hs. unfold first_failed_check.
  replace ((nrhs c <? 3) || (nrhs c >? 4)) with false.
  2:{ symmetry. apply orb_false_intro; [apply Z.ltb_ge|rewrite Z.gtb_ltb;
      apply Z.ltb_ge]; lia. }
  rewrite Hr. simpl.
  replace (n_bins_of c <=? 2) with false by (symmetry; apply Z.leb_gt; lia).
  rewrite Z.geb_leb.
  by replace (win_len_of c <=? _) with false by (symmetry; apply Z.leb_gt; lia).
Qed.

(** C5 at [n_bins = -1].  The gateways test [n_bins <= 2] on the [mwSize]
    they obtain by converting the scalar, and the conversion of -1 is
    [2^64 - 1]: a call with [n_bins = -1] passes the four tests of both
    gateways and is not rejected; the C gateway goes on to request a matrix
    of [2^64 - 1] rows. *)
Theorem gateways_accept_negative_bins :
  let c := MexCall 4 true [0; 1 # 2; 1; 1 # 4]%Q (-1) 2 1 in
  let nw := num_windows (Z.of_nat (length (input c))) (win_len_of c)
              (stride_of c) in
  n_bins_arg c <= 2 /\
  n_bins_of c = 18446744073709551615 /\
  ~ rejected (run (tswHist_mx_c.mexFunction (fun q => q) c)) /\
  ~ rejected (run (tswHist_mx.mexFunction (fun q => q) c)) /\
  exists t r,
    run (tswHist_mx_c.mexFunction (fun q => q) c)
    = (CreateDoubleMatrix (n_bins_of c) nw :: t, r).
Proof.
  intros c nw.
  split; [unfold c; simpl; lia|]. split; [reflexivity|].
  split; [exact (proj1 (gateways_accept (fun q => q) c eq_refl))|].
  split; [exact (proj2 (gateways_accept (fun q => q) c eq_refl))|].
  destruct (proj1 (gateways_request (fun q => q) c eq_refl)) as [out Hrun].
  exists [CreateDoubleMatrix 1 nw;
          CreateDoubleMatrix 1 (size_t (n_bins_of c + 1))], (inr out).
  exact Hrun.
Qed.

(** C6 fails as stated: a call whose window is longer than its three
    samples, and a call with no sample at all, are not rejected. *)
Lemma gateway_window_counterexample :
  Z.of_nat (length [1 # 2; 1 # 2; 1 # 2]%Q) < 4 /\
  ~ rejected (run (tswHist_mx_c.mexFunction (fun q => q)
                     (MexCall 4 true [1 # 2; 1 # 2; 1 # 2]%Q 4 4 2))) /\
  ~ rejected (run (tswHist_mx_c.mexFunction (fun q => q)
                     (MexCall 4 true [] 4 4 2))).
Proof.
  split; [simpl; lia|]. split.
  - exact (proj1 (gateways_accept (fun q => q)
                    (MexCall 4 true [1 # 2; 1 # 2; 1 # 2]%Q 4 4 2) eq_refl)).
  - exact (proj1 (gateways_accept (fun q => q)
                    (MexCall 4 true [] 4 4 2) eq_refl)).
Qed.

(** C6, as the code has it.  Neither gateway compares [win_len] with the
    input length or tests the input for emptiness: every call with an
    acceptable argument count, a real double input, [n_bins > 2] and
    [0 < stride < win_len] (the [mwSize] values the gateway holds, for
    scalars on which the conversion is the wrap modulo 2^64) passes
    validation and requests its output matrices, whether or not the window
    fits the input.  When [win_len]
    exceeds the input length, the number of columns requested comes from the
    wrapped unsigned difference [input_len - win_len + 2^64]. *)
Theorem gateways_ignore_window_length fl c :
  3 <= nrhs c <= 4 -> input_is_real_double c = true ->
  scalars_convertible c ->
  2 < n_bins_of c ->
  0 < stride_of c < win_len_of c ->
  let stride := stride_of c in
  let input_len := Z.of_nat (length (input c)) in
  let nw := num_windows input_len (win_len_of c) stride in
  ~ rejected (run (tswHist_mx_c.mexFunction fl c)) /\
  ~ rejected (run (tswHist_mx.mexFunction fl c)) /\
  (exists out,
     run (tswHist_mx_c.mexFunction fl c)
     = ([CreateDoubleMatrix (n_bins_of c) nw; CreateDoubleMatrix 1 nw;
         CreateDoubleMatrix 1 (size_t (n_bins_of c + 1))], inr out)) /\
  (exists out,
     run (tswHist_mx.mexFunction fl c)
     = ([CreateDoubleMatrix 1 nw;
         CreateDoubleMatrix 1 (size_t (n_bins_of c + 1));
         CreateDoubleMatrix (n_bins_of c) nw], inr out)) /\
  (input_len < win_len_of c < SIZE_MODULUS ->
   nw = size_t ((input_len - win_len_of c + SIZE_MODULUS) / stride + 1)).
Proof.
  intros Hn Hr _ Hb Hs stride input_len nw.
  assert (Hchk : first_failed_check c = None).
  { apply first_failed_check_None; try done. lia. }
  destruct (gateways_accept fl c Hchk) as [Hc Hmx].
  split; [done|]. split; [done|].
  pose proof (mexFunction_c_checks fl c) as Hc'.
  pose proof (mexFunction_mx_checks fl c) as Hmx'.
  rewrite Hchk in Hc', Hmx'. split; [done|]. split; [done|].
  intros Hlong. unfold nw, num_windows. do 3 f_equal.
  apply (size_t_unique _ _ (-1)); lia.
Qed.

Lemma gateways_ignore_window_length_witness :
  let c := MexCall 4 true [1 # 2; 1 # 2; 1 # 2]%Q 4 4 2 in
  let nw := num_windows 3 4 2 in
  ~ rejected (run (tswHist_mx_c.mexFunction (fun q => q) c)) /\
  ~ rejected (run (tswHist_mx.mexFunction (fun q => q) c)) /\
  (exists out,
     run (tswHist_mx_c.mexFunction (fun q => q) c)
     = ([CreateDoubleMatrix 4 nw; CreateDoubleMatrix 1 nw;
         CreateDoubleMatrix 1 (size_t (4 + 1))], inr out)) /\
  (exists out,
     run (tswHist_mx.mexFunction (fun q => q) c)
     = ([CreateDoubleMatrix 1 nw; CreateDoubleMatrix 1 (size_t (4 + 1));
         CreateDoubleMatrix 4 nw], inr out)) /\
  (3 < 4 < SIZE_MODULUS ->
   nw = size_t ((3 - 4 + SIZE_MODULUS) / 2 + 1)).
Proof.
  apply (gateways_ignore_window_length (fun q => q)
           (MexCall 4 true [1 # 2; 1 # 2; 1 # 2]%Q 4 4 2)).
  - simpl. lia.
  - reflexivity.
  - by vm_compute.
  - by vm_compute.
  - by vm_compute.
Defined.

(** ** Constant input in the range-normalising gateway *)

Lemma faithful_rounding_proper fl x y :
  faithful_rounding fl -> (x == y)%Q -> (fl x == fl y)%Q.
Proof.
  intros [Hmono _] Hxy.
  apply Qle_antisym; apply Hmono; apply Qeq_Qle; [done|by symmetry].
Qed.

Lemma faithful_rounding_zero fl x :
  faithful_rounding fl -> (x == 0)%Q -> (fl x == 0)%Q.
Proof.
  intros Hfl Hx. apply Qeq_trans with (fl (inject_Z 0)).
  - by apply faithful_rounding_proper.
  - by apply (proj2 Hfl 0).
Qed.

(** On an input whose samples all equal [x], the scan ends with
    [min_val] and [max_val] equal to [x]. *)
Lemma min_max_constant input x :
  input <> [] -> Forall (fun v => (v == x)%Q) input ->
  let '(min_val, max_val) :=
    tswHist_mx.min_max input (Z.of_nat (length input)) in
  (min_val == x)%Q /\ (max_val == x)%Q.
Proof.
  intros Hne Hall. unfold tswHist_mx.min_max.
  assert (Hrd : forall i, 0 <= i < Z.of_nat (length input) ->
                  (rd input i == x)%Q).
  { intros i Hi. destruct (lookup_lt_is_Some_2 input (Z.to_nat i) ltac:(lia))
      as [v Hv].
    rewrite (rd_lookup _ _ _ Hv).
    by apply (proj1 (Forall_lookup _ _) Hall (Z.to_nat i)). }
  assert (Hlen : 1 <= Z.of_nat (length input)).
  { destruct input; [done|simpl; lia]. }
  apply (for_range_ind (fun _ (st : Q * Q) =>
    let '(min_val, max_val) := st in (min_val == x)%Q /\ (max_val == x)%Q)
    1 (Z.of_nat (length input)) _ _ Hlen).
  - split; apply Hrd; lia.
  - intros i [min_val max_val] Hi [Hmin Hmax].
    split; destruct (negb _); try done; apply Hrd; lia.
Qed.

Lemma DBL_MAX_ge_1 : (1 <= DBL_MAX)%Q.
Proof. by vm_compute. Qed.

Lemma DBL_MAX_nonneg : (0 <= DBL_MAX)%Q.
Proof. by vm_compute. Qed.

Lemma DBL_MAX_opp_nonpos : (- DBL_MAX <= 0)%Q.
Proof. by vm_compute. Qed.

(** A rounded result within the range of the doubles is delivered as it
    is; one beyond [DBL_MAX] is delivered as [+inf]. *)
Lemma rnd_finite fl q :
  (- DBL_MAX <= fl q)%Q -> (fl q <= DBL_MAX)%Q -> rnd fl q = Finite (fl q).
Proof.
  intros H1%Qle_bool_iff H2%Qle_bool_iff. unfold rnd. cbv zeta.
  by rewrite H2, H1.
Qed.

Lemma rnd_overflow fl q : (DBL_MAX < fl q)%Q -> rnd fl q = Infinite false.
Proof.
  intros H. unfold rnd. cbv zeta.
  destruct (Qle_bool (fl q) DBL_MAX) eqn:E; [|done].
  apply Qle_bool_iff in E. exfalso. by apply (Qlt_not_le _ _ H).
Qed.

Lemma rnd_nonneg fl q :
  (0 <= fl q)%Q -> (fl q <= DBL_MAX)%Q -> rnd fl q = Finite (fl q).
Proof.
  intros H0 H1. apply rnd_finite; [|done].
  by apply Qle_trans with 0%Q; [apply DBL_MAX_opp_nonpos|].
Qed.

Lemma rnd_zero fl q : (fl q == 0)%Q -> rnd fl q = Finite (fl q).
Proof.
  intros H. apply rnd_nonneg.
  - apply Qeq_Qle. by symmetry.
  - apply Qle_trans with 0%Q; [by apply Qeq_Qle|apply DBL_MAX_nonneg].
Qed.

Lemma normalize_constant fl min_val max_val value x :
  faithful_rounding fl ->
  (min_val == x)%Q -> (max_val == x)%Q -> (value == x)%Q ->
  tswHist_mx.normalize fl min_val max_val value = NaN.
Proof.
  intros Hfl Hmin Hmax Hv. unfold tswHist_mx.normalize, fsub.
  assert (Hden : (fl (max_val - min_val) == 0)%Q).
  { apply faithful_rounding_zero; [done|]. rewrite Hmin, Hmax. ring. }
  assert (Hnum : (fl (value - min_val) == 0)%Q).
  { apply faithful_rounding_zero; [done|]. rewrite Hmin, Hv. ring. }
  rewrite !rnd_zero by done. unfold fdiv.
  apply Qeq_bool_iff in Hden, Hnum. by rewrite Hden, Hnum.
Qed.



(** * Further properties of the code *)

(** ** The outputs of [tswHist] *)

Lemma tswHist_outputs fl input input_len n_bins win_len stride
    histMat loci edges :
  let nw := num_windows input_len win_len stride in
  let data := tswHist_h.fill_input_int fl input input_len n_bins in
  let B0 := tswHist_h.pushHist (calloc n_bins) data win_len n_bins in
  let M0 := for_range 0 n_bins (fun b histMat => wr histMat b (rd B0 b)) histMat in
  tswHist_h.tswHist fl input input_len n_bins win_len stride histMat loci edges
  = ((for_range 1 nw
        (sliding_step tswHist_h.pushHist tswHist_h.popHist data
           (tswHist_h.fill_loci loci nw stride) (tswHist_h.fill_offsets stride)
           win_len n_bins stride input_len) (M0, B0)).1,
     tswHist_h.fill_loci loci nw stride,
     tswHist_h.fill_edges fl edges n_bins).
Proof.
  intros nw data B0 M0.
  unfold tswHist_h.tswHist, tswHist_h.tswHistSlidingWindow, sliding_window.
  fold nw data B0 M0. by destruct (for_range 1 nw _ _).
Qed.

Lemma fill_loci_progression buf input_len n_bins win_len stride :
  valid_config input_len n_bins win_len stride ->
  Z.of_nat (length buf) = num_windows input_len win_len stride ->
  tswHist_h.fill_loci buf (num_windows input_len win_len stride) stride
  = loci_progression (num_windows input_len win_len stride) stride.
Proof.
  intros Hv Hlen. pose proof (num_windows_pos _ _ _ _ Hv) as Hnw.
  unfold tswHist_h.fill_loci, loci_progression.
  destruct (for_range_fill0 (fun i => size_t (size_t (i * stride) + 1))
              (num_windows input_len win_len stride) buf) as (Hl & Hfill & _);
    [lia|].
  apply list_eq. intros k. rewrite list_lookup_fmap.
  destruct (decide (Z.of_nat k < num_windows input_len win_len stride))
    as [Hk|Hk].
  - specialize (Hfill (Z.of_nat k) ltac:(lia) ltac:(lia)).
    rewrite Nat2Z.id in Hfill. rewrite Hfill, lookup_seqZ_lt by done. simpl.
    pose proof (window_in_range _ _ _ _ (Z.of_nat k) Hv ltac:(lia)) as Hin.
    destruct Hv as (_ & Hs & Hsl & Hl' & Hn).
    rewrite (size_t_small (Z.of_nat k * stride)) by nia.
    rewrite size_t_small by nia. f_equal.
  - rewrite lookup_seqZ_ge by lia. apply lookup_ge_None. lia.
Qed.

(** X1.  In every valid configuration, given a buffer of [num_windows]
    entries, [tswHist] reports the window loci 1, 1 + stride,
    1 + 2*stride, ...: entry [w] is [w * stride + 1]. *)
Theorem tswHist_loci fl input input_len n_bins win_len stride
    histMat loci edges :
  valid_config input_len n_bins win_len stride ->
  Z.of_nat (length loci) = num_windows input_len win_len stride ->
  (tswHist_h.tswHist fl input input_len n_bins win_len stride
     histMat loci edges).1.2
  = loci_progression (num_windows input_len win_len stride) stride.
Proof.
  intros Hv Hlen. rewrite tswHist_outputs. simpl.
  by apply (fill_loci_progression _ _ n_bins).
Qed.

Lemma tswHist_loci_witness :
  (tswHist_h.tswHist (fun q => q)
     [0; 1 # 10; 1 # 4; 4 # 10; 55 # 100; 7 # 10; 85 # 100; 95 # 100]%Q
     8 4 4 2 (replicate 12 0) (replicate 3 0) (replicate 5 (Finite 0%Q))).1.2
  = loci_progression (num_windows 8 4 2) 2.
Proof.
  apply tswHist_loci.
  - unfold valid_config, SIZE_MODULUS. lia.
  - reflexivity.
Defined.

(** Entry [i] of the output matrix, for every position of the matrix. *)
Lemma tswHist_entry fl input input_len n_bins win_len stride
    histMat loci edges (i : nat) :
  valid_config input_len n_bins win_len stride ->
  Z.of_nat (length input) = input_len ->
  matrix_buffer histMat n_bins (num_windows input_len win_len stride) ->
  Z.of_nat (length loci) = num_windows input_len win_len stride ->
  (tswHist_h.tswHist fl input input_len n_bins win_len stride
     histMat loci edges).1.1 !! i
  = if decide (i < length histMat)%nat
    then Some (engine_tally n_bins (binned fl input n_bins) win_len stride
                 (Z.to_nat (Z.of_nat i / n_bins))
                 (Z.to_nat (Z.of_nat i mod n_bins)))
    else None.
Proof.
  intros Hv Hlen Hmat Hloci.
  destruct (tswHist_tally fl input input_len n_bins win_len stride
              histMat loci edges Hv Hlen Hmat Hloci) as (HlenM & Hcol).
  pose proof Hmat as (Hn0 & Hnw0 & HlenH & Hfit).
  pose proof Hv as ((Hn & _) & _).
  case_decide as Hi.
  - pose proof (Z.div_mod (Z.of_nat i) n_bins ltac:(lia)) as Hdm.
    pose proof (Z.mod_pos_bound (Z.of_nat i) n_bins ltac:(lia)) as Hmod.
    assert (Hw : 0 <= Z.of_nat i / n_bins
                 < num_windows input_len win_len stride).
    { split; [apply Z.div_pos; lia|]. apply Z.div_lt_upper_bound; lia. }
    specialize (Hcol (Z.of_nat i / n_bins)
                  (Z.to_nat (Z.of_nat i mod n_bins)) Hw ltac:(lia)).
    rewrite <-Hcol. f_equal. lia.
  - apply lookup_ge_None. lia.
Qed.

Lemma fill_edges_lookup fl edges n_bins (k : nat) :
  0 <= n_bins ->
  tswHist_h.fill_edges fl edges n_bins !! k
  = if decide (k < length edges)%nat
    then if decide (Z.of_nat k <= n_bins)
         then Some (dmul fl (ddiv fl (inject_Z (Z.of_nat k)) (inject_Z n_bins)) 1%Q)
         else edges !! k
    else None.
Proof.
  intros Hn. unfold tswHist_h.fill_edges.
  destruct (for_range_fill0
              (fun i => dmul fl (ddiv fl (inject_Z i) (inject_Z n_bins)) 1%Q)
              (n_bins + 1) edges) as (Hl & Hin & Hout); [lia|].
  case_decide as Hk.
  - case_decide as Hk'.
    + specialize (Hin (Z.of_nat k) ltac:(lia) ltac:(lia)).
      by rewrite Nat2Z.id in Hin.
    + apply Hout. lia.
  - apply lookup_ge_None. lia.
Qed.

(** X2.  In every valid configuration [tswHist] overwrites its three output
    buffers completely: called on an [n_bins] by [num_windows] matrix, a
    loci buffer of [num_windows] entries and an edge buffer of [n_bins + 1]
    entries, its outputs do not depend on what the buffers held. *)
Theorem tswHist_overwrites_buffers fl input input_len n_bins win_len stride
    histMat histMat' loci loci' (edges edges' : list double) :
  valid_config input_len n_bins win_len stride ->
  Z.of_nat (length input) = input_len ->
  matrix_buffer histMat n_bins (num_windows input_len win_len stride) ->
  matrix_buffer histMat' n_bins (num_windows input_len win_len stride) ->
  Z.of_nat (length loci) = num_windows input_len win_len stride ->
  Z.of_nat (length loci') = num_windows input_len win_len stride ->
  Z.of_nat (length edges) = n_bins + 1 ->
  Z.of_nat (length edges') = n_bins + 1 ->
  tswHist_h.tswHist fl input input_len n_bins win_len stride
    histMat loci edges
  = tswHist_h.tswHist fl input input_len n_bins win_len stride
      histMat' loci' edges'.
Proof.
  intros Hv Hlen Hmat Hmat' Hloci Hloci' Hedges Hedges'.
  pose proof Hv as ((Hn & _) & _).
  assert (HlenM : length histMat = length histMat').
  { destruct Hmat as (_ & _ & H1 & _), Hmat' as (_ & _ & H2 & _). lia. }
  assert (H1 : (tswHist_h.tswHist fl input input_len n_bins win_len stride
                  histMat loci edges).1.1
               = (tswHist_h.tswHist fl input input_len n_bins win_len stride
                    histMat' loci' edges').1.1).
  { apply list_eq. intros i. rewrite !tswHist_entry by done.
    by rewrite HlenM. }
  assert (H2 : (tswHist_h.tswHist fl input input_len n_bins win_len stride
                  histMat loci edges).1.2
               = (tswHist_h.tswHist fl input input_len n_bins win_len stride
                    histMat' loci' edges').1.2).
  { rewrite !tswHist_outputs. simpl.
    by rewrite !(fill_loci_progression _ _ n_bins) by done. }
  assert (H3 : (tswHist_h.tswHist fl input input_len n_bins win_len stride
                  histMat loci edges).2
               = (tswHist_h.tswHist fl input input_len n_bins win_len stride
                    histMat' loci' edges').2).
  { rewrite !tswHist_outputs. simpl. apply list_eq. intros k.
    rewrite !fill_edges_lookup by lia.
    repeat case_decide; try done; lia. }
  destruct (tswHist_h.tswHist _ _ _ _ _ _ histMat _ _) as [[? ?] ?].
  destruct (tswHist_h.tswHist _ _ _ _ _ _ histMat' _ _) as [[? ?] ?].
  simpl in *. congruence.
Qed.

Lemma tswHist_overwrites_buffers_witness :
  tswHist_h.tswHist (fun q => q) [0; 1 # 2; 1; 1 # 4]%Q 4 3 2 1
    (replicate 9 0) (replicate 3 0) (replicate 4 (Finite 0%Q))
  = tswHist_h.tswHist (fun q => q) [0; 1 # 2; 1; 1 # 4]%Q 4 3 2 1
      (replicate 9 7) (replicate 3 5) (replicate 4 NaN).
Proof.
  apply tswHist_overwrites_buffers.
  - unfold valid_config, SIZE_MODULUS. lia.
  - reflexivity.
  - change (num_windows 4 2 1) with 3.
    unfold matrix_buffer, SIZE_MODULUS. simpl. lia.
  - change (num_windows 4 2 1) with 3.
    unfold matrix_buffer, SIZE_MODULUS. simpl. lia.
  - reflexivity.
  - reflexivity.
  - reflexivity.
  - reflexivity.
Defined.

Lemma sumZ_indicator_bounds {A : Type} (f : A -> bool) (l : list A) :
  0 <= sumZ ((fun x => if f x then 1 else 0) <$> l) <= Z.of_nat (length l).
Proof.
  induction l as [|x l IH]; [simpl; lia|].
  rewrite fmap_cons. change (length (x :: l)) with (S (length l)).
  unfold sumZ in *. cbn [foldr]. destruct (f x); lia.
Qed.

Lemma tally_bounds guard data k :
  0 <= tally guard data k <= Z.of_nat (length data).
Proof.
  unfold tally, hit.
  apply (sumZ_indicator_bounds
           (fun d => guard (int_of_double d)
                     && bool_decide (Z.to_nat (int_of_double d) = k))).
Qed.

(** X3.  In every valid configuration whose bin count fits [int], every
    entry of the output matrix is a count between 0 and [win_len]. *)
Theorem tswHist_entries_bounded fl input input_len n_bins win_len stride
    histMat loci edges :
  valid_config input_len n_bins win_len stride ->
  n_bins <= INT_MAX ->
  Z.of_nat (length input) = input_len ->
  matrix_buffer histMat n_bins (num_windows input_len win_len stride) ->
  Z.of_nat (length loci) = num_windows input_len win_len stride ->
  Forall (fun c => 0 <= c <= win_len)
    (tswHist_h.tswHist fl input input_len n_bins win_len stride
       histMat loci edges).1.1.
Proof.
  intros Hv Hint Hlen Hmat Hloci.
  pose proof Hv as ((Hn & _) & Hs & Hsl & _).
  apply Forall_lookup. intros i c Hi.
  rewrite tswHist_entry in Hi by done. case_decide; [|done].
  injection Hi as <-. rewrite engine_tally_window by lia.
  match goal with |- 0 <= tally ?g ?d ?k <= _ =>
    pose proof (tally_bounds g d k) as Hb end.
  rewrite length_take in Hb. lia.
Qed.

Lemma tswHist_entries_bounded_witness :
  Forall (fun c => 0 <= c <= 2)
    (tswHist_h.tswHist (fun q => q) [0; 1 # 2; 1; 1 # 4]%Q 4 3 2 1
       (replicate 9 0) (replicate 3 0) (replicate 4 (Finite 0%Q))).1.1.
Proof.
  apply tswHist_entries_bounded.
  - unfold valid_config, SIZE_MODULUS. lia.
  - unfold INT_MAX. lia.
  - reflexivity.
  - change (num_windows 4 2 1) with 3.
    unfold matrix_buffer, SIZE_MODULUS. simpl. lia.
  - reflexivity.
Defined.

(** ** The bin edges *)

Lemma inject_Z_pos_neq0 n : 0 < n -> ~ (inject_Z n == 0)%Q.
Proof. intros Hn H. unfold Qeq in H. simpl in H. lia. Qed.

Lemma faithful_rounding_one fl x :
  faithful_rounding fl -> (x == 1)%Q -> (fl x == 1)%Q.
Proof.
  intros Hfl Hx. apply Qeq_trans with (fl (inject_Z 1)).
  - by apply faithful_rounding_proper.
  - by apply (proj2 Hfl 1).
Qed.

Lemma unit_edge_mono fl n_bins i j :
  faithful_rounding fl -> 0 < n_bins -> i <= j ->
  (unit_edge fl n_bins i <= unit_edge fl n_bins j)%Q.
Proof.
  intros Hfl Hn Hij. pose proof Hfl as [Hmono _]. unfold unit_edge.
  apply Hmono. apply Qmult_le_compat_r; [|discriminate].
  apply Hmono. unfold Qdiv. apply Qmult_le_compat_r.
  - by rewrite <-Zle_Qle.
  - apply Qinv_le_0_compat. change 0%Q with (inject_Z 0).
    rewrite <-Zle_Qle. lia.
Qed.

Lemma unit_edge_first fl n_bins :
  faithful_rounding fl -> (unit_edge fl n_bins 0 == 0)%Q.
Proof.
  intros Hfl. unfold unit_edge. apply faithful_rounding_zero; [done|].
  rewrite Qmult_1_r. apply faithful_rounding_zero; [done|].
  unfold Qdiv. apply Qmult_0_l.
Qed.

Lemma unit_edge_last fl n_bins :
  faithful_rounding fl -> 0 < n_bins -> (unit_edge fl n_bins n_bins == 1)%Q.
Proof.
  intros Hfl Hn. unfold unit_edge. apply faithful_rounding_one; [done|].
  rewrite Qmult_1_r. apply faithful_rounding_one; [done|].
  unfold Qdiv. apply Qmult_inv_r. by apply inject_Z_pos_neq0.
Qed.

(** X4.  For a positive bin count and an edge buffer of [n_bins + 1]
    entries, the edges [tswHist] reports are all finite; under a faithful
    rounding the first is 0, the last is 1 and they never decrease. *)
Theorem tswHist_edges fl input input_len n_bins win_len stride
    histMat loci (edges : list double) :
  faithful_rounding fl -> 0 < n_bins ->
  Z.of_nat (length edges) = n_bins + 1 ->
  (tswHist_h.tswHist fl input input_len n_bins win_len stride
     histMat loci edges).2
  = (fun i => Finite (unit_edge fl n_bins i)) <$> seqZ 0 (n_bins + 1) /\
  (unit_edge fl n_bins 0 == 0)%Q /\
  (unit_edge fl n_bins n_bins == 1)%Q /\
  (forall i j, i <= j ->
     (unit_edge fl n_bins i <= unit_edge fl n_bins j)%Q).
Proof.
  intros Hfl Hn Hlen.
  split; [|split; [by apply unit_edge_first|split;
                   [by apply unit_edge_last|intros; by apply unit_edge_mono]]].
  rewrite tswHist_outputs. simpl. apply list_eq. intros k.
  rewrite fill_edges_lookup by lia. rewrite list_lookup_fmap.
  case_decide as Hk.
  - rewrite decide_True by lia. rewrite lookup_seqZ_lt by lia. simpl.
    f_equal. unfold ddiv.
    destruct (Qeq_bool (inject_Z n_bins) 0) eqn:E.
    + apply Qeq_bool_iff in E. by apply inject_Z_pos_neq0 in E.
    + done.
  - by rewrite lookup_seqZ_ge by lia.
Qed.

Lemma tswHist_edges_witness :
  (tswHist_h.tswHist (fun q => q) [0; 1 # 2; 1; 1 # 4]%Q 4 3 2 1
     (replicate 9 0) (replicate 3 0) (replicate 4 (Finite 0%Q))).2
  = (fun i => Finite (unit_edge (fun q => q) 3 i)) <$> seqZ 0 (3 + 1) /\
  (unit_edge (fun q => q) 3 0 == 0)%Q /\
  (unit_edge (fun q => q) 3 3 == 1)%Q /\
  (forall i j, i <= j ->
     (unit_edge (fun q => q) 3 i <= unit_edge (fun q => q) 3 j)%Q).
Proof.
  apply (tswHist_edges (fun q => q) [0; 1 # 2; 1; 1 # 4]%Q 4 3 2 1
           (replicate 9 0) (replicate 3 0) (replicate 4 (Finite 0%Q))).
  - apply exact_rounding_faithful.
  - lia.
  - reflexivity.
Defined.

(** ** Algebra of the accumulator updates *)

Lemma bump_ext delta guard guard' hist_vec data :
  (forall bin, guard bin = guard' bin) ->
  bump delta guard hist_vec data = bump delta guard' hist_vec data.
Proof.
  intros Hg. revert hist_vec.
  induction data as [|d data IH]; intros hist_vec; [done|].
  simpl. rewrite Hg. apply IH.
Qed.

Lemma bump_no_hit delta guard hist_vec data :
  Forall (fun d => guard (int_of_double d) = false) data ->
  bump delta guard hist_vec data = hist_vec.
Proof.
  intros Hall. induction Hall as [|d data Hd _ IH]; [done|].
  simpl. by rewrite Hd.
Qed.

Lemma push_guard_out_of_range n_bins d :
  d < 0 \/ n_bins <= d -> push_guard n_bins (int_of_double d) = false.
Proof.
  intros Hd. unfold push_guard, int_of_double.
  destruct ((INT_MIN <=? d) && (d <=? INT_MAX)) eqn:E.
  - apply andb_false_iff. destruct Hd; [left; apply Z.leb_gt|right; apply Z.ltb_ge]; lia.
  - done.
Qed.

Lemma pop_guard_out_of_range n_bins d :
  0 <= n_bins -> d < 0 \/ n_bins <= d ->
  pop_guard n_bins (int_of_double d) = false.
Proof.
  intros Hn Hd. unfold pop_guard, int_of_double.
  pose proof (int_of_size_t_le n_bins Hn).
  destruct ((INT_MIN <=? d) && (d <=? INT_MAX)) eqn:E.
  - apply andb_false_iff. destruct Hd; [left; apply Z.leb_gt|right; apply Z.ltb_ge]; lia.
  - done.
Qed.

(** X5.  Indices outside [0, n_bins) are silently ignored: a batch made
    only of such indices leaves the accumulator as it was, for [pushHist]
    and [popHist] of both headers. *)
Theorem out_of_range_indices_ignored hist_vec data len n_bins :
  0 <= n_bins ->
  Forall (fun d => d < 0 \/ n_bins <= d) data ->
  tswHist_h.pushHist hist_vec data len n_bins = hist_vec /\
  tswHist_h.popHist hist_vec data len n_bins = hist_vec /\
  tswHist_mx_h.pushHist hist_vec data len n_bins = hist_vec /\
  tswHist_mx_h.popHist hist_vec data len n_bins = hist_vec.
Proof.
  intros Hn Hall.
  assert (Hpush : Forall (fun d => push_guard n_bins (int_of_double d) = false)
                    (take (Z.to_nat len) data)).
  { apply Forall_take. eapply Forall_impl; [exact Hall|].
    intros d Hd. by apply push_guard_out_of_range. }
  assert (Hpop : Forall (fun d => pop_guard n_bins (int_of_double d) = false)
                   (take (Z.to_nat len) data)).
  { apply Forall_take. eapply Forall_impl; [exact Hall|].
    intros d Hd. by apply pop_guard_out_of_range. }
  rewrite pushHist_bump, popHist_bump, pushHist_mx_bump, popHist_mx_bump.
  by rewrite !bump_no_hit.
Qed.

Lemma out_of_range_indices_ignored_witness :
  tswHist_h.pushHist [1; 2; 3] [-1; 3; 7] 3 3 = [1; 2; 3] /\
  tswHist_h.popHist [1; 2; 3] [-1; 3; 7] 3 3 = [1; 2; 3] /\
  tswHist_mx_h.pushHist [1; 2; 3] [-1; 3; 7] 3 3 = [1; 2; 3] /\
  tswHist_mx_h.popHist [1; 2; 3] [-1; 3; 7] 3 3 = [1; 2; 3].
Proof.
  apply out_of_range_indices_ignored; [lia|].
  repeat (constructor; [lia|]). constructor.
Defined.

Lemma tally_Permutation guard data data' k :
  data ≡ₚ data' -> tally guard data k = tally guard data' k.
Proof.
  intros Hp. induction Hp as [|d l l' _ IH|d d' l|l l' l'' _ IH1 _ IH2].
  - done.
  - by rewrite !tally_cons, IH.
  - rewrite !tally_cons. lia.
  - congruence.
Qed.

Lemma bump_Permutation delta guard hist_vec data data' :
  data ≡ₚ data' ->
  bump delta guard hist_vec data = bump delta guard hist_vec data'.
Proof.
  intros Hp. apply list_eq. intros k.
  by rewrite !bump_lookup, (tally_Permutation _ _ _ _ Hp).
Qed.

(** X6.  The result of a batch does not depend on the order of its
    indices: [pushHist] and [popHist] give the same accumulator on any two
    arrangements of the same indices. *)
Theorem batch_order_irrelevant hist_vec data data' n_bins :
  data ≡ₚ data' ->
  tswHist_h.pushHist hist_vec data (Z.of_nat (length data)) n_bins
  = tswHist_h.pushHist hist_vec data' (Z.of_nat (length data')) n_bins /\
  tswHist_h.popHist hist_vec data (Z.of_nat (length data)) n_bins
  = tswHist_h.popHist hist_vec data' (Z.of_nat (length data')) n_bins.
Proof.
  intros Hp. rewrite !pushHist_bump, !popHist_bump.
  rewrite !Nat2Z.id, !firstn_all. split; by apply bump_Permutation.
Qed.

Lemma batch_order_irrelevant_witness :
  tswHist_h.pushHist [0; 0; 0] [2; 0; 2] (Z.of_nat (length [2; 0; 2])) 3
  = tswHist_h.pushHist [0; 0; 0] [0; 2; 2] (Z.of_nat (length [0; 2; 2])) 3 /\
  tswHist_h.popHist [0; 0; 0] [2; 0; 2] (Z.of_nat (length [2; 0; 2])) 3
  = tswHist_h.popHist [0; 0; 0] [0; 2; 2] (Z.of_nat (length [0; 2; 2])) 3.
Proof.
  apply (batch_order_irrelevant [0; 0; 0] [2; 0; 2] [0; 2; 2] 3).
  apply Permutation_swap.
Defined.

(** X7.  A batch can be applied in pieces: pushing (or popping) the first
    [len1] indices and then the next [len2] is pushing (popping) the first
    [len1 + len2] at once. *)
Theorem batch_in_pieces hist_vec data len1 len2 n_bins :
  0 <= len1 -> 0 <= len2 ->
  tswHist_h.pushHist
    (tswHist_h.pushHist hist_vec data len1 n_bins)
    (ptr_add data len1) len2 n_bins
  = tswHist_h.pushHist hist_vec data (len1 + len2) n_bins /\
  tswHist_h.popHist
    (tswHist_h.popHist hist_vec data len1 n_bins)
    (ptr_add data len1) len2 n_bins
  = tswHist_h.popHist hist_vec data (len1 + len2) n_bins.
Proof.
  intros H1 H2. rewrite !pushHist_bump, !popHist_bump. unfold ptr_add.
  rewrite <-!bump_app, !take_take_drop.
  by replace (Z.to_nat len1 + Z.to_nat len2)%nat
    with (Z.to_nat (len1 + len2)) by lia.
Qed.

Lemma batch_in_pieces_witness :
  tswHist_h.pushHist
    (tswHist_h.pushHist [0; 0; 0] [2; 0; 2; 1] 1 3)
    (ptr_add [2; 0; 2; 1] 1) 2 3
  = tswHist_h.pushHist [0; 0; 0] [2; 0; 2; 1] (1 + 2) 3 /\
  tswHist_h.popHist
    (tswHist_h.popHist [0; 0; 0] [2; 0; 2; 1] 1 3)
    (ptr_add [2; 0; 2; 1] 1) 2 3
  = tswHist_h.popHist [0; 0; 0] [2; 0; 2; 1] (1 + 2) 3.
Proof. apply (batch_in_pieces [0; 0; 0] [2; 0; 2; 1] 1 2 3); lia. Defined.


(** ** Counting on a zeroed accumulator *)

Lemma hit_count n_bins (k : nat) d :
  0 <= n_bins <= INT_MAX -> Z.of_nat k < n_bins ->
  hit (push_guard n_bins) k d = if decide (d = Z.of_nat k) then 1 else 0.
Proof.
  intros Hn Hk. unfold hit, push_guard, int_of_double. cbv zeta.
  destruct ((INT_MIN <=? d) && (d <=? INT_MAX)) eqn:E.
  - case_decide as Hd.
    + subst d. rewrite bool_decide_eq_true_2 by lia.
      replace (0 <=? Z.of_nat k) with true by (symmetry; apply Z.leb_le; lia).
      by replace (Z.of_nat k <? n_bins) with true
        by (symmetry; apply Z.ltb_lt; lia).
    + destruct ((0 <=? d) && (d <? n_bins)) eqn:G; [|done]. simpl.
      apply andb_prop in G as [G1%Z.leb_le G2%Z.ltb_lt].
      rewrite bool_decide_eq_false_2; [done|]. lia.
  - replace (0 <=? INT_MIN) with false by done. simpl.
    case_decide as Hd; [|done]. subst d.
    apply andb_false_iff in E as [E%Z.leb_gt|E%Z.leb_gt];
      unfold INT_MIN, INT_MAX in *; lia.
Qed.

Lemma tally_count n_bins data (k : nat) :
  0 <= n_bins <= INT_MAX -> Z.of_nat k < n_bins ->
  tally (push_guard n_bins) data k
  = Z.of_nat (length (filter (fun d => d = Z.of_nat k) data)).
Proof.
  intros Hn Hk. induction data as [|d data IH]; [done|].
  rewrite tally_cons, IH, hit_count by done.
  rewrite filter_cons. case_decide; simpl; lia.
Qed.

Lemma passing_count n_bins data :
  0 <= n_bins <= INT_MAX ->
  passing (push_guard n_bins) data
  = Z.of_nat (length (filter (fun d => 0 <= d < n_bins) data)).
Proof.
  intros Hn. induction data as [|d data IH]; [done|].
  unfold passing in *. rewrite fmap_cons. unfold sumZ in *. cbn [foldr].
  rewrite IH, filter_cons. unfold push_guard, int_of_double.
  destruct ((INT_MIN <=? d) && (d <=? INT_MAX)) eqn:E.
  - case_decide as Hd.
    + replace (0 <=? d) with true by (symmetry; apply Z.leb_le; lia).
      replace (d <? n_bins) with true by (symmetry; apply Z.ltb_lt; lia).
      simpl. lia.
    + destruct ((0 <=? d) && (d <? n_bins)) eqn:G; [|lia].
      apply andb_prop in G as [G1%Z.leb_le G2%Z.ltb_lt]. lia.
  - replace (0 <=? INT_MIN) with false by done. simpl.
    case_decide as Hd; [|lia].
    apply andb_false_iff in E as [E%Z.leb_gt|E%Z.leb_gt];
      unfold INT_MIN, INT_MAX in *; lia.
Qed.

Lemma count_histogram_lookup bins n_bins start win_len (k : nat) :
  count_histogram bins n_bins start win_len !! k
  = if decide (Z.of_nat k < n_bins)
    then Some (Z.of_nat (length (filter (fun d => d = Z.of_nat k)
           (take (Z.to_nat win_len) (drop (Z.to_nat start) bins)))))
    else None.
Proof.
  unfold count_histogram. rewrite list_lookup_fmap. case_decide.
  - by rewrite lookup_seqZ_lt by done.
  - by rewrite lookup_seqZ_ge by lia.
Qed.

Lemma pushHist_zeroed_lookup data len n_bins (k : nat) :
  0 <= n_bins <= INT_MAX ->
  tswHist_h.pushHist (calloc n_bins) data len n_bins !! k
  = count_histogram data n_bins 0 len !! k.
Proof.
  intros Hn. rewrite pushHist_bump, bump_lookup, count_histogram_lookup.
  case_decide as Hk.
  - rewrite calloc_lookup by done. change (drop (Z.to_nat 0) data) with data.
    rewrite <-(tally_count n_bins) by done. simpl. f_equal. ring.
  - unfold calloc. rewrite (proj1 (lookup_replicate_None _ _ _)) by lia. done.
Qed.

Lemma pushHist_mx_eq hist_vec data len n_bins :
  0 <= n_bins <= INT_MAX ->
  tswHist_mx_h.pushHist hist_vec data len n_bins
  = tswHist_h.pushHist hist_vec data len n_bins.
Proof.
  intros Hn. rewrite pushHist_mx_bump, pushHist_bump.
  apply bump_ext. intros bin. by apply pop_guard_push_guard.
Qed.

Lemma pushHist_zeroed_eq data len n_bins :
  0 <= n_bins <= INT_MAX ->
  tswHist_h.pushHist (calloc n_bins) data len n_bins
  = count_histogram data n_bins 0 len.
Proof. intros Hn. apply list_eq. intros k. by apply pushHist_zeroed_lookup. Qed.

Lemma pushHist_zeroed_sum data len n_bins :
  0 <= n_bins <= INT_MAX ->
  sumZ (tswHist_h.pushHist (calloc n_bins) data len n_bins)
  = Z.of_nat (length (filter (fun d => 0 <= d < n_bins)
                        (take (Z.to_nat len) data))).
Proof.
  intros Hn. rewrite <-passing_count by done.
  rewrite <-(sum_upto_tally _ _ (Z.to_nat n_bins))
    by (intros bin Hb%push_guard_range; lia).
  apply sumZ_lookup.
  - rewrite pushHist_bump, length_bump. unfold calloc.
    by rewrite length_replicate.
  - intros k Hk. rewrite pushHist_bump, bump_lookup, calloc_lookup by lia.
    simpl. f_equal. lia.
Qed.

(** X9.  On a zeroed accumulator of [n_bins <= INT_MAX] entries, [pushHist]
    (of either header) over the first [len] indices yields their histogram:
    entry [b] is the number of indices equal to [b], and the entries sum to
    the number of indices that lie in [0, n_bins). *)
Theorem pushHist_counts data len n_bins :
  0 <= n_bins <= INT_MAX ->
  tswHist_h.pushHist (calloc n_bins) data len n_bins
  = count_histogram data n_bins 0 len /\
  tswHist_mx_h.pushHist (calloc n_bins) data len n_bins
  = count_histogram data n_bins 0 len /\
  sumZ (tswHist_h.pushHist (calloc n_bins) data len n_bins)
  = Z.of_nat (length (filter (fun d => 0 <= d < n_bins)
                        (take (Z.to_nat len) data))).
Proof.
  intros Hn. split; [by apply pushHist_zeroed_eq|].
  split; [by rewrite pushHist_mx_eq, pushHist_zeroed_eq|].
  by apply pushHist_zeroed_sum.
Qed.

Lemma pushHist_counts_witness :
  tswHist_h.pushHist (calloc 3) [2; 0; 2; 5; -1] 5 3
  = count_histogram [2; 0; 2; 5; -1] 3 0 5 /\
  tswHist_mx_h.pushHist (calloc 3) [2; 0; 2; 5; -1] 5 3
  = count_histogram [2; 0; 2; 5; -1] 3 0 5 /\
  sumZ (tswHist_h.pushHist (calloc 3) [2; 0; 2; 5; -1] 5 3)
  = Z.of_nat (length (filter (fun d => 0 <= d < 3)
                        (take (Z.to_nat 5) [2; 0; 2; 5; -1]))).
Proof. apply pushHist_counts. unfold INT_MAX. lia. Defined.

(** X10.  [hist_int_mx] on two arguments, a real double input and a real
    scalar bin count that fits [int], requests one 1 by [n_bins] matrix and
    returns the histogram of its input: entry [b] counts the elements equal
    to [b]; elements outside [0, n_bins) are not counted. *)
Theorem hist_int_mx_histogram (c : hist_int_mx.call) :
  hist_int_mx.nrhs c = 2 ->
  hist_int_mx.input_is_real_double c = true ->
  hist_int_mx.n_bins_is_real_double c = true ->
  hist_int_mx.n_bins_elements c = 1 ->
  0 <= hist_int_mx.n_bins_arg c <= INT_MAX ->
  hist_int_mx.mexFunction c
  = ([CreateDoubleMatrix 1 (hist_int_mx.n_bins_arg c)],
     inr (count_histogram (hist_int_mx.input_int c) (hist_int_mx.n_bins_arg c)
            0 (Z.of_nat (length (hist_int_mx.input_int c))))).
Proof.
  intros Hn Hr Hb He Hbins. unfold hist_int_mx.mexFunction.
  rewrite Hn, Hr, Hb, He. simpl negb. cbv iota beta. simpl orb. cbv iota zeta.
  do 2 f_equal. rewrite Z.mul_1_l. fold (calloc (hist_int_mx.n_bins_arg c)).
  by rewrite pushHist_mx_eq, pushHist_zeroed_eq.
Qed.

Lemma hist_int_mx_histogram_witness :
  hist_int_mx.mexFunction (hist_int_mx.Call 2 true [2; 0; 2; 5; -1] true 1 3)
  = ([CreateDoubleMatrix 1 3],
     inr (count_histogram [2; 0; 2; 5; -1] 3 0
            (Z.of_nat (length [2; 0; 2; 5; -1])))).
Proof.
  apply (hist_int_mx_histogram
           (hist_int_mx.Call 2 true [2; 0; 2; 5; -1] true 1 3));
    try reflexivity.
  simpl. unfold INT_MAX. lia.
Defined.

(** X11.  When [(int)n_bins] is not positive, as for every [n_bins] from
    2^31 to 2^32 - 1, the helpers that compare against the cast change
    nothing: [popHist] of both headers and [pushHist] of [tswHist_mx.h]
    return the accumulator they were given, and [hist_int_mx] returns its
    zeroed matrix whatever the input. *)
Theorem helpers_inert_when_cast_not_positive hist_vec data len n_bins :
  int_of_size_t n_bins <= 0 ->
  tswHist_h.popHist hist_vec data len n_bins = hist_vec /\
  tswHist_mx_h.popHist hist_vec data len n_bins = hist_vec /\
  tswHist_mx_h.pushHist hist_vec data len n_bins = hist_vec /\
  hist_int_mx.mexFunction (hist_int_mx.Call 2 true data true 1 n_bins)
  = ([CreateDoubleMatrix 1 n_bins], inr (replicate (Z.to_nat (1 * n_bins)) 0)).
Proof.
  intros Hcast.
  assert (Hg : forall l : list Z,
            Forall (fun d => pop_guard n_bins (int_of_double d) = false) l).
  { intros l. apply Forall_forall. intros d _. unfold pop_guard.
    apply andb_false_iff.
    destruct (Z.le_gt_cases 0 (int_of_double d));
      [right; apply Z.ltb_ge|left; apply Z.leb_gt]; lia. }
  assert (Hmx : forall h l, tswHist_mx_h.pushHist h data l n_bins = h).
  { intros h l. rewrite pushHist_mx_bump. by apply bump_no_hit. }
  rewrite popHist_bump, popHist_mx_bump, Hmx.
  rewrite !bump_no_hit by done. repeat split.
  unfold hist_int_mx.mexFunction. simpl. by rewrite Hmx.
Qed.

Lemma helpers_inert_when_cast_not_positive_witness :
  tswHist_h.popHist [5; 5] [0; 1] 2 2147483648 = [5; 5] /\
  tswHist_mx_h.popHist [5; 5] [0; 1] 2 2147483648 = [5; 5] /\
  tswHist_mx_h.pushHist [5; 5] [0; 1] 2 2147483648 = [5; 5] /\
  hist_int_mx.mexFunction (hist_int_mx.Call 2 true [0; 1] true 1 2147483648)
  = ([CreateDoubleMatrix 1 2147483648],
     inr (replicate (Z.to_nat (1 * 2147483648)) 0)).
Proof.
  apply (helpers_inert_when_cast_not_positive [5; 5] [0; 1] 2 2147483648).
  vm_compute. discriminate.
Defined.

(** ** The binner keeps the order of the values *)

(** X12.  Under a faithful rounding and for a bin count that fits [int],
    the binner is monotone on [0, 1]: a larger value never gets a smaller
    bin. *)
Theorem binner_monotone fl v1 v2 n_bins :
  faithful_rounding fl -> 0 < n_bins <= INT_MAX ->
  (0 <= v1)%Q -> (v1 <= v2)%Q -> (v2 <= 1)%Q ->
  binner fl (Finite v1) n_bins <= binner fl (Finite v2) n_bins.
Proof.
  intros Hfl Hn H0 H12 H1.
  assert (H01 : (v1 <= 1)%Q) by (by apply Qle_trans with v2).
  assert (H02 : (0 <= v2)%Q) by (by apply Qle_trans with v1).
  destruct (binner_unit_interval fl v1 n_bins Hfl Hn (conj H0 H01))
    as (-> & _ & _).
  destruct (binner_unit_interval fl v2 n_bins Hfl Hn (conj H02 H1))
    as (-> & _ & _).
  pose proof (floor_unit_interval fl v1 n_bins Hfl ltac:(lia) H0 H01) as Hi1.
  pose proof (floor_unit_interval fl v2 n_bins Hfl ltac:(lia) H02 H1) as Hi2.
  assert (Hle : Qfloor (fl (v1 * inject_Z n_bins)%Q)
                <= Qfloor (fl (v2 * inject_Z n_bins)%Q)).
  { apply Qfloor_resp_le. apply (proj1 Hfl). apply Qmult_le_compat_r; [done|].
    change 0%Q with (inject_Z 0). rewrite <-Zle_Qle. lia. }
  unfold spec_bin. cbv zeta.
  destruct (Z.eqb_spec (Qfloor (fl (v1 * inject_Z n_bins)%Q)) n_bins),
    (Z.eqb_spec (Qfloor (fl (v2 * inject_Z n_bins)%Q)) n_bins); lia.
Qed.

Lemma binner_monotone_witness :
  binner (fun q => q) (Finite (1 # 4)) 4
  <= binner (fun q => q) (Finite (3 # 4)) 4.
Proof.
  apply binner_monotone.
  - apply exact_rounding_faithful.
  - unfold INT_MAX. lia.
  - discriminate.
  - discriminate.
  - discriminate.
Defined.

(** ** The two copies of the engine *)

Lemma sliding_step_ext push pop push' pop'
    data loci offs win_len n_bins stride input_len w st :
  (forall h p l, push h p l n_bins = push' h p l n_bins) ->
  (forall h p l, pop h p l n_bins = pop' h p l n_bins) ->
  sliding_step push pop data loci offs win_len n_bins stride input_len w st
  = sliding_step push' pop' data loci offs win_len n_bins stride input_len w st.
Proof.
  intros Hpush Hpop. destruct st as [M B]. unfold sliding_step. cbv zeta.
  match goal with
  | |- (store_column _ (for_range _ _ ?f (for_range _ _ ?g _)) _ _, _)
       = (store_column _ (for_range _ _ ?f' (for_range _ _ ?g' _)) _ _, _) =>
      assert (Hp : for_range 0 stride g B = for_range 0 stride g' B)
        by (apply for_range_ext; intros j h _; cbv beta; by rewrite Hpop);
      assert (Hq : forall B1, for_range 0 stride f B1 = for_range 0 stride f' B1)
        by (intros B1; apply for_range_ext; intros j h _; cbv beta;
            by rewrite Hpush)
  end.
  by rewrite Hp, Hq.
Qed.

Lemma sliding_window_ext push pop push' pop'
    M B data loci nw win_len n_bins stride offs input_len :
  (forall h p l, push h p l n_bins = push' h p l n_bins) ->
  (forall h p l, pop h p l n_bins = pop' h p l n_bins) ->
  sliding_window push pop M B data loci nw win_len n_bins stride offs input_len
  = sliding_window push' pop' M B data loci nw win_len n_bins stride offs
      input_len.
Proof.
  intros Hpush Hpop. unfold sliding_window.
  rewrite (for_range_ext 1 nw
             (sliding_step push pop data loci offs win_len n_bins stride
                input_len)
             (sliding_step push' pop' data loci offs win_len n_bins stride
                input_len)); [done|].
  intros w st _. by apply sliding_step_ext.
Qed.

(** X13.  While the bin count fits [int], the helpers of [tswHist_mx.h]
    compute exactly what those of [tswHist.h] compute: the same [pushHist],
    the same [popHist] and the same [tswHistSlidingWindow] on all
    arguments. *)
Theorem engine_copies_agree hist_vec p len
    M B data loci nw win_len n_bins stride offs input_len :
  0 <= n_bins <= INT_MAX ->
  tswHist_mx_h.pushHist hist_vec p len n_bins
  = tswHist_h.pushHist hist_vec p len n_bins /\
  tswHist_mx_h.popHist hist_vec p len n_bins
  = tswHist_h.popHist hist_vec p len n_bins /\
  tswHist_mx_h.tswHistSlidingWindow M B data loci nw win_len n_bins stride
    offs input_len
  = tswHist_h.tswHistSlidingWindow M B data loci nw win_len n_bins stride
      offs input_len.
Proof.
  intros Hn. split; [by apply pushHist_mx_eq|]. split; [done|].
  apply sliding_window_ext; [|done]. intros. by apply pushHist_mx_eq.
Qed.

Lemma engine_copies_agree_witness :
  tswHist_mx_h.pushHist [0; 0; 0] [2; 0; 2] 3 3
  = tswHist_h.pushHist [0; 0; 0] [2; 0; 2] 3 3 /\
  tswHist_mx_h.popHist [0; 0; 0] [2; 0; 2] 3 3
  = tswHist_h.popHist [0; 0; 0] [2; 0; 2] 3 3 /\
  tswHist_mx_h.tswHistSlidingWindow [1; 1; 0; 9; 9; 9] [1; 1; 0] [0; 1; 2]
    [1; 2] 2 2 3 1 [0] 3
  = tswHist_h.tswHistSlidingWindow [1; 1; 0; 9; 9; 9] [1; 1; 0] [0; 1; 2]
      [1; 2] 2 2 3 1 [0] 3.
Proof. apply engine_copies_agree. unfold INT_MAX. lia. Defined.

(** ** The range scan and the normalisation of [tswHist_mx.c] *)

Lemma min_max_spec input :
  input <> [] ->
  let '(min_val, max_val) :=
    tswHist_mx.min_max input (Z.of_nat (length input)) in
  (exists i, input !! i = Some min_val) /\
  (exists j, input !! j = Some max_val) /\
  forall (k : nat) v, input !! k = Some v ->
    (min_val <= v)%Q /\ (v <= max_val)%Q.
Proof.
  intros Hne. destruct input as [|x input]; [done|].
  set (l := x :: input).
  assert (Hlen : 1 <= Z.of_nat (length l)) by (simpl; lia).
  pose (P := fun (i : Z) (st : Q * Q) =>
    (exists a, l !! a = Some st.1) /\
    (exists b, l !! b = Some st.2) /\
    forall (k : nat) v, Z.of_nat k < i -> l !! k = Some v ->
      (st.1 <= v)%Q /\ (v <= st.2)%Q).
  assert (HP : P (Z.of_nat (length l))
                 (tswHist_mx.min_max l (Z.of_nat (length l)))).
  { unfold tswHist_mx.min_max. apply for_range_ind; [done| |].
    - change (rd l 0) with x. split; [by exists 0%nat|].
      split; [by exists 0%nat|]. intros k v Hk Hv. simpl.
      destruct k; [|lia]. injection Hv as <-. split; apply Qle_refl.
    - intros i [mn mx] Hi (Ha & Hb & Hk). simpl in Ha, Hb, Hk.
      destruct (lookup_lt_is_Some_2 l (Z.to_nat i) ltac:(lia)) as [vi Hvi].
      rewrite (rd_lookup _ _ _ Hvi).
      destruct (Qle_bool mn vi) eqn:Emn, (Qle_bool vi mx) eqn:Emx; simpl.
      all: try apply Qle_bool_iff in Emn; try apply Qle_bool_iff in Emx.
      all: try (assert (Hlt : (vi < mn)%Q)
                  by (apply Qnot_le_lt; intros Hc%Qle_bool_iff; congruence)).
      all: try (assert (Hgt : (mx < vi)%Q)
                  by (apply Qnot_le_lt; intros Hc%Qle_bool_iff; congruence)).
      all: (split; [by eauto|]); (split; [by eauto|]).
      all: intros k v Hlt' Hv; simpl;
        destruct (decide (Z.of_nat k = i)) as [Heq|Hneq];
        [ subst i; rewrite Nat2Z.id in Hvi; rewrite Hvi in Hv;
          injection Hv as <-
        | destruct (Hk k v ltac:(lia) Hv) as [H1 H2] ].
      all: split; try done; try apply Qle_refl.
      all: try (by apply Qlt_le_weak).
      all: try (by apply Qle_trans with mn; [apply Qlt_le_weak|]).
      all: try (by apply Qle_trans with mx; [|apply Qlt_le_weak]). }
  destruct (tswHist_mx.min_max l _) as [mn mx].
  destruct HP as (Ha & Hb & Hk). split; [done|]. split; [done|].
  intros k v Hv. apply (Hk k v); [|done].
  apply lookup_lt_Some in Hv. lia.
Qed.



Lemma normalize_spec fl min_val max_val value :
  faithful_rounding fl ->
  (min_val <= value)%Q -> (value <= max_val)%Q ->
  (0 < fl (max_val - min_val))%Q ->
  (fl (max_val - min_val) <= DBL_MAX)%Q ->
  let q := fl (fl (value - min_val) / fl (max_val - min_val))%Q in
  tswHist_mx.normalize fl min_val max_val value = Finite q /\
  (0 <= q)%Q /\ (q <= 1)%Q /\
  ((value == min_val)%Q -> (q == 0)%Q) /\
  ((value == max_val)%Q -> (q == 1)%Q).
Proof.
  intros Hfl Hlo Hhi Hpos Hfin q. pose proof Hfl as [Hmono Hint].
  set (a := fl (value - min_val)%Q) in *.
  set (b := fl (max_val - min_val)%Q) in *.
  assert (Hb0 : ~ (b == 0)%Q).
  { intros Hb. rewrite Hb in Hpos. by apply (Qlt_irrefl 0). }
  assert (Ha0 : (0 <= a)%Q).
  { apply Qle_trans with (fl (inject_Z 0)).
    - apply Qeq_Qle. symmetry. by apply Hint.
    - apply Hmono. change (inject_Z 0) with 0%Q.
      rewrite <-(Qplus_opp_r min_val). apply Qplus_le_compat; [done|].
      apply Qle_refl. }
  assert (Hab : (a <= b)%Q).
  { apply Hmono. apply Qplus_le_compat; [done|apply Qle_refl]. }
  assert (Hq0 : (0 <= q)%Q).
  { apply Qle_trans with (fl (inject_Z 0)).
    - apply Qeq_Qle. symmetry. by apply Hint.
    - apply Hmono. change (inject_Z 0) with 0%Q.
      apply Qle_shift_div_l; [done|]. by rewrite Qmult_0_l. }
  assert (Hq1 : (q <= 1)%Q).
  { apply Qle_trans with (fl (inject_Z 1)).
    - apply Hmono. change (inject_Z 1) with 1%Q.
      apply Qle_shift_div_r; [done|]. by rewrite Qmult_1_l.
    - apply Qeq_Qle. by apply Hint. }
  split.
  { unfold tswHist_mx.normalize, fsub. fold a b.
    rewrite (rnd_nonneg fl (value - min_val)), (rnd_nonneg fl (max_val - min_val)).
    - unfold fdiv. fold a b. destruct (Qeq_bool b 0) eqn:E.
      + by apply Qeq_bool_iff in E.
      + apply rnd_nonneg; [done|].
        apply Qle_trans with 1%Q; [done|apply DBL_MAX_ge_1].
    - by apply Qlt_le_weak.
    - done.
    - done.
    - by apply Qle_trans with b. }
  split; [done|]. split; [done|].
  split.
  - intros Heq. apply faithful_rounding_zero; [done|].
    assert (Ha : (a == 0)%Q).
    { apply faithful_rounding_zero; [done|]. rewrite Heq. ring. }
    rewrite Ha. unfold Qdiv. apply Qmult_0_l.
  - intros Heq. apply faithful_rounding_one; [done|].
    assert (Ha : (a == b)%Q).
    { apply faithful_rounding_proper; [done|]. by rewrite Heq. }
    rewrite Ha. unfold Qdiv. by apply Qmult_inv_r.
Qed.

(** When the range overflows, the largest sample is normalised to
    [inf / inf]. *)
Lemma normalize_overflow fl min_val max_val :
  (DBL_MAX < fl (max_val - min_val))%Q ->
  tswHist_mx.normalize fl min_val max_val max_val = NaN.
Proof.
  intros Hov. unfold tswHist_mx.normalize, fsub.
  by rewrite rnd_overflow.
Qed.

Lemma binner_NaN fl n_bins :
  0 < n_bins <= INT_MAX -> binner fl NaN n_bins = INT_MIN.
Proof.
  intros Hn. unfold binner, dmul, int_of_floor.
  rewrite int_of_size_t_small by lia.
  destruct (Z.eqb_spec INT_MIN n_bins) as [E|E]; [|done].
  unfold INT_MIN in E. lia.
Qed.

(** X15.  Under a faithful rounding, when the rounded range
    [max_val - min_val] is positive and does not overflow (it is at most
    [DBL_MAX]), the normalisation of a value between [min_val] and
    [max_val] is a finite number in [0, 1]; [min_val] is mapped to 0 and
    [max_val] to 1.  When the range overflows to [+inf], [max_val] is
    normalised to NaN. *)
Theorem normalize_unit_interval fl min_val max_val value :
  faithful_rounding fl ->
  (min_val <= value)%Q -> (value <= max_val)%Q ->
  (0 < fl (max_val - min_val))%Q ->
  if Qle_bool (fl (max_val - min_val)%Q) DBL_MAX
  then exists q,
         tswHist_mx.normalize fl min_val max_val value = Finite q /\
         (0 <= q)%Q /\ (q <= 1)%Q /\
         ((value == min_val)%Q -> (q == 0)%Q) /\
         ((value == max_val)%Q -> (q == 1)%Q)
  else tswHist_mx.normalize fl min_val max_val max_val = NaN.
Proof.
  intros Hfl Hlo Hhi Hpos.
  destruct (Qle_bool (fl (max_val - min_val)%Q) DBL_MAX) eqn:E.
  - apply Qle_bool_iff in E. eexists.
    exact (normalize_spec fl min_val max_val value Hfl Hlo Hhi Hpos E).
  - apply normalize_overflow. apply Qnot_le_lt. intros H%Qle_bool_iff.
    congruence.
Qed.

Lemma normalize_unit_interval_witness :
  exists q,
    tswHist_mx.normalize (fun q => q) 2 6 3 = Finite q /\
    (0 <= q)%Q /\ (q <= 1)%Q /\
    ((3 == 2)%Q -> (q == 0)%Q) /\
    ((3 == 6)%Q -> (q == 1)%Q).
Proof.
  apply (normalize_unit_interval (fun q => q) 2 6 3).
  - apply exact_rounding_faithful.
  - discriminate.
  - discriminate.
  - reflexivity.
Defined.

Lemma binner_zero fl value n_bins :
  faithful_rounding fl -> 0 < n_bins <= INT_MAX -> (value == 0)%Q ->
  binner fl (Finite value) n_bins = 0.
Proof.
  intros Hfl Hn Hv.
  assert (H01 : (0 <= value)%Q /\ (value <= 1)%Q).
  { split; rewrite Hv; discriminate. }
  destruct (binner_unit_interval fl value n_bins Hfl Hn H01) as (-> & _ & _).
  unfold spec_bin. cbv zeta.
  assert (Hf : (fl (value * inject_Z n_bins) == inject_Z 0)%Q).
  { apply faithful_rounding_zero; [done|]. rewrite Hv. ring. }
  rewrite (Qfloor_comp _ _ Hf), Qfloor_Z.
  destruct (Z.eqb_spec 0 n_bins); [lia|done].
Qed.

(** X16.  Range binning: under a faithful rounding and for a bin count
    that fits [int], when the rounded range is positive and does not
    overflow, every value between [min_val] and [max_val] gets a bin in
    [0, n_bins); [min_val] gets bin 0 and [max_val] gets the last bin,
    [n_bins - 1].  When the range overflows to [+inf], [max_val] gets the
    conversion of NaN, [INT_MIN], an index that [pushHist] drops. *)
Theorem range_binning fl min_val max_val value n_bins :
  faithful_rounding fl -> 0 < n_bins <= INT_MAX ->
  (min_val <= value)%Q -> (value <= max_val)%Q ->
  (0 < fl (max_val - min_val))%Q ->
  if Qle_bool (fl (max_val - min_val)%Q) DBL_MAX
  then
    0 <= binner fl (tswHist_mx.normalize fl min_val max_val value) n_bins
      < n_bins /\
    binner fl (tswHist_mx.normalize fl min_val max_val min_val) n_bins = 0 /\
    binner fl (tswHist_mx.normalize fl min_val max_val max_val) n_bins
    = n_bins - 1
  else
    binner fl (tswHist_mx.normalize fl min_val max_val max_val) n_bins
    = INT_MIN.
Proof.
  intros Hfl Hn Hlo Hhi Hpos.
  assert (Hmm : (min_val <= max_val)%Q) by (by apply Qle_trans with value).
  destruct (Qle_bool (fl (max_val - min_val)%Q) DBL_MAX) eqn:E.
  - assert (Hfin : (fl (max_val - min_val) <= DBL_MAX)%Q)
      by (by apply Qle_bool_iff).
    destruct (normalize_spec fl min_val max_val value Hfl Hlo Hhi Hpos Hfin)
      as (-> & H0 & H1 & _).
    destruct (normalize_spec fl min_val max_val min_val Hfl
                (Qle_refl _) Hmm Hpos Hfin) as (-> & _ & _ & Hz & _).
    destruct (normalize_spec fl min_val max_val max_val Hfl
                Hmm (Qle_refl _) Hpos Hfin) as (-> & Ha & Hb & _ & Ho).
    split; [|split].
    + by destruct (binner_unit_interval fl _ n_bins Hfl Hn (conj H0 H1))
        as (_ & ? & _).
    + apply binner_zero; [done|done|]. by apply Hz.
    + destruct (binner_unit_interval fl _ n_bins Hfl Hn (conj Ha Hb))
        as (_ & _ & Hlast).
      apply Hlast. by apply Ho.
  - rewrite normalize_overflow; [by apply binner_NaN|].
    apply Qnot_le_lt. intros H%Qle_bool_iff. congruence.
Qed.

Lemma range_binning_witness :
  0 <= binner (fun q => q) (tswHist_mx.normalize (fun q => q) 2 6 3) 4 < 4 /\
  binner (fun q => q) (tswHist_mx.normalize (fun q => q) 2 6 2) 4 = 0 /\
  binner (fun q => q) (tswHist_mx.normalize (fun q => q) 2 6 6) 4 = 4 - 1.
Proof.
  apply (range_binning (fun q => q) 2 6 3 4).
  - apply exact_rounding_faithful.
  - unfold INT_MAX. lia.
  - discriminate.
  - discriminate.
  - reflexivity.
Defined.

(** ** The gateways, end to end *)

Lemma first_failed_check_None_inv c :
  first_failed_check c = None ->
  (nrhs c <? 3) || (nrhs c >? 4) = false /\
  negb (input_is_real_double c) = false /\
  (n_bins_of c <=? 2) = false /\
  (stride_of c >=? win_len_of c) = false.
Proof.
  unfold first_failed_check.
  destruct (_ || _); [done|]. destruct (negb _); [done|].
  destruct (_ <=? 2); [done|]. by destruct (_ >=? win_len_of c).
Qed.

Lemma first_failed_check_Some c e :
  first_failed_check c = Some e ->
  match e with
  | invalidNumInputs => nrhs c < 3 \/ 4 < nrhs c
  | inputNotReal => 3 <= nrhs c <= 4 /\ input_is_real_double c = false
  | badBins =>
      3 <= nrhs c <= 4 /\ input_is_real_double c = true /\ n_bins_of c <= 2
  | strideWin =>
      3 <= nrhs c <= 4 /\ input_is_real_double c = true /\
      2 < n_bins_of c /\ win_len_of c <= stride_of c
  end.
Proof.
  unfold first_failed_check.
  destruct (Z.ltb_spec (nrhs c) 3) as [H3|H3]; simpl.
  { intros [= <-]. lia. }
  rewrite Z.gtb_ltb. destruct (Z.ltb_spec 4 (nrhs c)) as [H4|H4]; simpl.
  { intros [= <-]. lia. }
  destruct (input_is_real_double c); simpl; [|intros [= <-]; split; [lia|done]].
  destruct (Z.leb_spec (n_bins_of c) 2) as [Hb|Hb].
  { intros [= <-]. repeat split; lia. }
  rewrite Z.geb_leb.
  destruct (Z.leb_spec (win_len_of c) (stride_of c)) as [Hs|Hs]; [|done].
  intros [= <-]. repeat split; lia.
Qed.

Lemma gateway_results fl c :
  match first_failed_check c with
  | Some e =>
      run (tswHist_mx_c.mexFunction fl c) = ([], inl e) /\
      run (tswHist_mx.mexFunction fl c) = ([], inl e)
  | None =>
      ~ rejected (run (tswHist_mx_c.mexFunction fl c)) /\
      ~ rejected (run (tswHist_mx.mexFunction fl c))
  end.
Proof.
  pose proof (mexFunction_c_checks fl c) as Hc.
  pose proof (mexFunction_mx_checks fl c) as Hmx.
  destruct (first_failed_check c) as [e|] eqn:E; [done|].
  by apply gateways_accept.
Qed.

(** What the conversion makes of a caller's bin count. *)
Lemma n_bins_of_convertible c :
  convertible (n_bins_arg c) ->
  (0 <= n_bins_arg c -> n_bins_of c = n_bins_arg c) /\
  (n_bins_arg c < 0 -> n_bins_of c = n_bins_arg c + SIZE_MODULUS).
Proof.
  intros [Hlo Hhi]. unfold n_bins_of, size_t_of_double. split; intros H.
  - apply Z.mod_small. lia.
  - symmetry. apply (Z.mod_unique_pos _ _ (-1)); unfold SIZE_MODULUS in *; lia.
Qed.

(** X17.  For scalars on which the conversion to [mwSize] is the wrap
    modulo 2^64, the two gateways reject exactly the same calls, with the
    same error.  A call is rejected when it has fewer than 3 or more than 4
    arguments, or an input that is not a real double array, or a converted
    [n_bins <= 2], or converted [win_len <= stride]; the argument count is
    tested first and the input type second, so the error is
    [invalidNumInputs] exactly when the count is bad and [inputNotReal]
    exactly when the count is right and the input type is bad.  A call with
    none of these defects and a positive stride is not rejected.  The tests
    see the converted scalars: on a non-negative [n_bins] the bin test is
    the test of the caller's value, and a negative [n_bins] always passes
    it. *)
Theorem gateways_reject_alike fl c :
  let bad :=
    nrhs c < 3 \/ 4 < nrhs c \/ input_is_real_double c = false \/
    n_bins_of c <= 2 \/ win_len_of c <= stride_of c in
  scalars_convertible c ->
  (bad ->
   exists e,
     run (tswHist_mx_c.mexFunction fl c) = ([], inl e) /\
     run (tswHist_mx.mexFunction fl c) = ([], inl e) /\
     (e = invalidNumInputs <-> nrhs c < 3 \/ 4 < nrhs c) /\
     (e = inputNotReal <->
      3 <= nrhs c <= 4 /\ input_is_real_double c = false)) /\
  (~ bad -> 0 < stride_of c ->
   ~ rejected (run (tswHist_mx_c.mexFunction fl c)) /\
   ~ rejected (run (tswHist_mx.mexFunction fl c))) /\
  (0 <= n_bins_arg c -> (n_bins_of c <= 2 <-> n_bins_arg c <= 2)) /\
  (n_bins_arg c < 0 -> 2 < n_bins_of c).
Proof.
  intros bad (Hcb & _ & _).
  pose proof (gateway_results fl c) as Hres.
  pose proof (first_failed_check_Some c) as Hsome.
  pose proof (first_failed_check_None c) as Hnone.
  destruct (n_bins_of_convertible c Hcb) as [Hpos Hneg].
  split; [|split; [|split]].
  - intros Hbad. destruct (first_failed_check c) as [e0|] eqn:E.
    + destruct Hres as [Hc Hmx]. specialize (Hsome e0 eq_refl).
      exists e0. split; [done|]. split; [done|]. split.
      * split; [intros ->; exact Hsome|].
        intros Hn. destruct e0; simpl in Hsome; try done; lia.
      * split; [intros ->; exact Hsome|].
        intros [Hn Hr]. destruct e0; simpl in Hsome; try done; [lia| |];
          destruct Hsome as (_ & Hr' & _); congruence.
    + exfalso. apply first_failed_check_None_inv in E.
      destruct E as (H1 & H2 & H3 & H4).
      apply orb_false_elim in H1 as [H1a H1b].
      apply Z.ltb_ge in H1a. rewrite Z.gtb_ltb in H1b. apply Z.ltb_ge in H1b.
      apply negb_false_iff in H2. apply Z.leb_gt in H3.
      rewrite Z.geb_leb in H4. apply Z.leb_gt in H4.
      unfold bad in Hbad. destruct Hbad as [?|[?|[?|[?|?]]]]; try lia.
      congruence.
  - intros Hgood _. apply gateways_accept. unfold bad in Hgood.
    destruct (input_is_real_double c) eqn:Hr; [|tauto].
    apply Hnone; [lia|done|lia|lia].
  - intros H0. by rewrite Hpos.
  - intros H0. rewrite Hneg by done. destruct Hcb as [Hlo _].
    unfold SIZE_MODULUS. lia.
Qed.

Lemma gateways_reject_alike_witness :
  let c := MexCall 4 true [0; 1 # 2; 1]%Q 4 2 2 in
  let bad :=
    nrhs c < 3 \/ 4 < nrhs c \/ input_is_real_double c = false \/
    n_bins_of c <= 2 \/ win_len_of c <= stride_of c in
  (bad ->
   exists e,
     run (tswHist_mx_c.mexFunction (fun q => q) c) = ([], inl e) /\
     run (tswHist_mx.mexFunction (fun q => q) c) = ([], inl e) /\
     (e = invalidNumInputs <-> nrhs c < 3 \/ 4 < nrhs c) /\
     (e = inputNotReal <->
      3 <= nrhs c <= 4 /\ input_is_real_double c = false)) /\
  (~ bad -> 0 < stride_of c ->
   ~ rejected (run (tswHist_mx_c.mexFunction (fun q => q) c)) /\
   ~ rejected (run (tswHist_mx.mexFunction (fun q => q) c))) /\
  (0 <= n_bins_arg c -> (n_bins_of c <= 2 <-> n_bins_arg c <= 2)) /\
  (n_bins_arg c < 0 -> 2 < n_bins_of c).
Proof.
  apply (gateways_reject_alike (fun q => q)
           (MexCall 4 true [0; 1 # 2; 1]%Q 4 2 2)).
  unfold scalars_convertible, convertible, SIZE_MODULUS. simpl. lia.
Defined.

(** What an accepted call of the C gateway returns. *)
Lemma mexFunction_c_run fl c :
  first_failed_check c = None ->
  let n_bins := n_bins_of c in
  let win_len := win_len_of c in
  let stride := stride_of c in
  let input_len := Z.of_nat (length (input c)) in
  let nw := num_windows input_len win_len stride in
  let out := tswHist_h.tswHist fl (input c) input_len n_bins win_len stride
               (replicate (Z.to_nat (n_bins * nw)) 0)
               (replicate (Z.to_nat (1 * nw)) 0)
               (replicate (Z.to_nat (1 * size_t (n_bins + 1))) (Finite 0%Q)) in
  run (tswHist_mx_c.mexFunction fl c)
  = ([CreateDoubleMatrix n_bins nw; CreateDoubleMatrix 1 nw;
      CreateDoubleMatrix 1 (size_t (n_bins + 1))],
     inr (MexOutputs out.1.1 out.1.2 out.2)).
Proof.
  intros (H1 & H2 & H3 & H4)%first_failed_check_None_inv. cbv zeta.
  unfold run, tswHist_mx_c.mexFunction.
  fold (n_bins_of c) (win_len_of c) (stride_of c).
  rewrite H1, reject_if_false, H2, reject_if_false.
  rewrite H3, reject_if_false, H4, reject_if_false.
  unfold mbind, mex_bind, mxCreateDoubleMatrix, mret, mex_ret. cbv zeta.
  by destruct (tswHist_h.tswHist _ _ _ _ _ _ _ _ _) as [[? ?] ?].
Qed.

Lemma tswHist_column_spec fl input input_len n_bins win_len stride
    histMat loci edges w :
  valid_config input_len n_bins win_len stride ->
  n_bins <= INT_MAX ->
  Z.of_nat (length input) = input_len ->
  matrix_buffer histMat n_bins (num_windows input_len win_len stride) ->
  Z.of_nat (length loci) = num_windows input_len win_len stride ->
  0 <= w < num_windows input_len win_len stride ->
  column (tswHist_h.tswHist fl input input_len n_bins win_len stride
            histMat loci edges).1.1 n_bins w
  = spec_histogram fl input n_bins (w * stride) win_len.
Proof.
  intros Hv Hint Hlen Hmat Hloci Hw.
  pose proof Hv as ((Hn & _) & Hs & Hsl & _).
  apply list_eq. intros k.
  rewrite (tswHist_column_window _ _ input_len) by done. case_decide as Hk.
  - rewrite spec_histogram_lookup by done. f_equal.
    rewrite binned_window. by apply tally_binned; [lia|].
  - symmetry. apply lookup_ge_None. rewrite length_spec_histogram. lia.
Qed.

(** X18.  The C gateway, end to end.  A call with 3 or 4 arguments and a
    real double input, in a valid configuration whose bin count fits [int]
    and whose matrix fits the address space, requests its three outputs and
    returns: an [n_bins] by [num_windows] matrix whose column [w] is the
    histogram of the [win_len] samples from [w * stride] on, counted from
    scratch; the loci [1, 1 + stride, ...]; and [n_bins + 1] edges.  With 3
    arguments the stride is 1. *)
Theorem tswHist_mx_c_histograms fl c :
  let n_bins := n_bins_arg c in
  let win_len := win_len_arg c in
  let stride := if nrhs c >=? 4 then stride_arg c else 1 in
  let input_len := Z.of_nat (length (input c)) in
  let nw := num_windows input_len win_len stride in
  3 <= nrhs c <= 4 -> input_is_real_double c = true ->
  valid_config input_len n_bins win_len stride ->
  n_bins <= INT_MAX -> n_bins * nw < SIZE_MODULUS ->
  exists out,
    run (tswHist_mx_c.mexFunction fl c)
    = ([CreateDoubleMatrix n_bins nw; CreateDoubleMatrix 1 nw;
        CreateDoubleMatrix 1 (size_t (n_bins + 1))], inr out) /\
    Z.of_nat (length (out_histMat out)) = n_bins * nw /\
    (forall w, 0 <= w < nw ->
       column (out_histMat out) n_bins w
       = spec_histogram fl (input c) n_bins (w * stride) win_len) /\
    out_strided_windows_loci out = loci_progression nw stride /\
    Z.of_nat (length (out_edges out)) = n_bins + 1.
Proof.
  intros n_bins win_len stride input_len nw Hn Hr Hv Hint Hfit.
  pose proof Hv as ((Hb & Hbs) & Hs & Hsl & Hl & Hil).
  pose proof (num_windows_pos _ _ _ _ Hv) as Hnw. fold nw in Hnw.
  destruct (scalars_in_range c) as (En & Ew & Es);
    [fold n_bins; lia|fold win_len; lia|fold stride; lia|].
  assert (Hchk : first_failed_check c = None).
  { apply first_failed_check_None; rewrite ?En, ?Ew, ?Es; try done. }
  pose proof (mexFunction_c_run fl c Hchk) as Hrun. cbv zeta in Hrun.
  rewrite En, Ew, Es in Hrun.
  fold n_bins win_len stride input_len nw in Hrun.
  set (M := replicate (Z.to_nat (n_bins * nw)) 0) in Hrun.
  set (L := replicate (Z.to_nat (1 * nw)) 0) in Hrun.
  set (E := replicate (Z.to_nat (1 * size_t (n_bins + 1))) (Finite 0%Q))
    in Hrun.
  assert (Hmat : matrix_buffer M n_bins nw).
  { unfold matrix_buffer, M. rewrite length_replicate. nia. }
  assert (HL : Z.of_nat (length L) = nw).
  { unfold L. rewrite length_replicate. lia. }
  assert (HE : Z.of_nat (length E) = n_bins + 1).
  { unfold E. rewrite length_replicate.
    rewrite size_t_small by (unfold INT_MAX, SIZE_MODULUS in *; lia). lia. }
  eexists. split; [exact Hrun|]. simpl.
  destruct (tswHist_tally fl (input c) input_len n_bins win_len stride
              M L E Hv eq_refl Hmat HL) as (HlenM & _).
  split; [|split; [|split]].
  - rewrite HlenM. unfold M. rewrite length_replicate. nia.
  - intros w Hw. by apply tswHist_column_spec.
  - rewrite tswHist_outputs. simpl. fold input_len. fold nw.
    by apply (fill_loci_progression L input_len n_bins).
  - rewrite tswHist_outputs. simpl.
    unfold tswHist_h.fill_edges.
    destruct (for_range_fill0
                (fun i => dmul fl (ddiv fl (inject_Z i) (inject_Z n_bins)) 1%Q)
                (n_bins + 1) E) as (-> & _); [lia|done].
Qed.

Lemma tswHist_mx_c_histograms_witness :
  let c := MexCall 4 true
             [0; 1 # 10; 1 # 4; 4 # 10; 55 # 100; 7 # 10; 85 # 100; 95 # 100]%Q
             4 4 2 in
  exists out,
    run (tswHist_mx_c.mexFunction (fun q => q) c)
    = ([CreateDoubleMatrix 4 3; CreateDoubleMatrix 1 3;
        CreateDoubleMatrix 1 (size_t (4 + 1))], inr out) /\
    Z.of_nat (length (out_histMat out)) = 4 * 3 /\
    (forall w, 0 <= w < 3 ->
       column (out_histMat out) 4 w
       = spec_histogram (fun q => q) (input c) 4 (w * 2) 4) /\
    out_strided_windows_loci out = loci_progression 3 2 /\
    Z.of_nat (length (out_edges out)) = 4 + 1.
Proof.
  apply (tswHist_mx_c_histograms (fun q => q)
           (MexCall 4 true
              [0; 1 # 10; 1 # 4; 4 # 10; 55 # 100; 7 # 10; 85 # 100;
               95 # 100]%Q 4 4 2)).
  - simpl. lia.
  - reflexivity.
  - unfold valid_config, SIZE_MODULUS. simpl. lia.
  - unfold INT_MAX. simpl. lia.
  - change (num_windows _ _ _) with 3. unfold SIZE_MODULUS. simpl. lia.
Defined.

(** ** The range-normalising gateway, end to end *)

(** The engine on any sequence of bin indices: column [w] counts the
    indices of window [w]. *)
Lemma engine_columns input_len n_bins win_len stride loci_buf data M :
  valid_config input_len n_bins win_len stride ->
  n_bins <= INT_MAX ->
  matrix_buffer M n_bins (num_windows input_len win_len stride) ->
  Z.of_nat (length loci_buf) = num_windows input_len win_len stride ->
  let nw := num_windows input_len win_len stride in
  let B0 := tswHist_h.pushHist (calloc n_bins) data win_len n_bins in
  let M0 := for_range 0 n_bins (fun b histMat => wr histMat b (rd B0 b)) M in
  let mem :=
    tswHist_h.tswHistSlidingWindow M0 B0 data
      (tswHist_h.fill_loci loci_buf nw stride) nw win_len n_bins stride
      (tswHist_h.fill_offsets stride) input_len in
  length (histMat mem) = length M /\
  strided_windows_loci mem = tswHist_h.fill_loci loci_buf nw stride /\
  forall w, 0 <= w < nw ->
    column (histMat mem) n_bins w
    = count_histogram data n_bins (w * stride) win_len.
Proof.
  intros Hv Hint Hmat Hloci nw B0 M0 mem.
  pose proof Hmat as (Hn0 & Hnw0 & HlenM & Hfit).
  pose proof (num_windows_pos _ _ _ _ Hv) as Hnw.
  pose proof Hv as ((Hn & _) & Hs & Hsl & _).
  assert (HB0 : forall k : nat, Z.of_nat k < n_bins ->
            B0 !! k = Some (engine_tally n_bins data win_len stride 0 k)).
  { intros k Hk. unfold B0. rewrite pushHist_bump, bump_lookup.
    rewrite calloc_lookup by done. simpl. f_equal. ring. }
  destruct (for_range_fill0 (fun b => rd B0 b) n_bins M Hn0)
    as (HlenM0 & HinM0 & _). fold M0 in HlenM0, HinM0.
  assert (HM0 : forall k : nat, Z.of_nat k < n_bins ->
            M0 !! k = Some (engine_tally n_bins data win_len stride 0 k)).
  { intros k Hk. specialize (HinM0 (Z.of_nat k) ltac:(lia) ltac:(nia)).
    rewrite Nat2Z.id in HinM0. rewrite HinM0. f_equal.
    apply rd_lookup. rewrite Nat2Z.id. by apply HB0. }
  assert (Hmat0 : matrix_buffer M0 n_bins
                    (num_windows input_len win_len stride)).
  { repeat split; try done. by rewrite HlenM0. }
  destruct (sliding_loop_tally input_len n_bins win_len stride loci_buf data
              Hv Hloci M0 B0 Hmat0 HB0 HM0) as (HlenS & HS).
  assert (Hmem : histMat mem
            = (for_range 1 (num_windows input_len win_len stride)
                 (sliding_step tswHist_h.pushHist tswHist_h.popHist data
                    (tswHist_h.fill_loci loci_buf
                       (num_windows input_len win_len stride) stride)
                    (tswHist_h.fill_offsets stride)
                    win_len n_bins stride input_len) (M0, B0)).1 /\
            strided_windows_loci mem
            = tswHist_h.fill_loci loci_buf nw stride).
  { unfold mem, tswHist_h.tswHistSlidingWindow, sliding_window.
    by destruct (for_range 1 _ _ _). }
  destruct Hmem as [-> ->]. split; [congruence|]. split; [done|].
  intros w Hw. apply list_eq. intros k.
  rewrite count_histogram_lookup. case_decide as Hk.
  - rewrite column_lookup by lia. rewrite HS by done.
    rewrite engine_tally_window by lia. rewrite Z2Nat.id by lia. f_equal.
    apply tally_count; [lia|done].
  - apply lookup_ge_None. unfold column. rewrite length_take. lia.
Qed.

(** A loop that stores [g input[i]] at [i] maps [g] over the input. *)
Lemma for_range_fmap {A : Type} `{Inhabited A} (g : A -> Z) (input : list A) :
  for_range 0 (Z.of_nat (length input))
    (fun i input_int => wr input_int i (g (rd input i)))
    (calloc (Z.of_nat (length input)))
  = g <$> input.
Proof.
  destruct (for_range_fill0 (fun i => g (rd input i))
              (Z.of_nat (length input)) (calloc (Z.of_nat (length input))))
    as (Hl & Hin & _); [lia|].
  assert (Hc : length (calloc (Z.of_nat (length input))) = length input).
  { unfold calloc. rewrite length_replicate. lia. }
  apply list_eq. intros k. rewrite list_lookup_fmap.
  destruct (input !! k) as [v|] eqn:Hk.
  - pose proof (lookup_lt_Some _ _ _ Hk) as Hlt.
    specialize (Hin (Z.of_nat k) ltac:(lia) ltac:(lia)).
    rewrite Nat2Z.id in Hin. rewrite Hin. simpl. do 2 f_equal.
    apply rd_lookup. by rewrite Nat2Z.id.
  - apply lookup_ge_None. apply lookup_ge_None in Hk. lia.
Qed.

(** What an accepted call of the range-normalising gateway returns. *)
Lemma mexFunction_mx_run fl c :
  first_failed_check c = None ->
  let n_bins := n_bins_of c in
  let win_len := win_len_of c in
  let stride := stride_of c in
  let input_len := Z.of_nat (length (input c)) in
  let nw := num_windows input_len win_len stride in
  let mm := tswHist_mx.min_max (input c) input_len in
  let data := binned_mx fl (input c) n_bins in
  let B0 := tswHist_mx_h.pushHist (calloc n_bins) data win_len n_bins in
  let M0 := for_range 0 n_bins (fun b histMat => wr histMat b (rd B0 b))
              (replicate (Z.to_nat (n_bins * nw)) 0) in
  let mem :=
    tswHist_mx_h.tswHistSlidingWindow M0 B0 data
      (tswHist_h.fill_loci (replicate (Z.to_nat (1 * nw)) 0) nw stride)
      nw win_len n_bins stride (tswHist_h.fill_offsets stride) input_len in
  let edges :=
    for_range 0 (n_bins + 1) (fun i edges =>
      wr edges i (range_edge fl mm.1 mm.2 n_bins i))
      (replicate (Z.to_nat (1 * size_t (n_bins + 1))) (Finite 0%Q)) in
  run (tswHist_mx.mexFunction fl c)
  = ([CreateDoubleMatrix 1 nw; CreateDoubleMatrix 1 (size_t (n_bins + 1));
      CreateDoubleMatrix n_bins nw],
     inr (MexOutputs (histMat mem) (strided_windows_loci mem) edges)).
Proof.
  intros (H1 & H2 & H3 & H4)%first_failed_check_None_inv.
  intros n_bins win_len stride input_len nw mm data B0 M0 mem edges.
  unfold run, tswHist_mx.mexFunction.
  fold (n_bins_of c) (win_len_of c) (stride_of c).
  rewrite H1, reject_if_false, H2, reject_if_false.
  rewrite H3, reject_if_false, H4, reject_if_false.
  unfold mbind, mex_bind, mxCreateDoubleMatrix, mret, mex_ret. cbv zeta.
  fold n_bins win_len stride input_len nw.
  assert (Hloci : for_range 0 nw (fun i loci =>
                    wr loci i (size_t (1 + size_t (i * stride))))
                    (replicate (Z.to_nat (1 * nw)) 0)
                  = tswHist_h.fill_loci (replicate (Z.to_nat (1 * nw)) 0)
                      nw stride).
  { apply for_range_ext. intros i s _. by rewrite Z.add_comm. }
  rewrite Hloci.
  assert (Hdata : data
            = for_range 0 input_len (fun i input_int =>
                wr input_int i
                  (binner fl (tswHist_mx.normalize fl mm.1 mm.2
                                (rd (input c) i)) n_bins))
                (calloc input_len)).
  { unfold data, binned_mx. fold input_len. fold mm. destruct mm as [mn mx].
    symmetry.
    apply (for_range_fmap
             (fun v => binner fl (tswHist_mx.normalize fl mn mx v) n_bins)). }
  unfold edges, range_edge, mem. fold mm. clearbody mm.
  destruct mm as [mn mx].
  simpl in Hdata. simpl. rewrite <-Hdata. fold B0. fold M0.
  unfold tswHist_h.fill_offsets.
  by destruct (tswHist_mx_h.tswHistSlidingWindow _ _ _ _ _ _ _ _ _ _).
Qed.

(** The outputs of an accepted call in a valid configuration, in terms of
    the converted scalars. *)
Lemma mexFunction_mx_outputs_converted fl c :
  let n_bins := n_bins_of c in
  let win_len := win_len_of c in
  let stride := stride_of c in
  let input_len := Z.of_nat (length (input c)) in
  let nw := num_windows input_len win_len stride in
  let mm := tswHist_mx.min_max (input c) input_len in
  3 <= nrhs c <= 4 -> input_is_real_double c = true ->
  valid_config input_len n_bins win_len stride ->
  n_bins <= INT_MAX -> n_bins * nw < SIZE_MODULUS ->
  exists out,
    run (tswHist_mx.mexFunction fl c)
    = ([CreateDoubleMatrix 1 nw; CreateDoubleMatrix 1 (size_t (n_bins + 1));
        CreateDoubleMatrix n_bins nw], inr out) /\
    Z.of_nat (length (out_histMat out)) = n_bins * nw /\
    (forall w, 0 <= w < nw ->
       column (out_histMat out) n_bins w
       = count_histogram (binned_mx fl (input c) n_bins) n_bins
           (w * stride) win_len) /\
    out_strided_windows_loci out = loci_progression nw stride /\
    Z.of_nat (length (out_edges out)) = n_bins + 1 /\
    (forall i, 0 <= i <= n_bins ->
       out_edges out !! Z.to_nat i = Some (range_edge fl mm.1 mm.2 n_bins i)).
Proof.
  intros n_bins win_len stride input_len nw mm Hn Hr Hv Hint Hfit.
  pose proof Hv as ((Hb & Hbs) & Hs & Hsl & Hl & Hil).
  pose proof (num_windows_pos _ _ _ _ Hv) as Hnw. fold nw in Hnw.
  assert (Hchk : first_failed_check c = None).
  { apply first_failed_check_None; try done. }
  pose proof (mexFunction_mx_run fl c Hchk) as Hrun. cbv zeta in Hrun.
  fold n_bins win_len stride input_len nw mm in Hrun.
  set (M := replicate (Z.to_nat (n_bins * nw)) 0) in Hrun.
  set (L := replicate (Z.to_nat (1 * nw)) 0) in Hrun.
  set (E := replicate (Z.to_nat (1 * size_t (n_bins + 1))) (Finite 0%Q))
    in Hrun.
  set (data := binned_mx fl (input c) n_bins) in *.
  assert (Hmat : matrix_buffer M n_bins nw).
  { unfold matrix_buffer, M. rewrite length_replicate. nia. }
  assert (HL : Z.of_nat (length L) = nw).
  { unfold L. rewrite length_replicate. lia. }
  assert (HE : Z.of_nat (length E) = n_bins + 1).
  { unfold E. rewrite length_replicate.
    rewrite size_t_small by (unfold INT_MAX, SIZE_MODULUS in *; lia). lia. }
  rewrite pushHist_mx_eq in Hrun by lia.
  unfold tswHist_mx_h.tswHistSlidingWindow in Hrun.
  rewrite (sliding_window_ext tswHist_mx_h.pushHist tswHist_mx_h.popHist
             tswHist_h.pushHist tswHist_h.popHist) in Hrun
    by (intros; first [by apply pushHist_mx_eq; lia|done]).
  destruct (engine_columns input_len n_bins win_len stride L data M
              Hv Hint Hmat HL) as (HlenM & Hlocim & Hcol).
  fold nw in HlenM, Hlocim, Hcol.
  unfold tswHist_h.tswHistSlidingWindow in HlenM, Hlocim, Hcol.
  destruct (for_range_fill0 (fun i => range_edge fl mm.1 mm.2 n_bins i)
              (n_bins + 1) E) as (HlenE & HinE & _); [lia|].
  eexists. split; [exact Hrun|]. simpl.
  split; [|split; [|split; [|split]]].
  - rewrite HlenM. unfold M. rewrite length_replicate. nia.
  - exact Hcol.
  - rewrite Hlocim. by apply (fill_loci_progression L input_len n_bins).
  - by rewrite HlenE.
  - intros i Hi. apply HinE; lia.
Qed.

(** The same for scalars that [mwSize] can hold, on which the conversion
    changes nothing. *)
Lemma mexFunction_mx_outputs fl c :
  let n_bins := n_bins_arg c in
  let win_len := win_len_arg c in
  let stride := if nrhs c >=? 4 then stride_arg c else 1 in
  let input_len := Z.of_nat (length (input c)) in
  let nw := num_windows input_len win_len stride in
  let mm := tswHist_mx.min_max (input c) input_len in
  3 <= nrhs c <= 4 -> input_is_real_double c = true ->
  valid_config input_len n_bins win_len stride ->
  n_bins <= INT_MAX -> n_bins * nw < SIZE_MODULUS ->
  exists out,
    run (tswHist_mx.mexFunction fl c)
    = ([CreateDoubleMatrix 1 nw; CreateDoubleMatrix 1 (size_t (n_bins + 1));
        CreateDoubleMatrix n_bins nw], inr out) /\
    Z.of_nat (length (out_histMat out)) = n_bins * nw /\
    (forall w, 0 <= w < nw ->
       column (out_histMat out) n_bins w
       = count_histogram (binned_mx fl (input c) n_bins) n_bins
           (w * stride) win_len) /\
    out_strided_windows_loci out = loci_progression nw stride /\
    Z.of_nat (length (out_edges out)) = n_bins + 1 /\
    (forall i, 0 <= i <= n_bins ->
       out_edges out !! Z.to_nat i = Some (range_edge fl mm.1 mm.2 n_bins i)).
Proof.
  intros n_bins win_len stride input_len nw mm Hn Hr Hv Hint Hfit.
  pose proof Hv as ((Hb & Hbs) & Hs & Hsl & Hl & Hil).
  destruct (scalars_in_range c) as (En & Ew & Es);
    [fold n_bins; lia|fold win_len; lia|fold stride; lia|].
  pose proof (mexFunction_mx_outputs_converted fl c) as H. cbv zeta in H.
  rewrite En, Ew, Es in H. by apply H.
Qed.

(** X19.  The range-normalising gateway, end to end.  A call with 3 or 4
    arguments and a real double input, in a valid configuration whose bin
    count fits [int] and whose matrix fits the address space, requests its
    three outputs and returns: an [n_bins] by [num_windows] matrix whose
    column [w] counts, bin by bin, the bin indices of the [win_len] samples
    from [w * stride] on, the indices being those of the input normalised
    by its own range; the loci [1, 1 + stride, ...]; and [n_bins + 1]
    edges. *)
Theorem tswHist_mx_histograms fl c :
  let n_bins := n_bins_arg c in
  let win_len := win_len_arg c in
  let stride := if nrhs c >=? 4 then stride_arg c else 1 in
  let input_len := Z.of_nat (length (input c)) in
  let nw := num_windows input_len win_len stride in
  3 <= nrhs c <= 4 -> input_is_real_double c = true ->
  valid_config input_len n_bins win_len stride ->
  n_bins <= INT_MAX -> n_bins * nw < SIZE_MODULUS ->
  exists out,
    run (tswHist_mx.mexFunction fl c)
    = ([CreateDoubleMatrix 1 nw; CreateDoubleMatrix 1 (size_t (n_bins + 1));
        CreateDoubleMatrix n_bins nw], inr out) /\
    Z.of_nat (length (out_histMat out)) = n_bins * nw /\
    (forall w, 0 <= w < nw ->
       column (out_histMat out) n_bins w
       = count_histogram (binned_mx fl (input c) n_bins) n_bins
           (w * stride) win_len) /\
    out_strided_windows_loci out = loci_progression nw stride /\
    Z.of_nat (length (out_edges out)) = n_bins + 1.
Proof.
  intros n_bins win_len stride input_len nw Hn Hr Hv Hint Hfit.
  destruct (mexFunction_mx_outputs fl c Hn Hr Hv Hint Hfit)
    as (out & Hrun & Hlen & Hcol & Hloci & Hedges & _).
  exists out. by repeat split.
Qed.

Lemma tswHist_mx_histograms_witness :
  let c := MexCall 4 true [2; 3; 5; 6; 4; 2; 6; 3]%Q 4 4 2 in
  exists out,
    run (tswHist_mx.mexFunction (fun q => q) c)
    = ([CreateDoubleMatrix 1 3; CreateDoubleMatrix 1 (size_t (4 + 1));
        CreateDoubleMatrix 4 3], inr out) /\
    Z.of_nat (length (out_histMat out)) = 4 * 3 /\
    (forall w, 0 <= w < 3 ->
       column (out_histMat out) 4 w
       = count_histogram (binned_mx (fun q => q) (input c) 4) 4 (w * 2) 4) /\
    out_strided_windows_loci out = loci_progression 3 2 /\
    Z.of_nat (length (out_edges out)) = 4 + 1.
Proof.
  apply (tswHist_mx_histograms (fun q => q)
           (MexCall 4 true [2; 3; 5; 6; 4; 2; 6; 3]%Q 4 4 2)).
  - simpl. lia.
  - reflexivity.
  - unfold valid_config, SIZE_MODULUS. simpl. lia.
  - unfold INT_MAX. simpl. lia.
  - change (num_windows _ _ _) with 3. unfold SIZE_MODULUS. simpl. lia.
Defined.

(** ** Column sums, edges and constant input in the range-normalising
    gateway *)



Lemma filter_Forall_not {A : Type} (P : A -> Prop) `{forall x, Decision (P x)}
    (l : list A) :
  Forall (fun x => ~ P x) l -> filter P l = [].
Proof.
  induction 1 as [|x l Hx _ IH]; [done|].
  by rewrite filter_cons_False by done.
Qed.

Lemma min_max_ordered input :
  input <> [] ->
  let '(min_val, max_val) :=
    tswHist_mx.min_max input (Z.of_nat (length input)) in
  (min_val <= max_val)%Q.
Proof.
  intros Hne. pose proof (min_max_spec input Hne) as H.
  destruct (tswHist_mx.min_max input _) as [mn mx].
  destruct H as ([i Hi] & _ & Hk). destruct (Hk i mn Hi) as [_ ?]. done.
Qed.


Lemma valid_config_nonempty {A : Type} (input : list A) n_bins win_len stride :
  valid_config (Z.of_nat (length input)) n_bins win_len stride -> input <> [].
Proof. intros (_ & Hs & Hsl & Hl & _) ->. simpl in Hl. lia. Qed.



Lemma unit_fraction fl n_bins i :
  faithful_rounding fl -> 0 < n_bins -> 0 <= i <= n_bins ->
  (0 <= fl (inject_Z i / inject_Z n_bins))%Q /\
  (fl (inject_Z i / inject_Z n_bins) <= 1)%Q.
Proof.
  intros [Hmono Hexact] Hn Hi.
  assert (Hn0 : (0 < inject_Z n_bins)%Q).
  { change 0%Q with (inject_Z 0). rewrite <-Zlt_Qlt. lia. }
  split.
  - apply Qle_trans with (fl (inject_Z 0)).
    + apply Qeq_Qle. symmetry. by apply Hexact.
    + apply Hmono. change (inject_Z 0) with 0%Q.
      apply Qle_shift_div_l; [done|]. rewrite Qmult_0_l.
      change 0%Q with (inject_Z 0). rewrite <-Zle_Qle. lia.
  - apply Qle_trans with (fl (inject_Z 1)).
    + apply Hmono. change (inject_Z 1) with 1%Q.
      apply Qle_shift_div_r; [done|]. rewrite Qmult_1_l.
      rewrite <-Zle_Qle. lia.
    + apply Qeq_Qle. by apply Hexact.
Qed.

(** An edge when nothing overflows: the range, the first edge and the last
    edge are within the doubles. *)
Lemma range_edge_finite fl min_val max_val n_bins i :
  faithful_rounding fl -> (forall x, (fl (fl x) == fl x)%Q) ->
  0 < n_bins -> 0 <= i <= n_bins ->
  (min_val <= max_val)%Q ->
  (fl (max_val - min_val) <= DBL_MAX)%Q ->
  (- DBL_MAX <= fl min_val)%Q ->
  (fl (min_val + fl (max_val - min_val)) <= DBL_MAX)%Q ->
  range_edge fl min_val max_val n_bins i
  = Finite (fl (min_val
                + fl (fl (max_val - min_val)
                      * fl (inject_Z i / inject_Z n_bins)))%Q).
Proof.
  intros Hfl Hidem Hn Hi Hord Hfin Hfirst Hlast.
  pose proof Hfl as [Hmono Hexact].
  destruct (unit_fraction fl n_bins i Hfl Hn Hi) as [Hq0 Hq1].
  set (r := fl (max_val - min_val)%Q) in *.
  set (q := fl (inject_Z i / inject_Z n_bins)%Q) in *.
  assert (Hr0 : (0 <= r)%Q).
  { apply Qle_trans with (fl (inject_Z 0)).
    - apply Qeq_Qle. symmetry. by apply Hexact.
    - apply Hmono. change (inject_Z 0) with 0%Q.
      rewrite <-(Qplus_opp_r min_val). apply Qplus_le_compat; [done|].
      apply Qle_refl. }
  assert (Hp0 : (0 <= fl (r * q))%Q).
  { apply Qle_trans with (fl (inject_Z 0)).
    - apply Qeq_Qle. symmetry. by apply Hexact.
    - apply Hmono. change (inject_Z 0) with 0%Q.
      by apply Qmult_le_0_compat. }
  assert (Hp1 : (fl (r * q) <= r)%Q).
  { apply Qle_trans with (fl r); [|apply Qeq_Qle; apply Hidem].
    apply Hmono. apply Qle_trans with (r * 1)%Q.
    - apply Qmult_le_compat_nonneg; split; try done. apply Qle_refl.
    - apply Qeq_Qle. apply Qmult_1_r. }
  unfold range_edge, fsub. fold r.
  rewrite (rnd_nonneg fl (max_val - min_val)) by done. fold r.
  unfold fdiv.
  destruct (Qeq_bool (inject_Z n_bins) 0) eqn:E.
  { apply Qeq_bool_iff in E. by apply inject_Z_pos_neq0 in E. }
  rewrite (rnd_nonneg fl (inject_Z i / inject_Z n_bins))
    by (try done; by apply Qle_trans with 1%Q; [|apply DBL_MAX_ge_1]).
  fold q. unfold fmul.
  rewrite (rnd_nonneg fl (r * q)) by (try done; by apply Qle_trans with r).
  unfold fadd. apply rnd_finite.
  - apply Qle_trans with (fl min_val); [done|]. apply Hmono.
    apply Qle_trans with (min_val + 0)%Q.
    + apply Qeq_Qle. symmetry. apply Qplus_0_r.
    + apply Qplus_le_compat; [apply Qle_refl|done].
  - apply Qle_trans with (fl (min_val + r)%Q); [|done]. apply Hmono.
    apply Qplus_le_compat; [apply Qle_refl|done].
Qed.

(** When the range overflows, the first edge is [min_val + inf * 0]. *)
Lemma range_edge_overflow fl min_val max_val n_bins :
  faithful_rounding fl -> 0 < n_bins ->
  (DBL_MAX < fl (max_val - min_val))%Q ->
  range_edge fl min_val max_val n_bins 0 = NaN.
Proof.
  intros Hfl Hn Hov. unfold range_edge, fsub. rewrite rnd_overflow by done.
  unfold fdiv.
  destruct (Qeq_bool (inject_Z n_bins) 0) eqn:E.
  { apply Qeq_bool_iff in E. by apply inject_Z_pos_neq0 in E. }
  assert (Hz : (fl (inject_Z 0 / inject_Z n_bins) == 0)%Q).
  { apply faithful_rounding_zero; [done|]. unfold Qdiv. apply Qmult_0_l. }
  rewrite rnd_zero by done. unfold fmul.
  apply Qeq_bool_iff in Hz. by rewrite Hz.
Qed.

(** X21.  The edges of the range-normalising gateway.  Under a faithful
    rounding that leaves a rounded number unchanged, in every valid
    configuration whose bin count fits [int], when nothing overflows (the
    rounded range, the first edge and the last edge are within
    [DBL_MAX]), the [n_bins + 1] edges returned are finite and
    non-decreasing; the first is the rounded [min_val] and the last the
    rounded sum of [min_val] and the rounded range. *)
Theorem tswHist_mx_edges fl c :
  let n_bins := n_bins_arg c in
  let win_len := win_len_arg c in
  let stride := if nrhs c >=? 4 then stride_arg c else 1 in
  let input_len := Z.of_nat (length (input c)) in
  let nw := num_windows input_len win_len stride in
  let mm := tswHist_mx.min_max (input c) input_len in
  faithful_rounding fl -> (forall x, (fl (fl x) == fl x)%Q) ->
  3 <= nrhs c <= 4 -> input_is_real_double c = true ->
  valid_config input_len n_bins win_len stride ->
  n_bins <= INT_MAX -> n_bins * nw < SIZE_MODULUS ->
  (fl (mm.2 - mm.1) <= DBL_MAX)%Q ->
  (- DBL_MAX <= fl mm.1)%Q ->
  (fl (mm.1 + fl (mm.2 - mm.1)) <= DBL_MAX)%Q ->
  exists out (e : Z -> Q),
    run (tswHist_mx.mexFunction fl c)
    = ([CreateDoubleMatrix 1 nw; CreateDoubleMatrix 1 (size_t (n_bins + 1));
        CreateDoubleMatrix n_bins nw], inr out) /\
    Z.of_nat (length (out_edges out)) = n_bins + 1 /\
    (forall i, 0 <= i <= n_bins ->
       out_edges out !! Z.to_nat i = Some (Finite (e i))) /\
    (forall i j, 0 <= i -> i <= j -> j <= n_bins -> (e i <= e j)%Q) /\
    (e 0%Z == fl mm.1)%Q /\
    (e n_bins == fl (mm.1 + fl (mm.2 - mm.1)))%Q.
Proof.
  intros n_bins win_len stride input_len nw mm Hfl Hidem Hn Hr Hv Hint Hfit
    Hfin Hfirst Hlast.
  destruct (mexFunction_mx_outputs fl c Hn Hr Hv Hint Hfit)
    as (out & Hrun & _ & _ & _ & Hlen & Hedges).
  fold n_bins win_len stride input_len nw mm in Hrun, Hlen, Hedges.
  pose proof Hv as ((Hb & _) & _).
  pose proof (min_max_ordered (input c) (valid_config_nonempty _ _ _ _ Hv))
    as Hord.
  fold input_len in Hord. fold mm in Hord. destruct mm as [mn mx].
  simpl in *. pose proof Hfl as [Hmono Hexact].
  assert (Hr0 : (0 <= fl (mx - mn))%Q).
  { apply Qle_trans with (fl (inject_Z 0)).
    - apply Qeq_Qle. symmetry. by apply Hexact.
    - apply Hmono. change (inject_Z 0) with 0%Q.
      rewrite <-(Qplus_opp_r mn). apply Qplus_le_compat; [done|].
      apply Qle_refl. }
  exists out,
    (fun i => fl (mn + fl (fl (mx - mn)
                           * fl (inject_Z i / inject_Z n_bins)))%Q).
  split; [exact Hrun|]. split; [exact Hlen|]. split; [|split; [|split]].
  - intros i Hi. rewrite Hedges by done. f_equal.
    apply range_edge_finite; try done. lia.
  - intros i j Hi Hij Hj. cbv beta. apply Hmono.
    apply Qplus_le_compat; [apply Qle_refl|]. apply Hmono.
    destruct (unit_fraction fl n_bins i Hfl ltac:(lia) ltac:(lia)) as [Hq0 _].
    apply Qmult_le_compat_nonneg; split; try done; [apply Qle_refl|].
    apply Hmono. unfold Qdiv. apply Qmult_le_compat_r.
    + by rewrite <-Zle_Qle.
    + apply Qinv_le_0_compat. change 0%Q with (inject_Z 0).
      rewrite <-Zle_Qle. lia.
  - cbv beta. apply faithful_rounding_proper; [done|].
    assert (Hz : (fl (fl (mx - mn) * fl (inject_Z 0 / inject_Z n_bins))
                  == 0)%Q).
    { apply faithful_rounding_zero; [done|].
      assert (Hq : (fl (inject_Z 0 / inject_Z n_bins) == 0)%Q).
      { apply faithful_rounding_zero; [done|]. unfold Qdiv. apply Qmult_0_l. }
      rewrite Hq. apply Qmult_0_r. }
    rewrite Hz. apply Qplus_0_r.
  - cbv beta. apply faithful_rounding_proper; [done|].
    assert (Ho : (fl (inject_Z n_bins / inject_Z n_bins) == 1)%Q).
    { apply faithful_rounding_one; [done|]. unfold Qdiv.
      apply Qmult_inv_r. by apply inject_Z_pos_neq0; lia. }
    assert (Hp : (fl (fl (mx - mn) * fl (inject_Z n_bins / inject_Z n_bins))
                  == fl (fl (mx - mn)))%Q).
    { apply faithful_rounding_proper; [done|]. rewrite Ho. apply Qmult_1_r. }
    rewrite Hp, Hidem. reflexivity.
Qed.

Lemma tswHist_mx_edges_witness :
  let c := MexCall 4 true [2; 3; 5; 6; 4; 2; 6; 3]%Q 4 4 2 in
  let mm := tswHist_mx.min_max (input c) 8 in
  exists out (e : Z -> Q),
    run (tswHist_mx.mexFunction (fun q => q) c)
    = ([CreateDoubleMatrix 1 3; CreateDoubleMatrix 1 (size_t (4 + 1));
        CreateDoubleMatrix 4 3], inr out) /\
    Z.of_nat (length (out_edges out)) = 4 + 1 /\
    (forall i, 0 <= i <= 4 ->
       out_edges out !! Z.to_nat i = Some (Finite (e i))) /\
    (forall i j, 0 <= i -> i <= j -> j <= 4 -> (e i <= e j)%Q) /\
    (e 0%Z == mm.1)%Q /\
    (e 4%Z == mm.1 + (mm.2 - mm.1))%Q.
Proof.
  apply (tswHist_mx_edges (fun q => q)
           (MexCall 4 true [2; 3; 5; 6; 4; 2; 6; 3]%Q 4 4 2)).
  - apply exact_rounding_faithful.
  - intros x. reflexivity.
  - simpl. lia.
  - reflexivity.
  - unfold valid_config, SIZE_MODULUS. simpl. lia.
  - unfold INT_MAX. simpl. lia.
  - change (num_windows _ _ _) with 3. unfold SIZE_MODULUS. simpl. lia.
  - by vm_compute.
  - by vm_compute.
  - by vm_compute.
Defined.

Lemma binned_mx_constant fl input n_bins x :
  faithful_rounding fl -> 0 < n_bins <= INT_MAX -> input <> [] ->
  Forall (fun v => (v == x)%Q) input ->
  Forall (fun d => d = INT_MIN) (binned_mx fl input n_bins).
Proof.
  intros Hfl Hn Hne Hall. unfold binned_mx.
  pose proof (min_max_constant input x Hne Hall) as Hmm.
  destruct (tswHist_mx.min_max input _) as [mn mx]. destruct Hmm as [Hmn Hmx].
  apply Forall_fmap. eapply Forall_impl; [exact Hall|]. intros v Hv. simpl.
  rewrite (normalize_constant fl mn mx v x) by done.
  by apply binner_NaN.
Qed.



(** X22.  Constant input in the range-normalising gateway.  The
    normalisation of every sample is 0/0, the conversion of the resulting
    NaN to [int] gives [INT_MIN], and [pushHist] and [popHist] ignore that
    index: under a faithful rounding, in every valid configuration whose
    bin count fits [int], the call returns and every column of the matrix
    is zero. *)
Theorem constant_input_empty_histograms fl c x :
  let n_bins := n_bins_arg c in
  let win_len := win_len_arg c in
  let stride := if nrhs c >=? 4 then stride_arg c else 1 in
  let input_len := Z.of_nat (length (input c)) in
  let nw := num_windows input_len win_len stride in
  faithful_rounding fl ->
  3 <= nrhs c <= 4 -> input_is_real_double c = true ->
  valid_config input_len n_bins win_len stride ->
  n_bins <= INT_MAX -> n_bins * nw < SIZE_MODULUS ->
  Forall (fun v => (v == x)%Q) (input c) ->
  exists out,
    run (tswHist_mx.mexFunction fl c)
    = ([CreateDoubleMatrix 1 nw; CreateDoubleMatrix 1 (size_t (n_bins + 1));
        CreateDoubleMatrix n_bins nw], inr out) /\
    forall w, 0 <= w < nw ->
      column (out_histMat out) n_bins w = replicate (Z.to_nat n_bins) 0.
Proof.
  intros n_bins win_len stride input_len nw Hfl Hn Hr Hv Hint Hfit Hall.
  destruct (mexFunction_mx_outputs fl c Hn Hr Hv Hint Hfit)
    as (out & Hrun & _ & Hcol & _).
  fold n_bins win_len stride input_len nw in Hrun, Hcol.
  exists out. split; [exact Hrun|]. intros w Hw.
  pose proof Hv as ((Hb & _) & _).
  pose proof (binned_mx_constant fl (input c) n_bins x Hfl ltac:(lia)
                (valid_config_nonempty _ _ _ _ Hv) Hall) as Hdata.
  rewrite Hcol by done. apply list_eq. intros k.
  rewrite count_histogram_lookup. case_decide as Hk.
  - rewrite lookup_replicate_2 by lia. f_equal.
    rewrite (filter_Forall_not (fun d => d = Z.of_nat k)); [done|].
    apply Forall_take, Forall_drop.
    eapply Forall_impl; [exact Hdata|]. intros d -> Hd.
    unfold INT_MIN in Hd. lia.
  - symmetry. apply lookup_replicate_None. lia.
Qed.

Lemma constant_input_empty_histograms_witness :
  let c := MexCall 4 true [1; 1; 1; 1]%Q 4 2 1 in
  exists out,
    run (tswHist_mx.mexFunction (fun q => q) c)
    = ([CreateDoubleMatrix 1 3; CreateDoubleMatrix 1 (size_t (4 + 1));
        CreateDoubleMatrix 4 3], inr out) /\
    forall w, 0 <= w < 3 ->
      column (out_histMat out) 4 w = replicate (Z.to_nat 4) 0.
Proof.
  apply (constant_input_empty_histograms (fun q => q)
           (MexCall 4 true [1; 1; 1; 1]%Q 4 2 1) 1%Q).
  - apply exact_rounding_faithful.
  - simpl. lia.
  - reflexivity.
  - unfold valid_config, SIZE_MODULUS. simpl. lia.
  - unfold INT_MAX. simpl. lia.
  - change (num_windows _ _ _) with 3. unfold SIZE_MODULUS. simpl. lia.
  - repeat (constructor; [reflexivity|]). constructor.
Defined.

(** ** The rejections of [hist_int_mx] *)

(** X23.  [hist_int_mx] tests the argument count first, the type of the
    input second and the bin count last: it leaves with [invalidNumInputs]
    exactly when it is not given two arguments, with [inputNotReal] exactly
    when it is given two and the first is not a real double array, and with
    [binsNotScalar] exactly when those two tests pass and the second
    argument is not a real double scalar.  No matrix is requested by a call
    that ends in an error. *)
Theorem hist_int_mx_rejection (c : hist_int_mx.call) :
  let scalar :=
    hist_int_mx.n_bins_is_real_double c = true /\
    hist_int_mx.n_bins_elements c = 1 in
  (hist_int_mx.nrhs c <> 2 <->
   hist_int_mx.mexFunction c = ([], inl hist_int_mx.invalidNumInputs)) /\
  (hist_int_mx.nrhs c = 2 /\ hist_int_mx.input_is_real_double c = false <->
   hist_int_mx.mexFunction c = ([], inl hist_int_mx.inputNotReal)) /\
  (hist_int_mx.nrhs c = 2 /\ hist_int_mx.input_is_real_double c = true /\
   ~ scalar <->
   hist_int_mx.mexFunction c = ([], inl hist_int_mx.binsNotScalar)) /\
  (forall t e, hist_int_mx.mexFunction c = (t, inl e) -> t = []).
Proof.
  intros scalar. unfold scalar, hist_int_mx.mexFunction.
  destruct (Z.eqb_spec (hist_int_mx.nrhs c) 2) as [Hn|Hn];
    [|repeat split; try done; try tauto; by intros ? ? [= <- _]].
  destruct (hist_int_mx.input_is_real_double c); simpl;
    [|repeat split; try done; try tauto; try (by intros (_ & ? & _));
      by intros ? ? [= <- _]].
  destruct (hist_int_mx.n_bins_is_real_double c); simpl;
    [|repeat split; try done; try tauto; try (by intros [_ ?]);
      try (by intros [? _]); by intros ? ? [= <- _]].
  destruct (Z.eqb_spec (hist_int_mx.n_bins_elements c) 1) as [He|He]; simpl.
  - repeat split; try done; try tauto; try (by intros [_ ?]).
  - repeat split; try done; try tauto; try (by intros [_ ?]);
      by intros ? ? [= <- _].
Qed.

(** ** The sliding loop stays inside the input *)

Lemma take_one_drop_agree (data data' : list Z) (n i : nat) :
  take n data = take n data' -> (i < n)%nat ->
  take 1 (drop i data) = take 1 (drop i data').
Proof.
  intros Heq Hi. apply list_eq. intros k.
  destruct k as [|k].
  - rewrite !lookup_take_lt by lia. rewrite !lookup_drop, Nat.add_0_r.
    rewrite <-(lookup_take_lt data n i), <-(lookup_take_lt data' n i) by done.
    by rewrite Heq.
  - by rewrite !lookup_take_ge by lia.
Qed.

Lemma sliding_step_reads_within_input push pop
    data data' loci offs win_len n_bins stride input_len w st :
  (forall h p p', take 1 p = take 1 p' ->
     push h p 1 n_bins = push h p' 1 n_bins) ->
  (forall h p p', take 1 p = take 1 p' ->
     pop h p 1 n_bins = pop h p' 1 n_bins) ->
  take (Z.to_nat input_len) data = take (Z.to_nat input_len) data' ->
  sliding_step push pop data loci offs win_len n_bins stride input_len w st
  = sliding_step push pop data' loci offs win_len n_bins stride input_len w st.
Proof.
  intros Hpush Hpop Heq. destruct st as [M B]. unfold sliding_step. cbv zeta.
  assert (Hread : forall idx, 0 <= idx -> (idx <? input_len) = true ->
            take 1 (ptr_add data idx) = take 1 (ptr_add data' idx)).
  { intros idx H0 Hlt%Z.ltb_lt. unfold ptr_add.
    apply (take_one_drop_agree _ _ (Z.to_nat input_len)); [done|lia]. }
  assert (Hidx : forall z, 0 <= size_t z).
  { intros z. unfold size_t, SIZE_MODULUS. by apply Z.mod_pos_bound. }
  match goal with
  | |- (store_column _ (for_range _ _ ?f (for_range _ _ ?g _)) _ _, _)
       = (store_column _ (for_range _ _ ?f' (for_range _ _ ?g' _)) _ _, _) =>
      assert (Hp : for_range 0 stride g B = for_range 0 stride g' B);
      [|assert (Hq : forall B1,
                  for_range 0 stride f B1 = for_range 0 stride f' B1)]
  end.
  - apply for_range_ext. intros j h _. cbv beta.
    destruct (_ <? input_len) eqn:E; [|done].
    apply Hpop, Hread; [apply Hidx|done].
  - intros B1. apply for_range_ext. intros j h _. cbv beta.
    destruct (_ <? input_len) eqn:E; [|done].
    apply Hpush, Hread; [apply Hidx|done].
  - by rewrite Hp, Hq.
Qed.

(** X24.  The sliding loop never reads [input_int] at or beyond
    [input_len], whatever its arguments are (valid configuration or not,
    any loci and offsets): two inputs that agree on their first [input_len]
    entries give the same matrix and the same accumulator. *)
Theorem sliding_window_reads_within_input
    M B data data' loci nw win_len n_bins stride offs input_len :
  take (Z.to_nat input_len) data = take (Z.to_nat input_len) data' ->
  let mem := tswHist_h.tswHistSlidingWindow M B data loci nw win_len n_bins
               stride offs input_len in
  let mem' := tswHist_h.tswHistSlidingWindow M B data' loci nw win_len n_bins
                stride offs input_len in
  histMat mem = histMat mem' /\ bufferHist mem = bufferHist mem'.
Proof.
  intros Heq mem mem'. unfold mem, mem'.
  unfold tswHist_h.tswHistSlidingWindow, sliding_window.
  rewrite (for_range_ext 1 nw
             (sliding_step tswHist_h.pushHist tswHist_h.popHist data loci offs
                win_len n_bins stride input_len)
             (sliding_step tswHist_h.pushHist tswHist_h.popHist data' loci
                offs win_len n_bins stride input_len)).
  - by destruct (for_range 1 nw _ _).
  - intros w st _. apply sliding_step_reads_within_input; [| |done].
    + intros h p p' Hp. rewrite !pushHist_bump.
      change (Z.to_nat 1) with 1%nat. by rewrite Hp.
    + intros h p p' Hp. rewrite !popHist_bump.
      change (Z.to_nat 1) with 1%nat. by rewrite Hp.
Qed.

Lemma sliding_window_reads_within_input_witness :
  let mem := tswHist_h.tswHistSlidingWindow [1; 1; 0; 9; 9; 9] [1; 1; 0]
               [0; 1; 2; 1] [1; 2] 2 2 3 1 [0] 3 in
  let mem' := tswHist_h.tswHistSlidingWindow [1; 1; 0; 9; 9; 9] [1; 1; 0]
                [0; 1; 2; 0; 2] [1; 2] 2 2 3 1 [0] 3 in
  histMat mem = histMat mem' /\ bufferHist mem = bufferHist mem'.
Proof.
  apply (sliding_window_reads_within_input [1; 1; 0; 9; 9; 9] [1; 1; 0]
           [0; 1; 2; 1] [0; 1; 2; 0; 2]).
  reflexivity.
Defined.
